(** * PwnsianCartograph: block colours and region index

    A shallow embedding of [src/blocks.cpp] (both revisions of the file:
    the bucket counting [computeColor] and the averaging one) and of
    [src/AnvilFileWorld.cpp], with the properties of the specification
    stated over it.

    Conventions.  A C++ [int] is a [Z] kept in the 32-bit two's complement
    range by [to_int]; [unsigned] and [Uint32] are kept in range by
    [to_unsigned]; [size_t] is 64 bits wide and [npos] is its largest
    value.  A [std::string] is a [string]; characters are [ascii]. *)

From Stdlib Require Import ZArith Lia Ascii.
From Stdlib Require Floats.PrimFloat Floats.FloatAxioms Numbers.Cyclic.Int63.Uint63.
From stdpp Require Import gmap strings list fin_maps sorting.

Local Open Scope Z_scope.
Local Set Warnings "-register-all".

(** ** Machine integers *)

Module Cxx.

Definition to_unsigned (z : Z) : Z := z mod 2 ^ 32.

Definition to_int (z : Z) : Z := (z + 2 ^ 31) mod 2 ^ 32 - 2 ^ 31.

Definition to_Uint8 (z : Z) : Z := z mod 256.

Definition size_max : Z := 2 ^ 64.

(** [std::string::npos] is [size_t(-1)]. *)
Definition npos : Z := size_max - 1.

(** Addition on [size_t]: [npos + 1] is [0]. *)
Definition size_add (x y : Z) : Z := (x + y) mod size_max.

(** ** [std::string] *)

Definition size (s : string) : Z := Z.of_nat (String.length s).

Fixpoint drop_chars (n : nat) (s : string) : string :=
  match n, s with
  | O, _ => s
  | S n', String _ s' => drop_chars n' s'
  | S _, EmptyString => EmptyString
  end.

Fixpoint take_chars (n : nat) (s : string) : string :=
  match n, s with
  | S n', String c s' => String c (take_chars n' s')
  | _, _ => EmptyString
  end.

(** Index of the first [c] in [s], the first character of [s] having
    index [i]; [npos] when there is none. *)
Fixpoint find_at (c : ascii) (s : string) (i : Z) : Z :=
  match s with
  | EmptyString => npos
  | String x s' => if Ascii.eqb x c then i else find_at c s' (i + 1)
  end.

(** [s.find(c, pos)] *)
Definition find (s : string) (c : ascii) (pos : Z) : Z :=
  if pos <? size s then find_at c (drop_chars (Z.to_nat pos) s) pos else npos.

(** [s.substr(pos, count)]: the characters [pos, pos + min(count, size - pos)).
    The library throws [std::out_of_range] when [pos > size]; every call
    in the sources has [pos <= size] (see [find_bound]). *)
Definition substr (s : string) (pos count : Z) : string :=
  let rlen := Z.min count (size s - pos) in
  take_chars (Z.to_nat rlen) (drop_chars (Z.to_nat pos) s).

(** ** [std::atoi] and [operator<<(int)] *)

Definition is_digit (c : ascii) : bool :=
  let n := Z.of_nat (nat_of_ascii c) in (48 <=? n) && (n <=? 57).

Definition digit_val (c : ascii) : Z := Z.of_nat (nat_of_ascii c) - 48.

Definition digit_char (d : Z) : ascii := ascii_of_nat (Z.to_nat (48 + d)).

(** [isspace] in the C locale: space, and the controls 9 to 13. *)
Definition is_space (c : ascii) : bool :=
  let n := Z.of_nat (nat_of_ascii c) in (n =? 32) || ((9 <=? n) && (n <=? 13)).

Fixpoint skip_space (s : string) : string :=
  match s with
  | String c s' => if is_space c then skip_space s' else s
  | EmptyString => s
  end.

(** The digit loop: accumulate while the next character is a digit. *)
Fixpoint atoi_digits (s : string) (acc : Z) : Z :=
  match s with
  | String c s' => if is_digit c then atoi_digits s' (10 * acc + digit_val c) else acc
  | EmptyString => acc
  end.

(** [std::atoi(s.c_str())]: white space, an optional sign, digits; anything
    else ends the number, and no digits at all gives [0].  A value outside
    [int] is undefined in C; it is truncated to 32 bits here. *)
Definition atoi (s : string) : Z :=
  match skip_space s with
  | String c s' =>
      if Ascii.eqb c "-" then to_int (- atoi_digits s' 0)
      else if Ascii.eqb c "+" then to_int (atoi_digits s' 0)
      else to_int (atoi_digits (String c s') 0)
  | EmptyString => to_int 0
  end.

(** Decimal digits of [n >= 0], most significant first, in front of [acc]. *)
Fixpoint dec_digits (fuel : nat) (n : Z) (acc : string) : string :=
  match fuel with
  | O => acc
  | S f =>
      let acc' := String (digit_char (n mod 10)) acc in
      if n <? 10 then acc' else dec_digits f (n / 10) acc'
  end.

(** A number below [2^k] has at most [k] decimal digits. *)
Definition show_unsigned (n : Z) : string :=
  dec_digits (S (Z.to_nat (Z.log2 n))) n EmptyString.

(** [stream << n] for an [int] or [unsigned]. *)
Definition show_int (n : Z) : string :=
  if n <? 0 then String "-" (show_unsigned (- n)) else show_unsigned n.

End Cxx.

(** ** BlockID *)

Module blocks.

Import Cxx.

Record BlockID : Type := mkBlockID { id : Z; meta : Z }.

(** Modelled from the spec: the member declarations of [BlockID] (blocks.h)
    are not among the sources; the specification gives [0] as the value
    [meta] has when the string constructor finds no dash. *)
Definition meta_default : Z := 0.

(** [BlockID::BlockID(const std::string&)] *)
Definition BlockID_of_string (str : string) : BlockID :=
  let dashpos := find str "-" 0 in
  let dotpos := find str "." 0 in
  let id := atoi (substr str 0 dashpos) in
  if negb (dashpos =? npos)
  then mkBlockID id (atoi (substr str (size_add dashpos 1) dotpos))
  else mkBlockID id meta_default.

(** [BlockID::operator<] *)
Definition BlockID_lt (x y : BlockID) : bool :=
  if id x <? id y then true
  else if id x =? id y then meta x <? meta y
  else false.

(** [BlockID::operator std::string] *)
Definition BlockID_to_string (x : BlockID) : string :=
  show_int (id x) +:+ String "-" (show_int (meta x)).

End blocks.

(** ** SDL colours, RGBA8888 *)

Module SDL.

Import Cxx.

Record SDL_Color : Type := mkColor { r : Z; g : Z; b : Z; a : Z }.

Definition SDL_ALPHA_TRANSPARENT : Z := 0.
Definition SDL_ALPHA_OPAQUE : Z := 255.

(** [SDL_MapRGBA] for [SDL_PIXELFORMAT_RGBA8888]: red in the top byte. *)
Definition SDL_MapRGBA (c : SDL_Color) : Z :=
  Z.lor (Z.lor (Z.shiftl (to_Uint8 (r c)) 24) (Z.shiftl (to_Uint8 (g c)) 16))
        (Z.lor (Z.shiftl (to_Uint8 (b c)) 8) (to_Uint8 (a c))).

(** [SDL_GetRGBA] for the same format. *)
Definition SDL_GetRGBA (pixel : Z) : SDL_Color :=
  mkColor (Z.land (Z.shiftr pixel 24) 255) (Z.land (Z.shiftr pixel 16) 255)
          (Z.land (Z.shiftr pixel 8) 255) (Z.land pixel 255).

End SDL.

(** ** json11 values *)

Module json11.

Inductive Json : Type :=
  | JNull
  | JBool (b : bool)
  | JNumber (n : Z)
  | JString (s : string)
  | JArray (items : list Json)
  | JObject (members : gmap string Json).

Definition is_object (j : Json) : bool :=
  match j with JObject _ => true | _ => false end.

(** [Json::operator[](const std::string&)]: the member, or the null value
    when [j] is no object or has no such member. *)
Definition index (j : Json) (key : string) : Json :=
  match j with
  | JObject members => default JNull (members !! key)
  | _ => JNull
  end.

(** [Json::number_value()]: [0] for anything that is not a number.  The
    numbers of a cache file are the integers [saveNewJsonCache] prints;
    fractions are not represented. *)
Definition number_value (j : Json) : Z :=
  match j with JNumber n => n | _ => 0 end.

(** *** Reading a cache file back

    [Json::parse] on the part of the JSON grammar that cache files are
    written in: objects, arrays, strings without escapes, integers and the
    three literals, separated by white space.  A text outside that part
    (an escape in a string, a fraction or an exponent) is reported as not
    parseable.  On any failure [Json::parse] returns the null value. *)

Definition dquote : ascii := "034"%char.
Definition backslash : ascii := "092"%char.

(** [consume_whitespace]: space, carriage return, line feed, tab. *)
Definition is_ws (c : ascii) : bool :=
  let n := Z.of_nat (nat_of_ascii c) in (n =? 32) || (n =? 13) || (n =? 10) || (n =? 9).

Fixpoint skip_ws (s : string) : string :=
  match s with
  | String c s' => if is_ws c then skip_ws s' else s
  | EmptyString => s
  end.

(** [parse_string], after the opening quote. *)
Fixpoint parse_string (s : string) : option (string * string) :=
  match s with
  | EmptyString => None
  | String c s' =>
      if Ascii.eqb c dquote then Some (EmptyString, s')
      else if Ascii.eqb c backslash then None
      else '(str, rest) ← parse_string s'; Some (String c str, rest)
  end.

Fixpoint parse_digits (s : string) (acc : Z) : Z * string :=
  match s with
  | String c s' =>
      if Cxx.is_digit c then parse_digits s' (10 * acc + Cxx.digit_val c) else (acc, s)
  | EmptyString => (acc, s)
  end.

Definition ends_integer (s : string) : bool :=
  match s with
  | String c _ => negb (Ascii.eqb c "." || Ascii.eqb c "e" || Ascii.eqb c "E")
  | EmptyString => true
  end.

(** [parse_number]: an optional minus, then [0] or a digit string without
    a leading zero. *)
Definition parse_unsigned (s : string) : option (Z * string) :=
  match s with
  | String c s' =>
      if Ascii.eqb c "0" then
        match s' with
        | String d _ => if Cxx.is_digit d then None else
                          if ends_integer s' then Some (0, s') else None
        | EmptyString => Some (0, s')
        end
      else if Cxx.is_digit c then
        let '(n, rest) := parse_digits s 0 in
        if ends_integer rest then Some (n, rest) else None
      else None
  | EmptyString => None
  end.

Definition parse_number (s : string) : option (Json * string) :=
  match s with
  | String c s' =>
      if Ascii.eqb c "-" then '(n, rest) ← parse_unsigned s'; Some (JNumber (- n), rest)
      else '(n, rest) ← parse_unsigned s; Some (JNumber n, rest)
  | EmptyString => None
  end.

(** [expect]: the literal [word] at the head of [s]. *)
Fixpoint expect (word s : string) : option string :=
  match word, s with
  | EmptyString, _ => Some s
  | String w word', String c s' => if Ascii.eqb w c then expect word' s' else None
  | String _ _, EmptyString => None
  end.

(** The members of an object, from the quote of a key on; [value] parses
    one value, [n] bounds the number of members by the length of the text. *)
Fixpoint parse_members (value : string → option (Json * string)) (n : nat)
    (s : string) (data : gmap string Json) : option (Json * string) :=
  match n with
  | O => None
  | S n' =>
      match skip_ws s with
      | String c s1 =>
          if negb (Ascii.eqb c dquote) then None else
          '(key, s2) ← parse_string s1;
          match skip_ws s2 with
          | String c2 s3 =>
              if negb (Ascii.eqb c2 ":") then None else
              '(v, s4) ← value s3;
              let data' := <[key := v]> data in
              match skip_ws s4 with
              | String c4 s5 =>
                  if Ascii.eqb c4 "}" then Some (JObject data', s5)
                  else if Ascii.eqb c4 "," then parse_members value n' s5 data'
                  else None
              | EmptyString => None
              end
          | EmptyString => None
          end
      | EmptyString => None
      end
  end.

(** The elements of an array, likewise. *)
Fixpoint parse_elements (value : string → option (Json * string)) (n : nat)
    (s : string) (data : list Json) : option (Json * string) :=
  match n with
  | O => None
  | S n' =>
      '(v, s1) ← value s;
      match skip_ws s1 with
      | String c s2 =>
          if Ascii.eqb c "]" then Some (JArray (data ++ [v]), s2)
          else if Ascii.eqb c "," then parse_elements value n' s2 (data ++ [v])
          else None
      | EmptyString => None
      end
  end.

(** [parse_json(depth)]: [fuel] is the nesting depth that is left. *)
Fixpoint parse_json (fuel : nat) (s : string) : option (Json * string) :=
  match fuel with
  | O => None
  | S fuel' =>
      match skip_ws s with
      | EmptyString => None
      | String c s1 =>
          if Ascii.eqb c "{" then
            match skip_ws s1 with
            | String c1 s2 =>
                if Ascii.eqb c1 "}" then Some (JObject ∅, s2)
                else parse_members (parse_json fuel') (String.length s1) s1 ∅
            | EmptyString => None
            end
          else if Ascii.eqb c "[" then
            match skip_ws s1 with
            | String c1 s2 =>
                if Ascii.eqb c1 "]" then Some (JArray [], s2)
                else parse_elements (parse_json fuel') (String.length s1) s1 []
            | EmptyString => None
            end
          else if Ascii.eqb c dquote then
            '(str, s2) ← parse_string s1; Some (JString str, s2)
          else if Ascii.eqb c "-" || Cxx.is_digit c then parse_number (String c s1)
          else if Ascii.eqb c "t" then s2 ← expect "true" (String c s1); Some (JBool true, s2)
          else if Ascii.eqb c "f" then s2 ← expect "false" (String c s1); Some (JBool false, s2)
          else if Ascii.eqb c "n" then s2 ← expect "null" (String c s1); Some (JNull, s2)
          else None
      end
  end.

(** The deepest nesting [Json::parse] follows. *)
Definition max_depth : nat := 200.

(** [Json::parse(in, err)]: the value of the text, which nothing but
    white space may follow; the null value when the text does not parse. *)
Definition parse (text : string) : Json :=
  match parse_json (S max_depth) text with
  | Some (j, rest) => match skip_ws rest with EmptyString => j | _ => JNull end
  | None => JNull
  end.

End json11.

(** ** The texture archive *)

Module ZipLib.

(** What [lodepng::decode] yields: the dimensions and four bytes a pixel. *)
Record Image : Type := mkImage { width : Z; height : Z; pixels : list Z }.

(** An archive entry: its name, its CRC32, and the image that
    [readZipEntry] followed by [lodepng::decode] gets out of its bytes. *)
Record ZipArchiveEntry : Type :=
  mkEntry { GetName : string; GetCrc32 : Z; decoded : Image }.

End ZipLib.

(** ** computeColor, first revision: the most used bucket *)

Module ModePolicy.

Import Cxx SDL ZipLib.

Definition tol : Z := 20.

(** [SimilarColorCompare::operator()] *)
Definition SimilarColorCompare (x y : SDL_Color) : bool :=
  (Z.abs (r x - r y) <? tol) && (Z.abs (g x - g y) <? tol)
  && (Z.abs (b x - b y) <? tol).

(** [std::map<SDL_Color, unsigned, SimilarColorCompare>] as its nodes in
    iteration order.  [colorCounts[k] += 1] is [operator[]] followed by the
    increment, and [operator[]] is: [i = lower_bound(k)], the first node
    whose key the comparison does not put before [k]; when [i] is [end()]
    or the comparison puts [k] before the key at [i], a node [(k, 0)] is
    inserted in front of [i]; the value of the node at [i] is returned.

    [std::map] requires of its comparison that it is a strict weak
    ordering, which never puts two keys before each other.  When a lookup
    meets a key [k'] with both [comp(k', k)] and [comp(k, k')], what the
    map does is not defined by the standard and depends on how the
    library shapes and searches its tree (libstdc++ links the new node as
    the left child of the rightmost node, in the place of a child that is
    already there): [None].  [SimilarColorCompare] answers so for any two
    similar colours. *)
Fixpoint count_color (colorCounts : list (SDL_Color * Z)) (k : SDL_Color)
  : option (list (SDL_Color * Z)) :=
  match colorCounts with
  | [] => Some [(k, to_unsigned (0 + 1))]
  | (k', n) :: rest =>
      if SimilarColorCompare k' k
      then if SimilarColorCompare k k' then None
           else rest' ← count_color rest k; Some ((k', n) :: rest')
      else if SimilarColorCompare k k' then Some ((k, to_unsigned (0 + 1)) :: (k', n) :: rest)
           else Some ((k', to_unsigned (n + 1)) :: rest)
  end.

(** The loop over the pixel buffer, four bytes at a step.  A buffer whose
    size is no multiple of four is read past its end: [None]. *)
Fixpoint count_pixels (pixels : list Z) (colorCounts : list (SDL_Color * Z))
  : option (list (SDL_Color * Z)) :=
  match pixels with
  | [] => Some colorCounts
  | r :: g :: b :: a :: rest =>
      colorCounts' ← (if negb (a =? SDL_ALPHA_TRANSPARENT)
                      then count_color colorCounts (mkColor r g b a)
                      else Some colorCounts);
      count_pixels rest colorCounts'
  | _ => None
  end.

(** [std::max_element] with the lambda [pair0.second < pair1.second]: the
    first of the largest. *)
Fixpoint max_element_from (largest : SDL_Color * Z) (rest : list (SDL_Color * Z))
  : SDL_Color * Z :=
  match rest with
  | [] => largest
  | x :: rest' => max_element_from (if largest.2 <? x.2 then x else largest) rest'
  end.

(** On an empty map [max_element] returns [end()], which [computeColor]
    dereferences: [None]. *)
Definition max_element (colorCounts : list (SDL_Color * Z)) : option (SDL_Color * Z) :=
  match colorCounts with
  | [] => None
  | x :: rest => Some (max_element_from x rest)
  end.

Definition computeColor (blockImage : ZipArchiveEntry) : option SDL_Color :=
  colorCounts ← count_pixels (pixels (decoded blockImage)) [];
  it ← max_element colorCounts;
  Some it.1.

End ModePolicy.

(** ** computeColor, second revision: the average *)

Module AveragePolicy.

Import Cxx SDL ZipLib.

(** The sums [avgR], [avgG], [avgB], each an [unsigned]. *)
Fixpoint sum_pixels (pixels : list Z) (avg : Z * Z * Z) : option (Z * Z * Z) :=
  match pixels with
  | [] => Some avg
  | r :: g :: b :: a :: rest =>
      let '(avgR, avgG, avgB) := avg in
      sum_pixels rest
        (if negb (a =? SDL_ALPHA_TRANSPARENT)
         then (to_unsigned (avgR + r), to_unsigned (avgG + g), to_unsigned (avgB + b))
         else avg)
  | _ => None
  end.

(** [int nPixels = w * h], and [avgR / nPixels] is a division of
    [unsigned]s; division by zero is undefined: [None]. *)
Definition computeColor (blockImage : ZipArchiveEntry) : option SDL_Color :=
  let img := decoded blockImage in
  let nPixels := to_int (to_unsigned (width img * height img)) in
  '(avgR, avgG, avgB) ← sum_pixels (pixels img) (0, 0, 0);
  if to_unsigned nPixels =? 0 then None
  else Some (mkColor (to_Uint8 (avgR / to_unsigned nPixels))
                     (to_Uint8 (avgG / to_unsigned nPixels))
                     (to_Uint8 (avgB / to_unsigned nPixels))
                     SDL_ALPHA_OPAQUE).

End AveragePolicy.

(** ** BlockColors *)

Module BlockColors.

Import Cxx SDL json11 ZipLib.
Export blocks.

Global Instance BlockID_eq_dec : EqDecision BlockID.
Proof. solve_decision. Defined.

Global Instance BlockID_countable : Countable BlockID :=
  inj_countable' (λ x, (id x, meta x)) (λ p, mkBlockID p.1 p.2)
                 (λ x, match x with mkBlockID _ _ => eq_refl end).

(** [CachedColorMap]: [std::map<BlockID, std::pair<SDL_Color, unsigned>>].
    Its keys are unique up to [operator<], which is up to equality
    ([BlockID_lt_equiv]). *)
Abbreviation CachedColorMap := (gmap BlockID (SDL_Color * Z)).

(** The order of [operator<] on the nodes, for iteration. *)
Definition key_before (x y : BlockID * (SDL_Color * Z)) : Prop :=
  Is_true (BlockID_lt x.1 y.1).

Global Instance key_before_dec x y : Decision (key_before x y).
Proof. unfold key_before. apply _. Defined.

(** [blockColors.begin() .. blockColors.end()] *)
Definition iterate (blockColors : CachedColorMap) : list (BlockID * (SDL_Color * Z)) :=
  merge_sort key_before (map_to_list blockColors).

Definition dquote : ascii := "034"%char.
Definition tab : ascii := "009"%char.
Definition newline : ascii := "010"%char.

Definition cat (parts : list string) : string := foldr String.append EmptyString parts.

(** The text one iteration of the loop of [saveNewJsonCache] streams out. *)
Definition cache_line (it : BlockID * (SDL_Color * Z)) (last : bool) : string :=
  let id := BlockID_to_string it.1 in
  let color := it.2.1 in
  let crc := it.2.2 in
  let pixel := SDL_MapRGBA color in
  cat [ String tab (String dquote EmptyString); id; String dquote ":";
        "{"; String dquote "crc"; String dquote ":"; show_int crc;
        ", "; String dquote "color"; String dquote ":"; show_int pixel; "}";
        if last then EmptyString else ",";
        String newline EmptyString ].

Fixpoint cache_lines (its : list (BlockID * (SDL_Color * Z))) : string :=
  match its with
  | [] => EmptyString
  | [it] => cache_line it true
  | it :: rest => cache_line it false +:+ cache_lines rest
  end.

(** [BlockColors::saveNewJsonCache]: the text written to [cacheFileName]
    (the stream is taken to open). *)
Definition saveNewJsonCache (blockColors : CachedColorMap) : string :=
  cat [ String "{" (String newline EmptyString); cache_lines (iterate blockColors); "}" ].

(** The value the text of [saveNewJsonCache] denotes, which is what
    [Json::parse] makes of it at the next [load]. *)
Definition cache_member (it : BlockID * (SDL_Color * Z)) : string * Json :=
  (BlockID_to_string it.1,
   JObject (<["crc" := JNumber it.2.2]> (<["color" := JNumber (SDL_MapRGBA it.2.1)]> ∅))).

Definition cache_json (blockColors : CachedColorMap) : Json :=
  JObject (list_to_map (cache_member <$> iterate blockColors)).

(** Which branch of the loop body gave an entry its colour. *)
Inductive Source : Type := FromCache | Computed.

(** The members [blockColors] and the local [hadToRecompute] of [load];
    [sources] logs, turn by turn, the branch taken and the value of the
    local [color] at the end of the turn. *)
Record LoadState : Type := mkLoadState {
  blockColors : CachedColorMap;
  hadToRecompute : bool;
  sources : list (Source * SDL_Color)
}.

(** What [load] leaves behind: the members, and the new content of the
    cache file if it wrote one. *)
Record Loaded : Type := mkLoaded {
  state : LoadState;
  written : option string
}.

Section Load.

(** The two revisions differ in [computeColor] only. *)
Variable computeColor : ZipArchiveEntry → option SDL_Color.

(** The name of an entry up to its first dot, the key [load] looks up. *)
Definition cache_key (entry : ZipArchiveEntry) : string :=
  substr (GetName entry) 0 (find (GetName entry) "." 0).

(** One turn of the loop of [load]. *)
Definition load_entry (cacheJson : Json) (st : LoadState) (entry : ZipArchiveEntry)
  : option LoadState :=
  let zipcrc := GetCrc32 entry in
  let name := substr (GetName entry) 0 (find (GetName entry) "." 0) in
  let key := index cacheJson name in
  if is_object key && (number_value (index key "crc") =? zipcrc)
  then
    let pixel := to_unsigned (number_value (index key "color")) in
    let color := SDL_GetRGBA pixel in
    Some (mkLoadState (<[BlockID_of_string name := (color, zipcrc)]> (blockColors st))
                      (hadToRecompute st)
                      (sources st ++ [(FromCache, color)]))
  else
    color ← computeColor entry;
    Some (mkLoadState (<[BlockID_of_string name := (color, zipcrc)]> (blockColors st))
                      true
                      (sources st ++ [(Computed, color)])).

Fixpoint load_entries (cacheJson : Json) (st : LoadState) (entries : list ZipArchiveEntry)
  : option LoadState :=
  match entries with
  | [] => Some st
  | entry :: rest => st' ← load_entry cacheJson st entry; load_entries cacheJson st' rest
  end.

(** [BlockColors::load].  [archive] is what [ZipFile::Open] returned
    ([None] for [nullptr], which ends the load), [cacheJson] what
    [Json::parse] made of the cache file, [members] the map of the object
    before the call. *)
Definition load (archive : option (list ZipArchiveEntry)) (cacheJson : Json)
    (members : CachedColorMap) : option Loaded :=
  entries ← archive;
  st ← load_entries cacheJson (mkLoadState members false []) entries;
  Some (mkLoaded st (if hadToRecompute st
                     then Some (saveNewJsonCache (blockColors st))
                     else None)).

End Load.

(** [BlockColors::isLoaded]: the body is [return isLoaded();].  [fuel]
    bounds the depth of calls; [None] when the bound is reached before any
    call has returned. *)
Fixpoint isLoaded (fuel : nat) : option bool :=
  match fuel with
  | O => None
  | S fuel' => isLoaded fuel'
  end.

(** The same as a relation: a call returns [b] when the call in its body
    returns [b], and in no other way. *)
Inductive isLoaded_returns : bool → Prop :=
  | isLoaded_call b : isLoaded_returns b → isLoaded_returns b.

(** [BlockColors::getBlockColor(unsigned id, unsigned meta)] *)
Definition getBlockColor (blockColors : CachedColorMap) (id meta : Z) : SDL_Color :=
  match blockColors !! mkBlockID (to_int id) (to_int meta) with
  | Some it => it.1
  | None => mkColor 0 0 0 0
  end.

End BlockColors.

(** ** RegionFileWorld *)

Module RegionFileWorld.

Import Cxx.

(** [RegionCoord] is [std::pair<int,int>]; a region file is kept as the
    path it was loaded from. *)
Abbreviation RegionCoord := (Z * Z)%type.

Record RegionFile : Type := mkRegionFile { path : string }.

Abbreviation RegionMap := (gmap RegionCoord RegionFile).

(** [RegionFileWorld::parseFilename] *)
Definition parseFilename (filename : string) : bool * RegionCoord :=
  let dotpos0 := find filename "." 0 in
  let dotpos1 := find filename "." (size_add dotpos0 1) in
  let dotpos2 := find filename "." (size_add dotpos1 1) in
  if negb (dotpos0 =? npos) && negb (dotpos1 =? npos) && negb (dotpos2 =? npos)
  then (true, (atoi (substr filename (size_add dotpos0 1) dotpos1),
               atoi (substr filename (size_add dotpos1 1) dotpos2)))
  else (false, (0, 0)).

(** The constructor: [d_names] are the names [readdir] yields for
    [rootpath/region/], [None] when [opendir] fails. *)
Definition scan (rootpath : string) (d_names : option (list string)) : option RegionMap :=
  names ← d_names;
  Some (foldl (λ regions d_name,
                 let pair := parseFilename d_name in
                 if pair.1
                 then <[pair.2 := mkRegionFile (rootpath +:+ "/region/" +:+ d_name)]> regions
                 else regions)
              ∅ names).

(** The order of [std::pair]'s [operator<] on the keys. *)
Definition coord_before (x y : RegionCoord * RegionFile) : Prop :=
  x.1.1 < y.1.1 ∨ (x.1.1 = y.1.1 ∧ x.1.2 < y.1.2).

Global Instance coord_before_dec x y : Decision (coord_before x y).
Proof. unfold coord_before. apply _. Defined.

Definition regionMap (regions : RegionMap) : list (RegionCoord * RegionFile) :=
  merge_sort coord_before (map_to_list regions).

(** The four running bounds of [getSize], all starting at [0]. *)
Definition bounds_step (acc : Z * Z * Z * Z) (pair : RegionCoord * RegionFile)
  : Z * Z * Z * Z :=
  let '(minx, minz, maxx, maxz) := acc in
  (Z.min minx pair.1.1, Z.min minz pair.1.2,
   Z.max maxx pair.1.1, Z.max maxz pair.1.2).

(** [RegionFileWorld::getSize] *)
Definition getSize (regions : RegionMap) : Z * Z :=
  let '(minx, minz, maxx, maxz) := foldl bounds_step (0, 0, 0, 0) (regionMap regions) in
  (to_int (to_int (32 * 16) * to_int (maxx + minx)),
   to_int (to_int (32 * 16) * to_int (maxz + minz))).

End RegionFileWorld.

(** ** Vocabulary of the statements *)

Module Spec.

Import Cxx.

(** [c] is one of the characters of [s]. *)
Fixpoint occurs (c : ascii) (s : string) : bool :=
  match s with
  | EmptyString => false
  | String x s' => Ascii.eqb x c || occurs c s'
  end.

(** [s] is made of decimal digits only. *)
Fixpoint all_digits (s : string) : bool :=
  match s with
  | EmptyString => true
  | String x s' => is_digit x && all_digits s'
  end.

(** A decimal numeral: one digit at least, and digits only; its value is
    what the digit loop of [atoi] makes of it. *)
Definition numeral (s : string) : Prop := all_digits s = true ∧ s ≠ EmptyString.

Definition numeral_value (s : string) : Z := atoi_digits s 0.

(** The cache holds an object under the key of [entry], and the checksum
    stored in it (its member ["crc"] as [number_value] reads it) is the
    CRC32 the archive has for [entry]. *)
Definition cache_holds (cacheJson : json11.Json) (entry : ZipLib.ZipArchiveEntry) : Prop :=
  ∃ members,
    json11.index cacheJson (BlockColors.cache_key entry) = json11.JObject members
    ∧ json11.number_value (json11.index (json11.JObject members) "crc")
      = ZipLib.GetCrc32 entry.

(** The colour a cache object stores, unpacked. *)
Definition cached_color (cacheJson : json11.Json) (entry : ZipLib.ZipArchiveEntry)
  : SDL.SDL_Color :=
  SDL.SDL_GetRGBA
    (to_unsigned
       (json11.number_value
          (json11.index (json11.index cacheJson (BlockColors.cache_key entry)) "color"))).

(** The [BlockID] an entry is filed under. *)
Definition entry_id (entry : ZipLib.ZipArchiveEntry) : blocks.BlockID :=
  blocks.BlockID_of_string (BlockColors.cache_key entry).

(** [b] has exactly one node in the map. *)
Definition one_node (blockColors : gmap blocks.BlockID (SDL.SDL_Color * Z))
    (b : blocks.BlockID) : Prop :=
  length (filter (λ it, it.1 = b) (BlockColors.iterate blockColors)) = 1%nat.

(** The test of the [if] in the loop of [load]. *)
Definition cache_hit (cacheJson : json11.Json) (entry : ZipLib.ZipArchiveEntry) : bool :=
  let key := json11.index cacheJson (BlockColors.cache_key entry) in
  json11.is_object key
  && (json11.number_value (json11.index key "crc") =? ZipLib.GetCrc32 entry).

(** The branch of one turn and the colour it ends with. *)
Definition entry_outcome (computeColor : ZipLib.ZipArchiveEntry → option SDL.SDL_Color)
    (cacheJson : json11.Json) (entry : ZipLib.ZipArchiveEntry)
  : option (BlockColors.Source * SDL.SDL_Color) :=
  if cache_hit cacheJson entry
  then Some (BlockColors.FromCache, cached_color cacheJson entry)
  else color ← computeColor entry; Some (BlockColors.Computed, color).

(** The node one turn assigns. *)
Definition entry_node (entry : ZipLib.ZipArchiveEntry)
    (o : BlockColors.Source * SDL.SDL_Color) : blocks.BlockID * (SDL.SDL_Color * Z) :=
  (entry_id entry, (o.2, ZipLib.GetCrc32 entry)).

Definition assign_node (m : gmap blocks.BlockID (SDL.SDL_Color * Z))
    (p : blocks.BlockID * (SDL.SDL_Color * Z)) : gmap blocks.BlockID (SDL.SDL_Color * Z) :=
  <[p.1 := p.2]> m.

(** *** Pixels *)

(** An RGBA pixel, and the byte buffer of a row of pixels. *)
Definition buffer (px : list (Z * Z * Z * Z)) : list Z :=
  flat_map (λ p, let '(r, g, b, a) := p in [r; g; b; a]) px.

Definition is_byte (z : Z) : Prop := 0 <= z < 256.

Definition byte_pixel (p : Z * Z * Z * Z) : Prop :=
  let '(r, g, b, a) := p in is_byte r ∧ is_byte g ∧ is_byte b ∧ is_byte a.

(** The pixels that are not fully transparent. *)
Definition visible (px : list (Z * Z * Z * Z)) : list (Z * Z * Z * Z) :=
  filter (λ p, p.2 ≠ SDL.SDL_ALPHA_TRANSPARENT) px.

Definition red (p : Z * Z * Z * Z) : Z := p.1.1.1.
Definition green (p : Z * Z * Z * Z) : Z := p.1.1.2.
Definition blue (p : Z * Z * Z * Z) : Z := p.1.2.

Definition total (channel : Z * Z * Z * Z → Z) (px : list (Z * Z * Z * Z)) : Z :=
  foldr (λ p acc, channel p + acc) 0 px.

(** The average policy as the specification words it: the sums over the
    visible pixels divided by the number of visible pixels, alpha opaque;
    the transparent black colour when no pixel is visible. *)
Definition average_as_specified (px : list (Z * Z * Z * Z)) : SDL.SDL_Color :=
  let n := Z.of_nat (length (visible px)) in
  if n =? 0 then SDL.mkColor 0 0 0 0
  else SDL.mkColor (total red (visible px) / n) (total green (visible px) / n)
                   (total blue (visible px) / n) SDL.SDL_ALPHA_OPAQUE.

(** The bucket policy as the specification words it.  A bucket is its
    first colour and a count; a pixel joins the first bucket whose colour
    is within the tolerance on all three channels, and opens a bucket
    otherwise. *)
Definition within_tolerance (x y : SDL.SDL_Color) : bool :=
  (Z.abs (SDL.r x - SDL.r y) <? 20) && (Z.abs (SDL.g x - SDL.g y) <? 20)
  && (Z.abs (SDL.b x - SDL.b y) <? 20).

Fixpoint join_bucket (buckets : list (SDL.SDL_Color * Z)) (c : SDL.SDL_Color)
  : list (SDL.SDL_Color * Z) :=
  match buckets with
  | [] => [(c, 1)]
  | (rep, n) :: rest =>
      if within_tolerance c rep then (rep, n + 1) :: rest
      else (rep, n) :: join_bucket rest c
  end.

Definition buckets_as_specified (px : list (Z * Z * Z * Z)) : list (SDL.SDL_Color * Z) :=
  foldl (λ buckets p, let '(r, g, b, a) := p in join_bucket buckets (SDL.mkColor r g b a))
        [] (visible px).

(** The first bucket among those of the highest count. *)
Fixpoint fullest (best : SDL.SDL_Color * Z) (rest : list (SDL.SDL_Color * Z))
  : SDL.SDL_Color * Z :=
  match rest with
  | [] => best
  | x :: rest' => fullest (if best.2 <? x.2 then x else best) rest'
  end.

Definition mode_as_specified (px : list (Z * Z * Z * Z)) : option SDL.SDL_Color :=
  match buckets_as_specified px with
  | [] => None
  | x :: rest => Some (fullest x rest).1
  end.

End Spec.

(** ** Sample inputs *)

Module Samples.

Import SDL json11 ZipLib BlockColors.

(** A one-pixel grey image, and an archive of two textures. *)
Definition grey_pixel : Image := mkImage 1 1 [100; 100; 100; 255].

Definition two_textures : list ZipArchiveEntry :=
  [mkEntry "1-0.png" 5 grey_pixel; mkEntry "35-14.png" 7 grey_pixel].

(** A cache that knows the first texture under its present CRC32. *)
Definition half_cache : Json :=
  JObject (<["1-0" := JObject (<["crc" := JNumber 5]> (<["color" := JNumber 255]> ∅))]> ∅).

(** A texture whose name has no meta part. *)
Definition bare_texture : list ZipArchiveEntry := [mkEntry "404.png" 5 grey_pixel].

(** One black pixel followed by two grey ones. *)
Definition black_grey_grey : list (Z * Z * Z * Z) :=
  [(0, 0, 0, 255); (100, 100, 100, 255); (100, 100, 100, 255)].

(** One grey pixel and one transparent pixel. *)
Definition grey_and_clear : list (Z * Z * Z * Z) :=
  [(100, 100, 100, 255); (0, 0, 0, 0)].

End Samples.

(** ** double *)

Module Double.

(** The conversion of an [int] to [double], for the integers from [0]
    to [2^63 - 1]; the ones converted in the sources are the values of a
    [Uint8] and the literals of [rgb2hsv].  The arithmetic of [double] is
    taken to be that of IEEE 754 binary64 with rounding to nearest,
    evaluated in that format. *)
Definition of_int (z : Z) : PrimFloat.float := PrimFloat.of_uint63 (Uint63.of_Z z).

(** The largest integer of [k, k + sum bits] that is no larger than [x],
    for the powers of two [bits] in falling order. *)
Fixpoint trunc_bits (bits : list PrimInt63.int) (x : PrimFloat.float) (k : PrimInt63.int)
  : PrimInt63.int :=
  match bits with
  | [] => k
  | bit :: rest =>
      trunc_bits rest x
        (if PrimFloat.leb (PrimFloat.of_uint63 (PrimInt63.add k bit)) x
         then PrimInt63.add k bit else k)
  end.

(** The integer part of an [x] that is above [-1] and below [256]. *)
Definition trunc (x : PrimFloat.float) : option PrimInt63.int :=
  if PrimFloat.ltb (PrimFloat.opp (of_int 1)) x && PrimFloat.ltb x (of_int 256)
  then Some (trunc_bits (Uint63.of_Z <$> [128; 64; 32; 16; 8; 4; 2; 1]) x (Uint63.of_Z 0))
  else None.

(** [Uint8(x)]: the fraction is dropped; when what is left does not fit a
    [Uint8] the conversion is undefined: [None]. *)
Definition to_Uint8 (x : PrimFloat.float) : option Z := Uint63.to_Z <$> trunc x.

End Double.

(** ** rgb2hsv *)

Module Hsv.

Import SDL.

(** [BlockColors::rgb2hsv] *)
Definition rgb2hsv (rgb : SDL_Color) : option SDL_Color :=
  let r := r rgb in
  let g := g rgb in
  let b := b rgb in
  let maxC := Double.of_int b in
  let maxC := if PrimFloat.ltb maxC (Double.of_int g) then Double.of_int g else maxC in
  let maxC := if PrimFloat.ltb maxC (Double.of_int r) then Double.of_int r else maxC in
  let minC := Double.of_int b in
  let minC := if PrimFloat.ltb (Double.of_int g) minC then Double.of_int g else minC in
  let minC := if PrimFloat.ltb (Double.of_int r) minC then Double.of_int r else minC in
  let delta := PrimFloat.sub maxC minC in
  let V := maxC in
  let '(H, Sat) :=
    if PrimFloat.eqb delta (Double.of_int 0) then (Double.of_int 0, Double.of_int 0)
    else
      let Sat := PrimFloat.div delta maxC in
      let dR :=
        PrimFloat.add
          (PrimFloat.div
             (PrimFloat.mul (Double.of_int 60) (PrimFloat.sub maxC (Double.of_int r)))
             delta)
          (Double.of_int 180) in
      let dG :=
        PrimFloat.add
          (PrimFloat.div
             (PrimFloat.mul (Double.of_int 60) (PrimFloat.sub maxC (Double.of_int g)))
             delta)
          (Double.of_int 180) in
      let dB :=
        PrimFloat.add
          (PrimFloat.div
             (PrimFloat.mul (Double.of_int 60) (PrimFloat.sub maxC (Double.of_int b)))
             delta)
          (Double.of_int 180) in
      if PrimFloat.eqb (Double.of_int r) maxC then (PrimFloat.sub dB dG, Sat)
      else if PrimFloat.eqb (Double.of_int g) maxC
           then (PrimFloat.sub (PrimFloat.add (Double.of_int 120) dR) dB, Sat)
           else (PrimFloat.sub (PrimFloat.add (Double.of_int 240) dG) dR, Sat) in
  let H := if PrimFloat.ltb H (Double.of_int 0)
           then PrimFloat.add H (Double.of_int 360) else H in
  let H := if PrimFloat.leb (Double.of_int 360) H
           then PrimFloat.sub H (Double.of_int 360) else H in
  h ← Double.to_Uint8 H;
  s ← Double.to_Uint8 Sat;
  v ← Double.to_Uint8 V;
  Some (mkColor h s v SDL_ALPHA_OPAQUE).

End Hsv.

(** ** Further vocabulary *)

Module More.

Import Cxx.

(** One turn of the loop of the constructor of [RegionFileWorld]. *)
Definition scan_step (rootpath : string)
    (regions : gmap (Z * Z) RegionFileWorld.RegionFile) (d_name : string)
  : gmap (Z * Z) RegionFileWorld.RegionFile :=
  let pair := RegionFileWorld.parseFilename d_name in
  if pair.1
  then <[pair.2 := RegionFileWorld.mkRegionFile (rootpath +:+ "/region/" +:+ d_name)]> regions
  else regions.

(** The [SDL_Color] of a pixel of the buffer. *)
Definition pixel_color (p : Z * Z * Z * Z) : SDL.SDL_Color :=
  let '(r, g, b, a) := p in SDL.mkColor r g b a.

(** A colour whose four channels are bytes, as the fields of an
    [SDL_Color] are. *)
Definition byte_color (c : SDL.SDL_Color) : Prop :=
  Spec.is_byte (SDL.r c) ∧ Spec.is_byte (SDL.g c) ∧ Spec.is_byte (SDL.b c)
  ∧ Spec.is_byte (SDL.a c).

(** The object that one line of the cache file holds behind its key, in
    the order the members are written in, and its text in front of
    [tail]. *)
Definition node_json (it : blocks.BlockID * (SDL.SDL_Color * Z)) : json11.Json :=
  json11.JObject (<["color" := json11.JNumber (SDL.SDL_MapRGBA it.2.1)]>
                    (<["crc" := json11.JNumber it.2.2]> ∅)).

Definition node_text (it : blocks.BlockID * (SDL.SDL_Color * Z)) (tail : string) : string :=
  String "{" (String json11.dquote ("crc" +:+ String json11.dquote (String ":"
    (show_int it.2.2 +:+ String "," (String " " (String json11.dquote
      ("color" +:+ String json11.dquote (String ":"
        (show_int (SDL.SDL_MapRGBA it.2.1) +:+ String "}" tail))))))))).

(** *** rgb2hsv over the integers *)

(** [f] holds of the [n] integers from [z] on. *)
Fixpoint all_from (n : nat) (z : Z) (f : Z → bool) : bool :=
  match n with
  | O => true
  | S n' => f z && all_from n' (Z.succ z) f
  end.

(** The terms [dR], [dG], [dB] for a channel that is [u] below the
    largest one. *)
Definition channel_term (delta u : Z) : PrimFloat.float :=
  PrimFloat.add
    (PrimFloat.div (PrimFloat.mul (Double.of_int 60) (Double.of_int u)) (Double.of_int delta))
    (Double.of_int 180).

(** [if (H<0) H+=360; if (H>=360) H-=360;] *)
Definition wrap_hue (H : PrimFloat.float) : PrimFloat.float :=
  let H := if PrimFloat.ltb H (Double.of_int 0)
           then PrimFloat.add H (Double.of_int 360) else H in
  if PrimFloat.leb (Double.of_int 360) H
  then PrimFloat.sub H (Double.of_int 360) else H.

(** [H] in the three branches: [dB - dG], [120 + dR - dB] and
    [240 + dG - dR]. *)
Definition hue_term (mode delta u1 u2 : Z) : PrimFloat.float :=
  if mode =? 0 then PrimFloat.sub (channel_term delta u1) (channel_term delta u2)
  else PrimFloat.sub (PrimFloat.add (Double.of_int (120 * mode)) (channel_term delta u1))
                     (channel_term delta u2).

(** The hue [base + num / delta] in whole degrees, rounded down and
    brought into the range from [0] below [360], and as a [Uint8]. *)
Definition degrees (base num delta : Z) : Z :=
  let h := base + num / delta in
  let h := if h <? 0 then h + 360 else h in
  if 360 <=? h then h - 360 else h.

Definition degrees_byte (base num delta : Z) : option Z :=
  let h := degrees base num delta in
  if h <? 256 then Some h else None.

(** [Uint8(x)] is [expected], tested. *)
Definition is_Uint8 (x : PrimFloat.float) (expected : option Z) : bool :=
  match Double.trunc x, expected with
  | Some i, Some y => (0 <=? y) && (y <? 256) && PrimInt63.eqb i (Uint63.of_Z y)
  | None, None => true
  | _, _ => false
  end.

Definition check_hue (mode delta u1 u2 : Z) : bool :=
  is_Uint8 (wrap_hue (hue_term mode delta u1 u2))
           (degrees_byte (120 * mode) (60 * (u1 - u2)) delta).


(** The [return] of [rgb2hsv]. *)
Definition hsv_of_terms (H Sat V : PrimFloat.float) : option SDL.SDL_Color :=
  h ← Double.to_Uint8 (wrap_hue H);
  s ← Double.to_Uint8 Sat;
  v ← Double.to_Uint8 V;
  Some (SDL.mkColor h s v SDL.SDL_ALPHA_OPAQUE).

(** The largest and the smallest of red, green and blue, and the hue in
    whole degrees. *)
Definition largest (c : SDL.SDL_Color) : Z := Z.max (Z.max (SDL.b c) (SDL.g c)) (SDL.r c).
Definition smallest (c : SDL.SDL_Color) : Z := Z.min (Z.min (SDL.b c) (SDL.g c)) (SDL.r c).

Definition hue_degrees (c : SDL.SDL_Color) : Z :=
  let delta := largest c - smallest c in
  if delta =? 0 then 0
  else if SDL.r c =? largest c then degrees 0 (60 * (SDL.g c - SDL.b c)) delta
  else if SDL.g c =? largest c then degrees 120 (60 * (SDL.b c - SDL.r c)) delta
  else degrees 240 (60 * (SDL.r c - SDL.g c)) delta.

(** *** The claims as the specification words them *)

(** The test of the cache under the entry's [BlockID] key: an object
    there whose checksum is the entry's CRC32; and the colour stored
    there. *)
Definition cache_holds_under_id (cacheJson : json11.Json) (entry : ZipLib.ZipArchiveEntry)
  : Prop :=
  ∃ members,
    json11.index cacheJson (blocks.BlockID_to_string (Spec.entry_id entry))
    = json11.JObject members
    ∧ json11.number_value (json11.index (json11.JObject members) "crc")
      = ZipLib.GetCrc32 entry.

Definition cached_color_under_id (cacheJson : json11.Json) (entry : ZipLib.ZipArchiveEntry)
  : SDL.SDL_Color :=
  SDL.SDL_GetRGBA
    (to_unsigned
       (json11.number_value
          (json11.index
             (json11.index cacheJson (blocks.BlockID_to_string (Spec.entry_id entry)))
             "color"))).

(** A cache that knows the texture ["404.png"] under the key of its
    [BlockID], with its present CRC32 and the colour [(1, 2, 3)]. *)
Definition keyed_cache : json11.Json :=
  json11.JObject
    (<[blocks.BlockID_to_string
         (Spec.entry_id (ZipLib.mkEntry "404.png" 5 Samples.grey_pixel))
       := json11.JObject
            (<["crc" := json11.JNumber 5]>
               (<["color" := json11.JNumber (SDL.SDL_MapRGBA (SDL.mkColor 1 2 3 255))]> ∅))]>
       ∅).

(** The smallest and the largest of the numbers [zs]; of no number at
    all, [0] and [0]. *)
Definition extent (zs : list Z) : Z * Z :=
  match zs with
  | [] => (0, 0)
  | z :: rest => (foldl Z.min z rest, foldl Z.max z rest)
  end.

(** [getSize] with [minx], [minz], [maxx], [maxz] the smallest and the
    largest coordinates of the loaded regions. *)
Definition getSize_as_specified (regions : gmap (Z * Z) RegionFileWorld.RegionFile)
  : Z * Z :=
  let xs := extent ((λ p, p.1.1) <$> RegionFileWorld.regionMap regions) in
  let zs := extent ((λ p, p.1.2) <$> RegionFileWorld.regionMap regions) in
  (32 * 16 * (xs.2 + xs.1), 32 * 16 * (zs.2 + zs.1)).

End More.

(** * Properties *)

Import Cxx Spec Samples More.

(** ** Strings *)

#[local] Arguments String.append !_ _ / : simpl nomatch.

Section Strings.

Implicit Types (s t : string) (c : ascii).

Lemma size_nonneg s : 0 <= size s.
Proof. unfold size. lia. Qed.

Lemma size_app s t : size (s +:+ t) = size s + size t.
Proof.
  unfold size. induction s as [|x s IH]; [simpl; lia|].
  cbn [String.length String.append]. lia.
Qed.

Lemma size_String c s : size (String c s) = 1 + size s.
Proof.
  unfold size. change (String.length (String c s)) with (S (String.length s)). lia.
Qed.

Lemma app_assoc_str s t u : (s +:+ t) +:+ u = s +:+ (t +:+ u).
Proof. induction s as [|x s IH]; simpl; [done|]. by rewrite IH. Qed.

Lemma app_nil_r_str s : s +:+ EmptyString = s.
Proof. induction s as [|x s IH]; simpl; [done|]. by rewrite IH. Qed.

Lemma drop_chars_app s t : drop_chars (String.length s) (s +:+ t) = t.
Proof. induction s as [|x s IH]; simpl; auto. Qed.

Lemma drop_chars_size s t n : n = size s → drop_chars (Z.to_nat n) (s +:+ t) = t.
Proof. intros ->. unfold size. rewrite Nat2Z.id. apply drop_chars_app. Qed.

Lemma take_chars_app s t (n : nat) :
  (String.length s <= n)%nat →
  take_chars n (s +:+ t) = s +:+ take_chars (n - String.length s) t.
Proof.
  revert n. induction s as [|x s IH]; intros n Hn; simpl in *.
  - by rewrite Nat.sub_0_r.
  - destruct n as [|n]; [lia|]. simpl. rewrite IH by lia. done.
Qed.

Lemma take_chars_all s (n : nat) : (String.length s <= n)%nat → take_chars n s = s.
Proof.
  revert n. induction s as [|x s IH]; intros n Hn; simpl in *.
  - by destruct n.
  - destruct n as [|n]; [lia|]. simpl. by rewrite IH by lia.
Qed.

Lemma occurs_app c s t : occurs c (s +:+ t) = occurs c s || occurs c t.
Proof. induction s as [|x s IH]; simpl; [done|]. rewrite IH. by rewrite orb_assoc. Qed.

Lemma find_at_none c s i : occurs c s = false → find_at c s i = npos.
Proof.
  revert i. induction s as [|x s IH]; intros i H; simpl in *; [done|].
  apply orb_false_iff in H as [-> H]. auto.
Qed.

Lemma find_at_app c s t i :
  occurs c s = false → find_at c (s +:+ String c t) i = i + size s.
Proof.
  revert i. induction s as [|x s IH]; intros i H; simpl in *.
  - rewrite Ascii.eqb_refl. unfold size. simpl. lia.
  - apply orb_false_iff in H as [-> H]. rewrite IH by done.
    rewrite size_String. lia.
Qed.

(** A string either lacks [c] or splits at its first [c]. *)
Lemma first_occurrence c s :
  occurs c s = false ∨
  ∃ pre post, s = pre +:+ String c post ∧ occurs c pre = false.
Proof.
  induction s as [|x s IH]; [by left|].
  destruct (Ascii.eqb x c) eqn:E.
  - right. apply Ascii.eqb_eq in E as ->. by exists EmptyString, s.
  - destruct IH as [IH|(pre & post & -> & Hpre)].
    + left. simpl. by rewrite E.
    + right. exists (String x pre), post. simpl. by rewrite E.
Qed.

(** [find] from the end of a prefix is [find_at] on what follows it. *)
Lemma find_after c s t p : p = size s → find (s +:+ t) c p = find_at c t p.
Proof.
  intros ->. unfold find. rewrite size_app.
  destruct (Z.ltb_spec (size s) (size s + size t)) as [H|H].
  - by rewrite drop_chars_size.
  - assert (size t = 0) as Ht by (pose proof (size_nonneg t); lia).
    destruct t; [done|]. rewrite size_String in Ht. pose proof (size_nonneg t). lia.
Qed.

Lemma find_0 c s : find s c 0 = find_at c s 0.
Proof. apply (find_after c EmptyString s 0). done. Qed.

(** A position [find] returns is inside the string, so [substr] may start
    right after it. *)
Lemma find_at_bound c s i :
  find_at c s i = npos ∨ (i <= find_at c s i < i + size s).
Proof.
  revert i. induction s as [|x s IH]; intros i; simpl; [by left|].
  rewrite size_String. pose proof (size_nonneg s).
  destruct (Ascii.eqb x c); [right; lia|].
  destruct (IH (i + 1)) as [->|?]; [by left|right; lia].
Qed.

Lemma find_bound c s : find s c 0 = npos ∨ (0 <= find s c 0 < size s).
Proof. rewrite find_0. pose proof (find_at_bound c s 0). lia. Qed.

Lemma size_add_small x y : 0 <= x + y < size_max → size_add x y = x + y.
Proof. intros H. unfold size_add. by apply Z.mod_small. Qed.

Lemma size_add_npos : size_add npos 1 = 0.
Proof. reflexivity. Qed.

End Strings.

(** ** Decimal numerals: [atoi] reads what [operator<<] prints *)

Section Numerals.

Implicit Types (s t : string) (c : ascii) (n d : Z).

Lemma digit_char_spec d :
  0 <= d < 10 → is_digit (digit_char d) = true ∧ digit_val (digit_char d) = d.
Proof.
  intros H.
  assert (d = 0 ∨ d = 1 ∨ d = 2 ∨ d = 3 ∨ d = 4 ∨ d = 5 ∨ d = 6 ∨ d = 7 ∨ d = 8 ∨ d = 9)
    as Hd by lia.
  repeat (destruct Hd as [->|Hd]; [by vm_compute|]). subst d. by vm_compute.
Qed.

Lemma is_digit_not_space c : is_digit c = true → is_space c = false.
Proof.
  unfold is_digit, is_space. intros H. apply andb_true_iff in H as [H1 H2].
  apply Z.leb_le in H1. apply Z.leb_le in H2.
  apply orb_false_iff. split; [apply Z.eqb_neq; lia|].
  apply andb_false_iff. right. apply Z.leb_gt. lia.
Qed.

Lemma is_digit_neq c x : is_digit c = true → is_digit x = false → Ascii.eqb c x = false.
Proof.
  intros Hc Hx. destruct (Ascii.eqb c x) eqn:E; [|done].
  apply Ascii.eqb_eq in E. congruence.
Qed.

Lemma all_digits_occurs c s : all_digits s = true → is_digit c = false → occurs c s = false.
Proof.
  intros Hs Hc. induction s as [|x s IH]; simpl in *; [done|].
  apply andb_true_iff in Hs as [Hx Hs]. rewrite IH by done.
  by rewrite (is_digit_neq x c).
Qed.

Lemma dec_digits_acc fuel n acc :
  dec_digits fuel n acc = dec_digits fuel n EmptyString +:+ acc.
Proof.
  revert n acc. induction fuel as [|f IH]; intros n acc; simpl; [done|].
  destruct (n <? 10); [done|].
  rewrite IH. rewrite (IH _ (String _ EmptyString)).
  by rewrite app_assoc_str.
Qed.

Lemma all_digits_app s t : all_digits (s +:+ t) = all_digits s && all_digits t.
Proof. induction s as [|x s IH]; simpl; [done|]. rewrite IH. by rewrite andb_assoc. Qed.

Lemma dec_digits_all_digits fuel n acc :
  0 <= n → all_digits acc = true → all_digits (dec_digits fuel n acc) = true.
Proof.
  revert n acc. induction fuel as [|f IH]; intros n acc Hn Hacc; simpl; [done|].
  assert (is_digit (digit_char (n mod 10)) = true) as Hd
    by (apply digit_char_spec; apply Z.mod_pos_bound; lia).
  destruct (n <? 10).
  - simpl. by rewrite Hd.
  - apply IH; [apply Z.div_pos; lia|]. simpl. by rewrite Hd.
Qed.

(** Reading the digits that were printed in front of [acc] leaves the
    number in the accumulator. *)
Lemma atoi_digits_dec fuel n acc :
  0 <= n < 10 ^ Z.of_nat fuel →
  atoi_digits (dec_digits fuel n acc) 0 = atoi_digits acc n.
Proof.
  revert n acc. induction fuel as [|f IH]; intros n acc Hn.
  - simpl in *. by replace n with 0 by lia.
  - cbn [dec_digits].
    destruct (digit_char_spec (n mod 10)) as [Hd Hv]; [apply Z.mod_pos_bound; lia|].
    destruct (Z.ltb_spec n 10) as [Hlt|Hge].
    + simpl. rewrite Hd, Hv. rewrite Z.mod_small by lia. f_equal.
    + rewrite IH.
      * simpl. rewrite Hd, Hv. f_equal. pose proof (Z.div_mod n 10). lia.
      * rewrite Nat2Z.inj_succ, Z.pow_succ_r in Hn by lia.
        split; [apply Z.div_pos; lia|]. apply Z.div_lt_upper_bound; lia.
Qed.

Lemma show_fuel n : 0 <= n → n < 10 ^ Z.of_nat (S (Z.to_nat (Z.log2 n))).
Proof.
  intros Hn. rewrite Nat2Z.inj_succ, Z2Nat.id by apply Z.log2_nonneg.
  destruct (Z.eq_dec n 0) as [->|Hz]; [by vm_compute|].
  pose proof (Z.log2_spec n ltac:(lia)) as [_ H].
  pose proof (Z.log2_nonneg n).
  assert (2 ^ Z.succ (Z.log2 n) <= 10 ^ Z.succ (Z.log2 n))
    by (apply Z.pow_le_mono_l; lia).
  lia.
Qed.

Lemma show_unsigned_digits n : 0 <= n → all_digits (show_unsigned n) = true.
Proof. intros. by apply dec_digits_all_digits. Qed.

Lemma show_unsigned_cons n :
  0 <= n → ∃ c s, show_unsigned n = String c s ∧ is_digit c = true.
Proof.
  intros Hn. pose proof (show_unsigned_digits n Hn) as H.
  unfold show_unsigned in *. cbn [dec_digits] in *.
  destruct (n <? 10).
  - eexists _, _. split; [done|]. simpl in H. by apply andb_true_iff in H as [? _].
  - rewrite dec_digits_acc in H |- *.
    destruct (dec_digits _ _ EmptyString) as [|c s] eqn:E.
    + simpl in *. eexists _, _. split; [done|]. by apply andb_true_iff in H as [? _].
    + simpl in *. eexists _, _. split; [done|]. by apply andb_true_iff in H as [? _].
Qed.

Lemma atoi_digits_stop s c t acc :
  is_digit c = false → atoi_digits (s +:+ String c t) acc = atoi_digits s acc.
Proof.
  intros Hc. revert acc. induction s as [|x s IH]; intros acc; simpl.
  - by rewrite Hc.
  - destruct (is_digit x); [apply IH|done].
Qed.

Lemma to_int_small n : - 2 ^ 31 <= n < 2 ^ 31 → to_int n = n.
Proof. intros H. unfold to_int. rewrite Z.mod_small; lia. Qed.

(** [atoi] gives back a printed [int] that is followed by the end of the
    string or by anything but a digit. *)
Lemma atoi_show n t :
  0 <= n < 2 ^ 31 →
  (t = EmptyString ∨ ∃ c t', t = String c t' ∧ is_digit c = false) →
  atoi (show_unsigned n +:+ t) = n.
Proof.
  intros Hn Ht. destruct (show_unsigned_cons n) as (c & s & E & Hc); [lia|].
  assert (atoi_digits (show_unsigned n +:+ t) 0 = n) as Hd.
  { unfold show_unsigned. rewrite <- dec_digits_acc.
    rewrite atoi_digits_dec by (split; [lia|apply show_fuel; lia]).
    destruct Ht as [->|(x & t' & -> & Hx)]; simpl; [done|]. by rewrite Hx. }
  unfold atoi. rewrite E in *. cbn [String.append skip_space].
  rewrite (is_digit_not_space c Hc).
  rewrite (is_digit_neq c "-" Hc), (is_digit_neq c "+" Hc) by done.
  cbn [String.append] in Hd. rewrite Hd. apply to_int_small. lia.
Qed.

(** [atoi] does not look past a dot. *)
Lemma atoi_dot s t : atoi (s +:+ String "." t) = atoi s.
Proof.
  assert (is_digit "." = false) as Hdot by done.
  unfold atoi. induction s as [|x s IH]; [done|].
  cbn [String.append skip_space]. destruct (is_space x); [apply IH|].
  pose proof (atoi_digits_stop (String x s) "." t 0 Hdot) as Hx.
  cbn [String.append] in Hx. rewrite Hx.
  by rewrite (atoi_digits_stop s "." t 0 Hdot).
Qed.

Lemma atoi_digits_nonneg s acc : 0 <= acc → 0 <= atoi_digits s acc.
Proof.
  revert acc. induction s as [|x s IH]; intros acc Hacc; simpl; [done|].
  destruct (is_digit x) eqn:E; [|done]. apply IH.
  unfold is_digit in E. apply andb_true_iff in E as [E _]. apply Z.leb_le in E.
  unfold digit_val. lia.
Qed.

Lemma numeral_value_nonneg s : 0 <= numeral_value s.
Proof. by apply atoi_digits_nonneg. Qed.

Lemma numeral_cons s : numeral s → ∃ c s', s = String c s' ∧ is_digit c = true.
Proof.
  intros [Hd Hne]. destruct s as [|c s']; [done|]. exists c, s'. split; [done|].
  simpl in Hd. by apply andb_true_iff in Hd as [? _].
Qed.

(** [atoi] reads a numeral that is followed by the end of the string or
    by anything but a digit, leading zeros or not. *)
Lemma atoi_numeral s t :
  numeral s → numeral_value s < 2 ^ 31 →
  (t = EmptyString ∨ ∃ c t', t = String c t' ∧ is_digit c = false) →
  atoi (s +:+ t) = numeral_value s.
Proof.
  intros Hs Hv Ht. destruct (numeral_cons s Hs) as (c & s' & E & Hc).
  assert (atoi_digits (s +:+ t) 0 = numeral_value s) as Hd.
  { destruct Ht as [->|(x & t' & -> & Hx)].
    - by rewrite app_nil_r_str.
    - by apply atoi_digits_stop. }
  pose proof (numeral_value_nonneg s).
  unfold atoi. rewrite E in Hd |- *. cbn [String.append skip_space] in Hd |- *.
  rewrite (is_digit_not_space c Hc).
  rewrite (is_digit_neq c "-" Hc), (is_digit_neq c "+" Hc) by done.
  rewrite Hd. rewrite E in *. apply to_int_small. lia.
Qed.

(** What [operator<<] prints of a number is a numeral of that value. *)
Lemma show_unsigned_numeral n :
  0 <= n → numeral (show_unsigned n) ∧ numeral_value (show_unsigned n) = n.
Proof.
  intros Hn. split; [split|].
  - by apply show_unsigned_digits.
  - destruct (show_unsigned_cons n Hn) as (c & s & -> & _). done.
  - unfold numeral_value, show_unsigned. rewrite atoi_digits_dec; [done|].
    split; [lia|by apply show_fuel].
Qed.

End Numerals.

(** ** BlockID *)

Section BlockID_props.

Import blocks.

Implicit Types (s t : string) (c : ascii) (n : Z).

Lemma substr_app s t pos count :
  pos = size s →
  substr (s +:+ t) pos count = take_chars (Z.to_nat (Z.min count (size t))) t.
Proof.
  intros ->. unfold substr. rewrite size_app, drop_chars_size by done.
  do 2 f_equal. lia.
Qed.

Lemma substr_0 s count :
  substr s 0 count = take_chars (Z.to_nat (Z.min count (size s))) s.
Proof. apply (substr_app EmptyString s 0 count). done. Qed.

Lemma take_chars_past s c t (k : nat) :
  (String.length s < k)%nat →
  ∃ t', take_chars k (s +:+ String c t) = s +:+ String c t'.
Proof.
  intros Hk. rewrite take_chars_app by lia.
  destruct (k - String.length s)%nat as [|k'] eqn:E; [lia|].
  simpl. by eexists.
Qed.

Lemma dec_digits_size fuel n acc :
  size (dec_digits fuel n acc) <= Z.of_nat fuel + size acc.
Proof.
  revert n acc. induction fuel as [|f IH]; intros n acc; cbn [dec_digits]; [lia|].
  destruct (n <? 10).
  - rewrite size_String. lia.
  - etrans; [apply IH|]. rewrite size_String. lia.
Qed.

Lemma show_unsigned_size n : 0 <= n < 2 ^ 32 → 1 <= size (show_unsigned n) <= 33.
Proof.
  intros Hn. split.
  - destruct (show_unsigned_cons n) as (c & s & -> & _); [lia|].
    rewrite size_String. pose proof (size_nonneg s). lia.
  - unfold show_unsigned. etrans; [apply dec_digits_size|].
    change (size EmptyString) with 0.
    destruct (Z.eq_dec n 0) as [->|Hz]; [by vm_compute|].
    assert (Z.log2 n < 32) by (apply Z.log2_lt_pow2; lia).
    pose proof (Z.log2_nonneg n). lia.
Qed.

Lemma show_int_nonneg n : 0 <= n → show_int n = show_unsigned n.
Proof. intros H. unfold show_int. destruct (Z.ltb_spec n 0); [lia|done]. Qed.

Lemma npos_value : npos = 18446744073709551615.
Proof. reflexivity. Qed.

(** The string constructor on ["<id>-<meta>.<ext>"], numerals of any
    spelling. *)
Lemma BlockID_of_string_numerals I M ext :
  numeral I → numeral M →
  numeral_value I < 2 ^ 31 → numeral_value M < 2 ^ 31 → size I < npos →
  BlockID_of_string (I +:+ String "-" (M +:+ String "." ext))
  = mkBlockID (numeral_value I) (numeral_value M).
Proof.
  intros HnI HnM HvI HvM HsI.
  destruct HnI as [HI HIne]. destruct HnM as [HM HMne].
  pose proof (size_nonneg I) as HI0. pose proof (size_nonneg M) as HM0.
  pose proof npos_value as Hnpos.
  unfold BlockID_of_string.
  assert (find (I +:+ String "-" (M +:+ String "." ext)) "-" 0 = size I) as ->.
  { rewrite find_0, find_at_app; [lia|]. by apply all_digits_occurs. }
  assert (find (I +:+ String "-" (M +:+ String "." ext)) "." 0 = size I + 1 + size M) as ->.
  { change (I +:+ String "-" (M +:+ String "." ext))
      with (I +:+ (String "-" EmptyString +:+ (M +:+ String "." ext))).
    rewrite <- !app_assoc_str.
    rewrite find_0, find_at_app.
    - rewrite !size_app. change (size (String "-" EmptyString)) with 1. lia.
    - rewrite !occurs_app.
      by rewrite (all_digits_occurs "." I), (all_digits_occurs "." M) by done. }
  destruct (Z.eqb_spec (size I) npos) as [E|_]; [lia|]. cbn [negb].
  rewrite size_add_small by (unfold size_max; lia). f_equal.
  - rewrite substr_0, size_app.
    rewrite Z.min_l by (pose proof (size_nonneg (String "-" (M +:+ String "." ext))); lia).
    rewrite take_chars_app by (unfold size; lia).
    unfold size. rewrite Nat2Z.id, Nat.sub_diag. simpl take_chars.
    apply atoi_numeral; [done|done|by left].
  - change (I +:+ String "-" (M +:+ String "." ext))
      with (I +:+ (String "-" EmptyString +:+ (M +:+ String "." ext))).
    rewrite <- app_assoc_str. rewrite substr_app
      by (rewrite size_app; change (size (String "-" EmptyString)) with 1; lia).
    destruct (take_chars_past M "." ext
                (Z.to_nat (Z.min (size I + 1 + size M) (size (M +:+ String "." ext)))))
      as [t' ->].
    { rewrite size_app, size_String. pose proof (size_nonneg ext). unfold size in *. lia. }
    apply atoi_numeral; [done|done|]. right. by eexists _, _.
Qed.

(** The string constructor on ["<id>-<meta>"], the extension cut off. *)
Lemma BlockID_of_string_stem_numerals I M :
  numeral I → numeral M →
  numeral_value I < 2 ^ 31 → numeral_value M < 2 ^ 31 →
  size I < npos → size M < npos →
  BlockID_of_string (I +:+ String "-" M) = mkBlockID (numeral_value I) (numeral_value M).
Proof.
  intros HnI HnM HvI HvM HsI HsM.
  destruct HnI as [HI HIne]. destruct HnM as [HM HMne].
  pose proof (size_nonneg I) as HI0. pose proof (size_nonneg M) as HM0.
  pose proof npos_value as Hnpos.
  unfold BlockID_of_string.
  assert (find (I +:+ String "-" M) "-" 0 = size I) as ->.
  { rewrite find_0, find_at_app; [lia|]. by apply all_digits_occurs. }
  assert (find (I +:+ String "-" M) "." 0 = npos) as ->.
  { rewrite find_0. apply find_at_none. rewrite occurs_app. simpl.
    by rewrite (all_digits_occurs "." I), (all_digits_occurs "." M). }
  destruct (Z.eqb_spec (size I) npos) as [E|_]; [lia|]. cbn [negb].
  rewrite size_add_small by (unfold size_max; lia). f_equal.
  - rewrite substr_0, size_app. rewrite Z.min_l by (pose proof (size_nonneg (String "-" M)); lia).
    rewrite take_chars_app by (unfold size; lia).
    unfold size. rewrite Nat2Z.id, Nat.sub_diag. simpl take_chars.
    apply atoi_numeral; [done|done|by left].
  - change (I +:+ String "-" M) with (I +:+ (String "-" EmptyString +:+ M)).
    rewrite <- app_assoc_str. rewrite substr_app
      by (rewrite size_app; change (size (String "-" EmptyString)) with 1; lia).
    rewrite take_chars_all by (unfold size in *; lia).
    rewrite <- (app_nil_r_str M) at 1. apply atoi_numeral; [done|done|by left].
Qed.

(** The string constructor on a bare ["<id>"]. *)
Lemma BlockID_of_string_bare_numeral I :
  numeral I → numeral_value I < 2 ^ 31 → size I < npos →
  BlockID_of_string I = mkBlockID (numeral_value I) meta_default.
Proof.
  intros [HI HIne] HvI HsI. unfold BlockID_of_string.
  assert (find I "-" 0 = npos) as ->.
  { rewrite find_0. apply find_at_none. by apply all_digits_occurs. }
  rewrite Z.eqb_refl. cbn [negb]. f_equal.
  rewrite substr_0. rewrite take_chars_all.
  - rewrite <- (app_nil_r_str I) at 1. apply atoi_numeral; [done|done|by left].
  - pose proof (size_nonneg I). unfold size in *. lia.
Qed.

(** The same for numerals as [operator<<] prints them. *)
Lemma BlockID_of_string_full n m ext :
  0 <= n < 2 ^ 31 → 0 <= m < 2 ^ 31 →
  BlockID_of_string (show_int n +:+ String "-" (show_int m +:+ String "." ext))
  = mkBlockID n m.
Proof.
  intros Hn Hm. rewrite !show_int_nonneg by lia.
  destruct (show_unsigned_numeral n) as [HnI HvI]; [lia|].
  destruct (show_unsigned_numeral m) as [HnM HvM]; [lia|].
  pose proof (show_unsigned_size n ltac:(lia)). pose proof npos_value.
  rewrite BlockID_of_string_numerals by (done || lia). by rewrite HvI, HvM.
Qed.

Lemma BlockID_of_string_stem n m :
  0 <= n < 2 ^ 31 → 0 <= m < 2 ^ 31 →
  BlockID_of_string (show_int n +:+ String "-" (show_int m)) = mkBlockID n m.
Proof.
  intros Hn Hm. rewrite !show_int_nonneg by lia.
  destruct (show_unsigned_numeral n) as [HnI HvI]; [lia|].
  destruct (show_unsigned_numeral m) as [HnM HvM]; [lia|].
  pose proof (show_unsigned_size n ltac:(lia)).
  pose proof (show_unsigned_size m ltac:(lia)). pose proof npos_value.
  rewrite BlockID_of_string_stem_numerals by (done || lia). by rewrite HvI, HvM.
Qed.

(** The string form has a dash in it. *)
Lemma BlockID_to_string_dash x : occurs "-" (BlockID_to_string x) = true.
Proof.
  unfold BlockID_to_string. rewrite occurs_app. simpl. by rewrite orb_true_r.
Qed.

End BlockID_props.

(** C8. For every string ["<id>-<meta>.<ext>"] whose [id] and [meta] are
    decimal numerals (of numbers an [int] holds), building a [BlockID]
    from the string and converting it back to a string gives
    ["<id>-<meta>"], the two numbers in decimal and nothing of the
    extension: the very text in front of the dot when the numerals are
    spelt as [operator<<] prints them.  The string form always carries the
    meta part, [0] included, also when the string had none. *)
Theorem BlockID_roundtrip (I M ext : string) :
  numeral I → numeral M →
  numeral_value I < 2 ^ 31 → numeral_value M < 2 ^ 31 → size I < npos →
  blocks.BlockID_to_string
    (blocks.BlockID_of_string (I +:+ String "-" (M +:+ String "." ext)))
  = show_int (numeral_value I) +:+ String "-" (show_int (numeral_value M))
  ∧ (∀ n m, 0 <= n < 2 ^ 31 → 0 <= m < 2 ^ 31 →
       blocks.BlockID_to_string
         (blocks.BlockID_of_string
            (show_int n +:+ String "-" (show_int m +:+ String "." ext)))
       = show_int n +:+ String "-" (show_int m))
  ∧ blocks.BlockID_to_string (blocks.BlockID_of_string I)
    = show_int (numeral_value I) +:+ "-0"
  ∧ (∀ n, blocks.BlockID_to_string (blocks.mkBlockID n 0) = show_int n +:+ "-0")
  ∧ (∀ x, occurs "-" (blocks.BlockID_to_string x) = true).
Proof.
  intros HnI HnM HvI HvM HsI. split; [|split; [|split; [|split]]].
  - by rewrite BlockID_of_string_numerals.
  - intros n m Hn Hm. by rewrite BlockID_of_string_full.
  - by rewrite BlockID_of_string_bare_numeral.
  - reflexivity.
  - apply BlockID_to_string_dash.
Qed.

Lemma BlockID_roundtrip_witness :
  blocks.BlockID_to_string (blocks.BlockID_of_string "405-3.png") = "405-3".
Proof.
  refine (proj1 (BlockID_roundtrip "405" "3" "png" _ _ _ _ _)).
  - by split.
  - by split.
  - by vm_compute.
  - by vm_compute.
  - by vm_compute.
Defined.

(** ** RegionFileWorld::parseFilename *)

Section parseFilename_props.

Import RegionFileWorld.

Implicit Types (s t : string) (c : ascii).

Lemma app_cons_assoc s c t : s +:+ String c t = (s +:+ String c EmptyString) +:+ t.
Proof. by rewrite app_assoc_str. Qed.

Lemma size_snoc s c : size (s +:+ String c EmptyString) = size s + 1.
Proof. rewrite size_app. reflexivity. Qed.

Lemma find_segment c p x r pos :
  pos = size p → occurs c x = false →
  find (p +:+ (x +:+ String c r)) c pos = pos + size x.
Proof. intros Hp Hx. rewrite find_after by done. by apply find_at_app. Qed.

Lemma find_no_more c p r pos :
  pos = size p → occurs c r = false → find (p +:+ r) c pos = npos.
Proof. intros Hp Hr. rewrite find_after by done. by apply find_at_none. Qed.

Lemma atoi_substr_segment p x r pos count :
  pos = size p → size x < count →
  atoi (substr (p +:+ (x +:+ String "." r)) pos count) = atoi x.
Proof.
  intros Hp Hc. rewrite substr_app by done.
  destruct (take_chars_past x "." r (Z.to_nat (Z.min count (size (x +:+ String "." r)))))
    as [t' ->]; [|apply atoi_dot].
  rewrite size_app, size_String. pose proof (size_nonneg r). unfold size in *. lia.
Qed.

(** A name with three dots parses, whatever stands before the first dot
    and after the third. *)
Lemma parseFilename_three_dots a x z rest :
  size (a +:+ String "." (x +:+ String "." (z +:+ String "." rest))) < npos →
  occurs "." a = false → occurs "." x = false → occurs "." z = false →
  parseFilename (a +:+ String "." (x +:+ String "." (z +:+ String "." rest)))
  = (true, (atoi x, atoi z)).
Proof.
  intros Hsz Ha Hx Hz.
  set (f := a +:+ String "." (x +:+ String "." (z +:+ String "." rest))) in *.
  assert (f = (a +:+ String "." EmptyString) +:+ (x +:+ String "." (z +:+ String "." rest)))
    as E1 by (unfold f; by rewrite <- app_cons_assoc).
  assert (f = ((a +:+ String "." EmptyString) +:+ (x +:+ String "." EmptyString))
              +:+ (z +:+ String "." rest)) as E2.
  { rewrite E1. by rewrite (app_cons_assoc x), <- app_assoc_str. }
  assert (size f = size a + 1 + (size x + 1 + (size z + 1 + size rest))) as Hf.
  { unfold f. rewrite !size_app, !size_String, !size_app, !size_String, size_app, size_String. lia. }
  pose proof (size_nonneg a). pose proof (size_nonneg x).
  pose proof (size_nonneg z). pose proof (size_nonneg rest).
  pose proof npos_value as Hnpos.
  assert (find f "." 0 = size a) as Hd0.
  { unfold f. rewrite find_0, find_at_app by done. lia. }
  assert (find f "." (size a + 1) = size a + 1 + size x) as Hd1.
  { rewrite E1. apply find_segment; [by rewrite size_snoc|done]. }
  assert (find f "." (size a + 1 + size x + 1) = size a + 1 + size x + 1 + size z) as Hd2.
  { rewrite E2. apply find_segment; [by rewrite size_app, !size_snoc; lia|done]. }
  unfold parseFilename. rewrite Hd0.
  rewrite (size_add_small (size a) 1) by (unfold size_max; lia). rewrite Hd1.
  rewrite (size_add_small (size a + 1 + size x) 1) by (unfold size_max; lia). rewrite Hd2.
  destruct (Z.eqb_spec (size a) npos); [lia|].
  destruct (Z.eqb_spec (size a + 1 + size x) npos); [lia|].
  destruct (Z.eqb_spec (size a + 1 + size x + 1 + size z) npos); [lia|].
  cbn [negb andb]. do 2 f_equal.
  - rewrite E1. apply atoi_substr_segment; [by rewrite size_snoc|lia].
  - rewrite E2. apply atoi_substr_segment; [by rewrite size_app, !size_snoc; lia|lia].
Qed.

(** A name that parses has three dots. *)
Lemma parseFilename_valid_dots f :
  size f < npos → (parseFilename f).1 = true →
  ∃ a x z rest,
    f = a +:+ String "." (x +:+ String "." (z +:+ String "." rest))
    ∧ occurs "." a = false ∧ occurs "." x = false ∧ occurs "." z = false.
Proof.
  intros Hsz Hv. pose proof npos_value as Hnpos.
  destruct (first_occurrence "." f) as [Hn|(a & r1 & -> & Ha)].
  { unfold parseFilename in Hv. rewrite find_0, (find_at_none _ _ _ Hn) in Hv.
    by rewrite Z.eqb_refl in Hv. }
  pose proof (size_nonneg a). pose proof (size_nonneg r1).
  rewrite size_app, size_String in Hsz.
  assert (find (a +:+ String "." r1) "." 0 = size a) as Hd0
    by (rewrite find_0, find_at_app by done; lia).
  destruct (first_occurrence "." r1) as [Hn|(x & r2 & -> & Hx)].
  { unfold parseFilename in Hv. rewrite Hd0 in Hv.
    rewrite (size_add_small (size a) 1) in Hv by (unfold size_max; lia).
    rewrite (app_cons_assoc a) in Hv.
    rewrite (find_no_more "." _ r1) in Hv by (by rewrite ?size_snoc).
    rewrite Z.eqb_refl in Hv. cbn [negb] in Hv. by rewrite andb_false_r in Hv. }
  pose proof (size_nonneg x). pose proof (size_nonneg r2).
  rewrite size_app, size_String in Hsz.
  assert (find (a +:+ String "." (x +:+ String "." r2)) "." (size a + 1)
          = size a + 1 + size x) as Hd1.
  { rewrite (app_cons_assoc a). apply find_segment; [by rewrite size_snoc|done]. }
  destruct (first_occurrence "." r2) as [Hn|(z & rest & -> & Hz)].
  { unfold parseFilename in Hv. rewrite Hd0 in Hv.
    rewrite (size_add_small (size a) 1) in Hv by (unfold size_max; lia).
    rewrite Hd1 in Hv.
    rewrite (size_add_small (size a + 1 + size x) 1) in Hv by (unfold size_max; lia).
    rewrite (app_cons_assoc a), (app_cons_assoc x), <- app_assoc_str in Hv.
    rewrite (find_no_more "." _ r2) in Hv
      by first [done | rewrite size_app, !size_snoc; lia].
    rewrite Z.eqb_refl in Hv. cbn [negb] in Hv. by rewrite andb_false_r in Hv. }
  by exists a, x, z, rest.
Qed.

End parseFilename_props.

(** C7. [parseFilename] succeeds exactly when the name has three dots;
    the x coordinate is read from what stands between the first and the
    second dot, the z coordinate from what stands between the second and
    the third; what precedes the first dot and what follows the third are
    not looked at.  ["r.3.-2.mca"] gives [(3,-2)], ["garbage"] is invalid. *)
Theorem parseFilename_spec (filename : string) :
  size filename < npos →
  ((RegionFileWorld.parseFilename filename).1 = true ↔
     ∃ a x z rest,
       filename = a +:+ String "." (x +:+ String "." (z +:+ String "." rest))
       ∧ occurs "." a = false ∧ occurs "." x = false ∧ occurs "." z = false)
  ∧ (∀ a x z rest,
       filename = a +:+ String "." (x +:+ String "." (z +:+ String "." rest)) →
       occurs "." a = false → occurs "." x = false → occurs "." z = false →
       RegionFileWorld.parseFilename filename = (true, (atoi x, atoi z)))
  ∧ RegionFileWorld.parseFilename "r.3.-2.mca" = (true, (3, -2))
  ∧ RegionFileWorld.parseFilename "garbage" = (false, (0, 0)).
Proof.
  intros Hsz. split; [split|split; [|split]].
  - by apply parseFilename_valid_dots.
  - intros (a & x & z & rest & -> & Ha & Hx & Hz).
    by rewrite parseFilename_three_dots.
  - intros a x z rest -> Ha Hx Hz. by apply parseFilename_three_dots.
  - by vm_compute.
  - by vm_compute.
Qed.

Lemma parseFilename_spec_witness :
  size "x.12.-7.dat" < npos
  ∧ RegionFileWorld.parseFilename "x.12.-7.dat" = (true, (12, -7)).
Proof.
  assert (size "x.12.-7.dat" < npos) as H by (by vm_compute).
  split; [exact H|].
  exact (proj1 (proj2 (parseFilename_spec "x.12.-7.dat" H))
               "x" "12" "-7" "dat" eq_refl eq_refl eq_refl eq_refl).
Defined.

(** ** RegionFileWorld::getSize *)

Section getSize_props.

Import RegionFileWorld.

Implicit Types (regions : RegionMap) (l : list (RegionCoord * RegionFile)).

Lemma elem_of_regionMap regions c f :
  (c, f) ∈ regionMap regions ↔ regions !! c = Some f.
Proof.
  unfold regionMap. rewrite merge_sort_Permutation. apply elem_of_map_to_list.
Qed.

(** The running minimum: below its start, below every element, and one of them. *)
Lemma foldl_min_spec (xs : list Z) (m0 : Z) :
  let m := foldl Z.min m0 xs in
  m <= m0 ∧ (∀ x, x ∈ xs → m <= x) ∧ (m = m0 ∨ m ∈ xs).
Proof.
  revert m0. induction xs as [|x xs IH]; intros m0; simpl.
  - split; [lia|]. split; [|by left]. intros x Hx. by apply elem_of_nil in Hx.
  - destruct (IH (Z.min m0 x)) as (H1 & H2 & H3). split; [lia|]. split.
    + intros y Hy. apply elem_of_cons in Hy as [->|Hy]; [lia|by apply H2].
    + destruct H3 as [H3|H3]; [|right; by apply elem_of_cons; right].
      destruct (Z.min_spec m0 x) as [[_ E]|[_ E]]; rewrite E in H3 |- *.
      * by left.
      * right. apply elem_of_cons. by left.
Qed.

Lemma foldl_max_spec (xs : list Z) (m0 : Z) :
  let m := foldl Z.max m0 xs in
  m0 <= m ∧ (∀ x, x ∈ xs → x <= m) ∧ (m = m0 ∨ m ∈ xs).
Proof.
  revert m0. induction xs as [|x xs IH]; intros m0; simpl.
  - split; [lia|]. split; [|by left]. intros x Hx. by apply elem_of_nil in Hx.
  - destruct (IH (Z.max m0 x)) as (H1 & H2 & H3). split; [lia|]. split.
    + intros y Hy. apply elem_of_cons in Hy as [->|Hy]; [lia|by apply H2].
    + destruct H3 as [H3|H3]; [|right; by apply elem_of_cons; right].
      destruct (Z.max_spec m0 x) as [[_ E]|[_ E]]; rewrite E in H3 |- *.
      * right. apply elem_of_cons. by left.
      * by left.
Qed.

(** The loop of [getSize] keeps four independent running bounds. *)
Lemma foldl_bounds_step l minx minz maxx maxz :
  foldl bounds_step (minx, minz, maxx, maxz) l
  = (foldl Z.min minx ((λ p, p.1.1) <$> l), foldl Z.min minz ((λ p, p.1.2) <$> l),
     foldl Z.max maxx ((λ p, p.1.1) <$> l), foldl Z.max maxz ((λ p, p.1.2) <$> l)).
Proof.
  revert minx minz maxx maxz. induction l as [|p l IH]; intros; simpl; [done|].
  by rewrite IH.
Qed.

Lemma to_int_512 : to_int (32 * 16) = 512.
Proof. reflexivity. Qed.

End getSize_props.

(** C6, as the code has it.  [getSize] scans the coordinates of all
    loaded regions for [minx], [minz], [maxx], [maxz], each bound
    starting at [0], so that they are the smallest and the largest of
    [0] and the coordinates, and
    returns [(32*16*(maxx+minx), 32*16*(maxz+minz))]: the sum of the
    bounds, not their distance.  Regions at [(0,0)] and [(2,3)] give
    [(1024, 1536)]; regions at [(-1,0)] and [(1,0)] give the width
    [32*16*(1-1) = 0].  Coordinates are taken so small that the [int]
    arithmetic does not overflow. *)
Theorem getSize_spec (regions : gmap (Z * Z) RegionFileWorld.RegionFile) :
  (∀ c, is_Some (regions !! c) → - 2 ^ 20 <= c.1 <= 2 ^ 20 ∧ - 2 ^ 20 <= c.2 <= 2 ^ 20) →
  (∃ minx minz maxx maxz,
      RegionFileWorld.getSize regions = (32 * 16 * (maxx + minx), 32 * 16 * (maxz + minz))
      ∧ (∀ c, is_Some (regions !! c) → minx <= c.1 <= maxx ∧ minz <= c.2 <= maxz)
      ∧ (minx = 0 ∨ ∃ c, is_Some (regions !! c) ∧ c.1 = minx)
      ∧ (minz = 0 ∨ ∃ c, is_Some (regions !! c) ∧ c.2 = minz)
      ∧ (maxx = 0 ∨ ∃ c, is_Some (regions !! c) ∧ c.1 = maxx)
      ∧ (maxz = 0 ∨ ∃ c, is_Some (regions !! c) ∧ c.2 = maxz)
      ∧ minx <= 0 <= maxx ∧ minz <= 0 <= maxz)
  ∧ RegionFileWorld.getSize
      (<[(0, 0) := RegionFileWorld.mkRegionFile "r.0.0.mca"]>
         (<[(2, 3) := RegionFileWorld.mkRegionFile "r.2.3.mca"]> ∅)) = (1024, 1536)
  ∧ (RegionFileWorld.getSize
       (<[(-1, 0) := RegionFileWorld.mkRegionFile "r.-1.0.mca"]>
          (<[(1, 0) := RegionFileWorld.mkRegionFile "r.1.0.mca"]> ∅))).1 = 0.
Proof.
  intros Hrange. split; [|split; by vm_compute].
  unfold RegionFileWorld.getSize. rewrite foldl_bounds_step.
  set (l := RegionFileWorld.regionMap regions).
  assert (∀ p, p ∈ l → is_Some (regions !! p.1)) as Hin.
  { intros [c f] Hp. apply elem_of_regionMap in Hp. by exists f. }
  assert (∀ c, is_Some (regions !! c) → ∃ p, p ∈ l ∧ p.1 = c) as Hout.
  { intros c [f Hf]. exists (c, f). split; [by apply elem_of_regionMap|done]. }
  pose proof (foldl_min_spec ((λ p, p.1.1) <$> l) 0) as (Hx1 & Hx2 & Hx3).
  pose proof (foldl_min_spec ((λ p, p.1.2) <$> l) 0) as (Hz1 & Hz2 & Hz3).
  pose proof (foldl_max_spec ((λ p, p.1.1) <$> l) 0) as (HX1 & HX2 & HX3).
  pose proof (foldl_max_spec ((λ p, p.1.2) <$> l) 0) as (HZ1 & HZ2 & HZ3).
  set (minx := foldl Z.min 0 ((λ p, p.1.1) <$> l)) in *.
  set (minz := foldl Z.min 0 ((λ p, p.1.2) <$> l)) in *.
  set (maxx := foldl Z.max 0 ((λ p, p.1.1) <$> l)) in *.
  set (maxz := foldl Z.max 0 ((λ p, p.1.2) <$> l)) in *.
  assert (∀ (sel : (Z * Z) * RegionFileWorld.RegionFile → Z) m,
            (m = 0 ∨ m ∈ sel <$> l) →
            m = 0 ∨ ∃ p, p ∈ l ∧ sel p = m) as Hsel.
  { intros sel m [?|Hm]; [by left|right].
    apply list_elem_of_fmap in Hm as (p & -> & Hp). by exists p. }
  assert (∀ (sel : (Z * Z) * RegionFileWorld.RegionFile → Z) p, p ∈ l → sel p ∈ sel <$> l)
    as Hmap by (intros sel p Hp; apply list_elem_of_fmap; by exists p).
  assert (∀ c, is_Some (regions !! c) → minx <= c.1 <= maxx ∧ minz <= c.2 <= maxz) as Hb.
  { intros c Hc. destruct (Hout c Hc) as (p & Hp & <-).
    pose proof (Hx2 _ (Hmap (λ p, p.1.1) p Hp)). pose proof (Hz2 _ (Hmap (λ p, p.1.2) p Hp)).
    pose proof (HX2 _ (Hmap (λ p, p.1.1) p Hp)). pose proof (HZ2 _ (Hmap (λ p, p.1.2) p Hp)).
    simpl in *. lia. }
  assert (- 2 ^ 20 <= minx <= 2 ^ 20) as Rminx.
  { destruct (Hsel _ _ Hx3) as [->|(p & Hp & <-)]; [lia|]. apply (Hrange p.1), Hin, Hp. }
  assert (- 2 ^ 20 <= minz <= 2 ^ 20) as Rminz.
  { destruct (Hsel _ _ Hz3) as [->|(p & Hp & <-)]; [lia|]. apply (Hrange p.1), Hin, Hp. }
  assert (- 2 ^ 20 <= maxx <= 2 ^ 20) as Rmaxx.
  { destruct (Hsel _ _ HX3) as [->|(p & Hp & <-)]; [lia|]. apply (Hrange p.1), Hin, Hp. }
  assert (- 2 ^ 20 <= maxz <= 2 ^ 20) as Rmaxz.
  { destruct (Hsel _ _ HZ3) as [->|(p & Hp & <-)]; [lia|]. apply (Hrange p.1), Hin, Hp. }
  exists minx, minz, maxx, maxz. split.
  { rewrite to_int_512. rewrite (to_int_small (maxx + minx)) by lia.
    rewrite (to_int_small (maxz + minz)) by lia.
    rewrite !to_int_small by lia. f_equal; lia. }
  split; [exact Hb|].
  assert (∀ (sel : (Z * Z) * RegionFileWorld.RegionFile → Z) (proj : Z * Z → Z) m,
            (∀ p, sel p = proj p.1) → (m = 0 ∨ m ∈ sel <$> l) →
            m = 0 ∨ ∃ c, is_Some (regions !! c) ∧ proj c = m) as Hdom.
  { intros sel proj m Hproj Hm. destruct (Hsel sel m Hm) as [?|(p & Hp & <-)]; [by left|right].
    exists p.1. split; [by apply Hin|by rewrite Hproj]. }
  split; [by apply (Hdom (λ p, p.1.1) fst)|].
  split; [by apply (Hdom (λ p, p.1.2) snd)|].
  split; [by apply (Hdom (λ p, p.1.1) fst)|].
  split; [by apply (Hdom (λ p, p.1.2) snd)|].
  lia.
Qed.

Lemma getSize_spec_witness :
  ∃ minx minz maxx maxz,
    RegionFileWorld.getSize (<[(5, -4) := RegionFileWorld.mkRegionFile "r.5.-4.mca"]> ∅)
    = (32 * 16 * (maxx + minx), 32 * 16 * (maxz + minz))
    ∧ minx <= 0 <= maxx ∧ minz <= 0 <= maxz.
Proof.
  assert (∀ c : Z * Z,
            is_Some ((<[(5, -4) := RegionFileWorld.mkRegionFile "r.5.-4.mca"]> ∅
                       : gmap (Z * Z) RegionFileWorld.RegionFile) !! c) →
            - 2 ^ 20 <= c.1 <= 2 ^ 20 ∧ - 2 ^ 20 <= c.2 <= 2 ^ 20) as Hr.
  { intros c [f Hc]. apply lookup_insert_Some in Hc as [[<- _]|[_ Hc]]; [simpl; lia|].
    by rewrite lookup_empty in Hc. }
  destruct (proj1 (getSize_spec _ Hr)) as (minx & minz & maxx & maxz & E & _ & _ & _ & _ & _ & B).
  exists minx, minz, maxx, maxz. split; [exact E|exact B].
Defined.

(** C6, with the bounds taken over the loaded coordinates alone, fails
    wherever [0] is not between them: for the one region [(2,3)] the
    smallest [x] is [2], not [0], and the size would be
    [(32*16*(2+2), 32*16*(3+3))]; the code returns [(1024, 1536)].  For
    regions at [(-3,-1)] and [(-2,-5)] the largest coordinates are
    negative and the code takes [0] for them. *)
Lemma getSize_spec_counterexample :
  RegionFileWorld.getSize (<[(2, 3) := RegionFileWorld.mkRegionFile "r.2.3.mca"]> ∅)
  = (1024, 1536)
  ∧ getSize_as_specified (<[(2, 3) := RegionFileWorld.mkRegionFile "r.2.3.mca"]> ∅)
    = (2048, 3072)
  ∧ RegionFileWorld.getSize
      (<[(-3, -1) := RegionFileWorld.mkRegionFile "r.-3.-1.mca"]>
         (<[(-2, -5) := RegionFileWorld.mkRegionFile "r.-2.-5.mca"]> ∅))
    = (-1536, -2560)
  ∧ getSize_as_specified
      (<[(-3, -1) := RegionFileWorld.mkRegionFile "r.-3.-1.mca"]>
         (<[(-2, -5) := RegionFileWorld.mkRegionFile "r.-2.-5.mca"]> ∅))
    = (-2560, -3072)
  ∧ RegionFileWorld.getSize (<[(2, 3) := RegionFileWorld.mkRegionFile "r.2.3.mca"]> ∅)
    ≠ getSize_as_specified (<[(2, 3) := RegionFileWorld.mkRegionFile "r.2.3.mca"]> ∅).
Proof. repeat split; by vm_compute. Qed.

(** ** Names of the form ["<id>-<meta>.<ext>"] *)

Section canonical_names.

Import blocks ZipLib.

(** The key [load] looks up is the string form of the [BlockID] when the
    name of the entry is ["<id>-<meta>.<ext>"]. *)
Lemma cache_key_canonical n m ext crc img :
  0 <= n < 2 ^ 31 → 0 <= m < 2 ^ 31 →
  let e := mkEntry (show_int n +:+ String "-" (show_int m +:+ String "." ext)) crc img in
  BlockColors.cache_key e = show_int n +:+ String "-" (show_int m)
  ∧ entry_id e = mkBlockID n m
  ∧ BlockColors.cache_key e = BlockID_to_string (entry_id e).
Proof.
  intros Hn Hm e.
  assert (BlockColors.cache_key e = show_int n +:+ String "-" (show_int m)) as Hkey.
  { unfold BlockColors.cache_key, e. cbn [GetName].
    rewrite !show_int_nonneg by lia.
    set (I := show_unsigned n). set (M := show_unsigned m).
    assert (all_digits I = true) as HI by (apply show_unsigned_digits; lia).
    assert (all_digits M = true) as HM by (apply show_unsigned_digits; lia).
    rewrite (app_cons_assoc I), <- app_assoc_str.
    rewrite find_0, find_at_app.
    - rewrite substr_0, Z.add_0_l.
      rewrite (size_app _ (String "." ext)),
        Z.min_l by (pose proof (size_nonneg (String "." ext)); lia).
      rewrite take_chars_app by (unfold size; lia).
      unfold size. rewrite Nat2Z.id, Nat.sub_diag. simpl take_chars.
      by rewrite app_nil_r_str, <- app_cons_assoc.
    - rewrite !occurs_app.
      by rewrite (all_digits_occurs "." I), (all_digits_occurs "." M) by done. }
  assert (entry_id e = mkBlockID n m) as Hid.
  { unfold entry_id. rewrite Hkey. by apply BlockID_of_string_stem. }
  split; [done|]. split; [done|]. by rewrite Hid, Hkey.
Qed.

End canonical_names.

(** ** BlockColors::load *)

Section load_props.

Import SDL json11 ZipLib BlockColors.

Variable computeColor : ZipArchiveEntry → option SDL_Color.
Variable cacheJson : Json.

Implicit Types (entry e : ZipArchiveEntry) (st : LoadState)
  (entries : list ZipArchiveEntry) (m : gmap BlockID (SDL_Color * Z)).

(** [operator<] makes two keys equivalent only when they are equal, so
    the nodes of the map are keyed by the [BlockID] itself. *)
Lemma BlockID_lt_equiv (x y : BlockID) :
  BlockID_lt x y = false ∧ BlockID_lt y x = false ↔ x = y.
Proof.
  destruct x as [i1 m1], y as [i2 m2]. unfold BlockID_lt. simpl. split.
  - intros [H1 H2].
    destruct (Z.ltb_spec i1 i2); [done|]. destruct (Z.ltb_spec i2 i1); [done|].
    destruct (Z.eqb_spec i1 i2); [|lia]. destruct (Z.eqb_spec i2 i1); [|lia].
    apply Z.ltb_ge in H1, H2. f_equal; lia.
  - intros [= -> ->]. rewrite !Z.ltb_irrefl, !Z.eqb_refl. done.
Qed.

Lemma cache_holds_hit e : cache_holds cacheJson e ↔ cache_hit cacheJson e = true.
Proof.
  unfold cache_holds, cache_hit. split.
  - intros (members & -> & Hcrc). simpl is_object. cbn [andb]. by apply Z.eqb_eq.
  - intros H. apply andb_true_iff in H as [Hobj Hcrc]. apply Z.eqb_eq in Hcrc.
    destruct (index cacheJson (cache_key e)) as [| | | | |members] eqn:E; try done.
    by exists members.
Qed.

Lemma cache_holds_miss e : ¬ cache_holds cacheJson e ↔ cache_hit cacheJson e = false.
Proof. rewrite cache_holds_hit. by destruct (cache_hit cacheJson e). Qed.

(** One turn of the loop, by its outcome. *)
Lemma load_entry_outcome st e :
  load_entry computeColor cacheJson st e
  = o ← entry_outcome computeColor cacheJson e;
    Some (mkLoadState (assign_node (blockColors st) (entry_node e o))
                      (hadToRecompute st || negb (cache_hit cacheJson e))
                      (sources st ++ [o])).
Proof.
  unfold load_entry, entry_outcome, cache_hit, cache_key.
  destruct (is_object _ && _); simpl.
  - by rewrite orb_false_r.
  - destruct (computeColor e); simpl; [|done]. by rewrite orb_true_r.
Qed.

(** The whole loop: the outcomes are logged in order, the flag is raised
    by any miss, and the map takes the nodes in order. *)
Lemma load_entries_outcomes entries st :
  (∀ e, e ∈ entries → cache_hit cacheJson e = false → is_Some (computeColor e)) →
  ∃ outs,
    Forall2 (λ e o, entry_outcome computeColor cacheJson e = Some o) entries outs
    ∧ load_entries computeColor cacheJson st entries
      = Some (mkLoadState
                (foldl assign_node (blockColors st) (zip_with entry_node entries outs))
                (hadToRecompute st || existsb (λ e, negb (cache_hit cacheJson e)) entries)
                (sources st ++ outs)).
Proof.
  revert st. induction entries as [|e entries IH]; intros st Hc.
  - exists []. split; [constructor|]. simpl. rewrite orb_false_r, app_nil_r. by destruct st.
  - assert (∃ o, entry_outcome computeColor cacheJson e = Some o) as [o Ho].
    { unfold entry_outcome. destruct (cache_hit cacheJson e) eqn:E; [by eexists|].
      destruct (Hc e) as [c ->]; [by left|done|]. by eexists. }
    cbn [load_entries]. rewrite load_entry_outcome, Ho. simpl.
    destruct (IH (mkLoadState (assign_node (blockColors st) (entry_node e o))
                              (hadToRecompute st || negb (cache_hit cacheJson e))
                              (sources st ++ [o]))) as (outs & Hall & ->).
    { intros e' He'. apply Hc. by right. }
    exists (o :: outs). split; [by constructor|]. simpl.
    by rewrite <- app_assoc, orb_assoc.
Qed.

(** Assigning nodes one after the other: a key is bound to the value of
    its last node, or left alone when no node carries it. *)
Lemma foldl_assign_lookup (nodes : list (BlockID * (SDL_Color * Z))) m b :
  ((∀ j p, nodes !! j = Some p → p.1 ≠ b) ∧ foldl assign_node m nodes !! b = m !! b)
  ∨ ∃ j p, nodes !! j = Some p ∧ p.1 = b
           ∧ (∀ k q, (j < k)%nat → nodes !! k = Some q → q.1 ≠ b)
           ∧ foldl assign_node m nodes !! b = Some p.2.
Proof.
  revert m. induction nodes as [|p0 nodes IH]; intros m.
  - left. split; [|done]. intros j p Hj. by rewrite lookup_nil in Hj.
  - simpl. destruct (IH (assign_node m p0)) as [[Hno Hl]|(j & p & Hj & Hp & Hlast & Hl)].
    + destruct (decide (p0.1 = b)) as [E|NE].
      * right. exists 0%nat, p0. split; [done|]. split; [done|]. split.
        -- intros [|k] q Hk Hq; [lia|]. by apply (Hno k).
        -- rewrite Hl. unfold assign_node. rewrite E. apply lookup_insert_eq.
      * left. split.
        -- intros [|j] p Hj; simpl in Hj; [by injection Hj as <-|by apply (Hno j)].
        -- rewrite Hl. unfold assign_node. by apply lookup_insert_ne.
    + right. exists (S j), p. split; [done|]. split; [done|]. split; [|done].
      intros [|k] q Hk Hq; [lia|]. apply (Hlast k); [lia|done].
Qed.

Lemma filter_key_none (l : list (BlockID * (SDL_Color * Z))) b :
  b ∉ l.*1 → filter (λ it, it.1 = b) l = [].
Proof.
  induction l as [|p l IH]; intros Hb; [done|].
  rewrite fmap_cons, not_elem_of_cons in Hb. destruct Hb as [Hp Hb].
  rewrite filter_cons_False by (intros ?; by apply Hp). by apply IH.
Qed.

Lemma filter_key_one (l : list (BlockID * (SDL_Color * Z))) b :
  NoDup l.*1 → b ∈ l.*1 → length (filter (λ it, it.1 = b) l) = 1%nat.
Proof.
  induction l as [|p l IH]; intros Hnd Hb.
  - by apply elem_of_nil in Hb.
  - rewrite fmap_cons in Hnd, Hb. apply NoDup_cons in Hnd as [Hp Hnd].
    destruct (decide (p.1 = b)) as [E|NE].
    + rewrite filter_cons_True by done. rewrite filter_key_none; [done|by rewrite <- E].
    + rewrite filter_cons_False by done. apply IH; [done|].
      apply elem_of_cons in Hb as [Hb|Hb]; [congruence|done].
Qed.

(** A bound key has exactly one node. *)
Lemma bound_one_node m b : is_Some (m !! b) → one_node m b.
Proof.
  intros [v Hv]. unfold one_node, iterate. apply filter_key_one.
  - rewrite merge_sort_Permutation. apply NoDup_fst_map_to_list.
  - apply list_elem_of_fmap. exists (b, v). split; [done|].
    rewrite merge_sort_Permutation. by apply elem_of_map_to_list.
Qed.

(** Every key of a cache that [saveNewJsonCache] wrote has a dash in it,
    so an entry whose name up to the dot has none is never found there. *)
Lemma bare_name_never_cached m e :
  occurs "-" (cache_key e) = false → cache_hit (cache_json m) e = false.
Proof.
  intros Hbare. unfold cache_hit, cache_json. cbn [index].
  rewrite not_elem_of_list_to_map_1; [done|].
  intros Hin. apply list_elem_of_fmap in Hin as ([k v] & Hk & Hin).
  apply list_elem_of_fmap in Hin as (it & Hit & _).
  unfold cache_member in Hit. injection Hit as -> _. simpl in Hk.
  rewrite Hk, BlockID_to_string_dash in Hbare. done.
Qed.

End load_props.

(** The loop of [load], by the key it looks up.  The colour of an archive
    entry is taken from the cache exactly when the cache holds an object
    under the name of the entry up to its first dot whose stored checksum
    is the entry's CRC32; in every other case [computeColor] is run for
    the entry, [hadToRecompute] is set, and the cache file is written
    once the loop is over.  For a name ["<id>-<meta>.<ext>"] that key is
    the string form of the entry's [BlockID]; for other names it is not.
    ([computeColor] is taken to yield a colour wherever it is run.) *)
Theorem load_cache_policy
    (computeColor : ZipLib.ZipArchiveEntry → option SDL.SDL_Color)
    (entries : list ZipLib.ZipArchiveEntry) (cacheJson : json11.Json)
    (members : gmap blocks.BlockID (SDL.SDL_Color * Z)) :
  (∀ e, e ∈ entries → ¬ cache_holds cacheJson e → is_Some (computeColor e)) →
  ∃ out,
    BlockColors.load computeColor (Some entries) cacheJson members = Some out
    ∧ (∀ i e, entries !! i = Some e →
         ((∃ c, BlockColors.sources (BlockColors.state out) !! i
                = Some (BlockColors.FromCache, c))
          ↔ cache_holds cacheJson e)
         ∧ (cache_holds cacheJson e →
            BlockColors.sources (BlockColors.state out) !! i
            = Some (BlockColors.FromCache, cached_color cacheJson e))
         ∧ (¬ cache_holds cacheJson e →
            ∃ c, computeColor e = Some c
                 ∧ BlockColors.sources (BlockColors.state out) !! i
                   = Some (BlockColors.Computed, c)
                 ∧ BlockColors.hadToRecompute (BlockColors.state out) = true
                 ∧ BlockColors.written out
                   = Some (BlockColors.saveNewJsonCache
                             (BlockColors.blockColors (BlockColors.state out)))))
    ∧ ((∀ e, e ∈ entries → cache_holds cacheJson e) →
       BlockColors.hadToRecompute (BlockColors.state out) = false
       ∧ BlockColors.written out = None)
    ∧ (∀ n m ext crc img,
         0 <= n < 2 ^ 31 → 0 <= m < 2 ^ 31 →
         let e := ZipLib.mkEntry
                    (show_int n +:+ String "-" (show_int m +:+ String "." ext)) crc img in
         BlockColors.cache_key e = blocks.BlockID_to_string (entry_id e)).
Proof.
  intros Hc.
  destruct (load_entries_outcomes computeColor cacheJson entries
              (BlockColors.mkLoadState members false [])) as (outs & Hall & Hload).
  { intros e He Hmiss. apply Hc; [done|]. by apply cache_holds_miss. }
  unfold BlockColors.load. simpl. rewrite Hload. simpl.
  eexists. split; [done|]. simpl.
  split; [|split; [|intros n m ext crc img Hn Hm; by apply cache_key_canonical]].
  - intros i e Hi.
    destruct (Forall2_lookup_l _ _ _ _ _ Hall Hi) as (o & Ho & Hout).
    unfold entry_outcome in Hout.
    destruct (cache_hit cacheJson e) eqn:Hhit.
    + injection Hout as <-.
      assert (cache_holds cacheJson e) as Hh by (by apply cache_holds_hit).
      split; [|split]; [|done|done]. split; [done|]. intros _. by eexists.
    + assert (¬ cache_holds cacheJson e) as Hm by (by apply cache_holds_miss).
      destruct (computeColor e) as [c|] eqn:Ec; [|done]. simpl in Hout.
      injection Hout as <-. split; [|split]; [|done|].
      * split; [|done]. intros [c' Hc']. congruence.
      * intros _. exists c. split; [done|]. split; [done|].
        assert (existsb (λ e, negb (cache_hit cacheJson e)) entries = true) as ->.
        { apply existsb_exists. exists e. split; [|by rewrite Hhit].
          apply list_elem_of_In. by apply list_elem_of_lookup_2 in Hi. }
        done.
  - intros Hhits.
    assert (existsb (λ e, negb (cache_hit cacheJson e)) entries = false) as ->; [|done].
    apply not_true_is_false. intros H. apply existsb_exists in H as (e & He & Hm).
    apply list_elem_of_In in He. apply Hhits, cache_holds_hit in He. by rewrite He in Hm.
Qed.

(** C1 at an archive whose only texture is ["404.png"] and a cache that
    holds, under ["404-0"], the key of the texture's [BlockID], an object
    with the texture's CRC32 and the colour [(1, 2, 3)].  The
    specification takes the colour from the cache and writes nothing.
    The code looks the texture up under ["404"], its name up to the dot,
    finds nothing, computes the colour, sets [hadToRecompute] and writes
    the cache file. *)
Theorem load_cache_policy_divergence :
  blocks.BlockID_to_string (entry_id (ZipLib.mkEntry "404.png" 5 grey_pixel)) = "404-0"
  ∧ cache_holds_under_id keyed_cache (ZipLib.mkEntry "404.png" 5 grey_pixel)
  ∧ cached_color_under_id keyed_cache (ZipLib.mkEntry "404.png" 5 grey_pixel)
    = SDL.mkColor 1 2 3 255
  ∧ BlockColors.cache_key (ZipLib.mkEntry "404.png" 5 grey_pixel) = "404"
  ∧ ¬ cache_holds keyed_cache (ZipLib.mkEntry "404.png" 5 grey_pixel)
  ∧ ∃ out,
      BlockColors.load ModePolicy.computeColor (Some bare_texture) keyed_cache ∅ = Some out
      ∧ BlockColors.sources (BlockColors.state out)
        = [(BlockColors.Computed, SDL.mkColor 100 100 100 255)]
      ∧ BlockColors.hadToRecompute (BlockColors.state out) = true
      ∧ BlockColors.written out
        = Some (BlockColors.saveNewJsonCache
                  (BlockColors.blockColors (BlockColors.state out)))
      ∧ BlockColors.getBlockColor (BlockColors.blockColors (BlockColors.state out)) 404 0
        = SDL.mkColor 100 100 100 255.
Proof.
  split; [by vm_compute|]. split.
  { eexists. split; by vm_compute. }
  split; [by vm_compute|]. split; [by vm_compute|]. split.
  { apply cache_holds_miss. by vm_compute. }
  eexists. split; [by vm_compute|]. repeat split; by vm_compute.
Qed.

(** C2. After [load], every [BlockID] made from the name of an archive
    entry has exactly one node in the colour map; the node holds the
    colour (recalled or computed) and the CRC32 of the last entry of the
    archive filed under that [BlockID], whatever the map held before. *)
Theorem load_map_complete
    (computeColor : ZipLib.ZipArchiveEntry → option SDL.SDL_Color)
    (entries : list ZipLib.ZipArchiveEntry) (cacheJson : json11.Json)
    (members : gmap blocks.BlockID (SDL.SDL_Color * Z)) :
  (∀ e, e ∈ entries → ¬ cache_holds cacheJson e → is_Some (computeColor e)) →
  ∃ out,
    BlockColors.load computeColor (Some entries) cacheJson members = Some out
    ∧ ∀ i e, entries !! i = Some e →
        one_node (BlockColors.blockColors (BlockColors.state out)) (entry_id e)
        ∧ (∃ j e' src color,
             (i <= j)%nat ∧ entries !! j = Some e' ∧ entry_id e' = entry_id e
             ∧ (∀ k e'', (j < k)%nat → entries !! k = Some e'' → entry_id e'' ≠ entry_id e)
             ∧ BlockColors.sources (BlockColors.state out) !! j = Some (src, color)
             ∧ entry_outcome computeColor cacheJson e' = Some (src, color)
             ∧ BlockColors.blockColors (BlockColors.state out) !! entry_id e
               = Some (color, ZipLib.GetCrc32 e'))
        ∧ ((∀ k e'', (i < k)%nat → entries !! k = Some e'' → entry_id e'' ≠ entry_id e) →
           ∃ src color,
             entry_outcome computeColor cacheJson e = Some (src, color)
             ∧ BlockColors.blockColors (BlockColors.state out) !! entry_id e
               = Some (color, ZipLib.GetCrc32 e)).
Proof.
  intros Hc.
  destruct (load_entries_outcomes computeColor cacheJson entries
              (BlockColors.mkLoadState members false [])) as (outs & Hall & Hload).
  { intros e He Hmiss. apply Hc; [done|]. by apply cache_holds_miss. }
  unfold BlockColors.load. simpl. rewrite Hload. simpl.
  eexists. split; [done|]. simpl. intros i e Hi.
  set (nodes := zip_with entry_node entries outs) in *.
  set (m := foldl assign_node members nodes).
  assert (∀ k q, nodes !! k = Some q →
            ∃ e' o, entries !! k = Some e' ∧ outs !! k = Some o
                    ∧ entry_outcome computeColor cacheJson e' = Some o
                    ∧ q = entry_node e' o) as Hnode.
  { intros k q Hk. apply lookup_zip_with_Some in Hk as (e' & o & -> & He' & Ho).
    exists e', o. split; [done|]. split; [done|]. split; [|done].
    destruct (Forall2_lookup_l _ _ _ _ _ Hall He') as (o' & Ho' & Hout). congruence. }
  destruct (Forall2_lookup_l _ _ _ _ _ Hall Hi) as (oi & Hoi & Houti).
  assert (nodes !! i = Some (entry_node e oi)) as Hni.
  { apply lookup_zip_with_Some. by exists e, oi. }
  assert (∃ j e' src color,
             (i <= j)%nat ∧ entries !! j = Some e' ∧ entry_id e' = entry_id e
             ∧ (∀ k e'', (j < k)%nat → entries !! k = Some e'' → entry_id e'' ≠ entry_id e)
             ∧ outs !! j = Some (src, color)
             ∧ entry_outcome computeColor cacheJson e' = Some (src, color)
             ∧ m !! entry_id e = Some (color, ZipLib.GetCrc32 e')) as Hlast.
  { destruct (foldl_assign_lookup nodes members (entry_id e))
      as [[Hno _]|(j & p & Hj & Hp & Hlater & Hl)].
    { by destruct (Hno i _ Hni). }
    destruct (Hnode j p Hj) as (e' & [src color] & He' & Ho & Hout & ->).
    exists j, e', src, color. split.
    { destruct (decide (i <= j)%nat) as [?|Hlt]; [done|].
      by destruct (Hlater i _ ltac:(lia) Hni). }
    split; [done|]. split; [done|]. split; [|done].
    intros k e'' Hk He''.
    destruct (Forall2_lookup_l _ _ _ _ _ Hall He'') as (o'' & Ho'' & _).
    apply (Hlater k (entry_node e'' o'') Hk). apply lookup_zip_with_Some.
    by exists e'', o''. }
  split; [|split].
  - destruct Hlast as (j & e' & src & color & _ & _ & _ & _ & _ & _ & Hm).
    apply bound_one_node. by eexists.
  - done.
  - intros Hlater. destruct Hlast as (j & e' & src & color & Hij & He' & Hid & _ & _ & Hout & Hm).
    destruct (decide (i = j)) as [->|Hne].
    + assert (e' = e) as -> by congruence. by exists src, color.
    + by destruct (Hlater j e' ltac:(lia) He').
Qed.

Section load_witnesses.

Import SDL json11 ZipLib BlockColors.

Lemma two_textures_computable :
  ∀ e, e ∈ two_textures → ¬ cache_holds half_cache e →
       is_Some (ModePolicy.computeColor e).
Proof.
  intros e He _. unfold two_textures in He.
  apply elem_of_cons in He as [->|He]; [by eexists|].
  apply elem_of_cons in He as [->|He]; [by eexists|].
  by apply elem_of_nil in He.
Defined.

End load_witnesses.

Lemma load_cache_policy_witness :
  ∃ out,
    BlockColors.load ModePolicy.computeColor (Some two_textures) half_cache ∅ = Some out
    ∧ (cache_holds half_cache (ZipLib.mkEntry "1-0.png" 5 grey_pixel) →
       BlockColors.sources (BlockColors.state out) !! 0%nat
       = Some (BlockColors.FromCache,
               cached_color half_cache (ZipLib.mkEntry "1-0.png" 5 grey_pixel))).
Proof.
  destruct (load_cache_policy ModePolicy.computeColor two_textures half_cache ∅
              two_textures_computable) as (out & Hload & Hturn & _ & _).
  exists out. split; [exact Hload|].
  exact (proj1 (proj2 (Hturn 0%nat _ eq_refl))).
Defined.

Lemma load_map_complete_witness :
  ∃ out,
    BlockColors.load ModePolicy.computeColor (Some two_textures) half_cache ∅ = Some out
    ∧ one_node (BlockColors.blockColors (BlockColors.state out))
               (entry_id (ZipLib.mkEntry "35-14.png" 7 grey_pixel)).
Proof.
  destruct (load_map_complete ModePolicy.computeColor two_textures half_cache ∅
              two_textures_computable) as (out & Hload & Hturn).
  exists out. split; [exact Hload|].
  exact (proj1 (Hturn 1%nat _ eq_refl)).
Defined.

(** C9. For an [(id, meta)] whose [BlockID] has no node in the colour
    map, [getBlockColor] returns the transparent colour [{0,0,0,0}]; it
    is a total function, so it returns for every map and every pair. *)
Theorem getBlockColor_unknown
    (blockColors : gmap blocks.BlockID (SDL.SDL_Color * Z)) (id meta : Z) :
  blockColors !! blocks.mkBlockID (to_int id) (to_int meta) = None →
  BlockColors.getBlockColor blockColors id meta = SDL.mkColor 0 0 0 0.
Proof. intros H. unfold BlockColors.getBlockColor. by rewrite H. Qed.

Lemma getBlockColor_unknown_witness :
  BlockColors.getBlockColor
    (<[blocks.mkBlockID 1 0 := (SDL.mkColor 100 100 100 255, 5)]> ∅) 35 14
  = SDL.mkColor 0 0 0 0.
Proof.
  apply getBlockColor_unknown. by vm_compute.
Defined.

(** C10. [isLoaded] never returns: its body only calls [isLoaded] again,
    so no depth of calls is enough for any call to come back with a
    value. *)
Theorem isLoaded_never_returns :
  (∀ fuel, BlockColors.isLoaded fuel = None)
  ∧ (∀ b, ¬ BlockColors.isLoaded_returns b).
Proof.
  split.
  - induction fuel as [|fuel IH]; [reflexivity|exact IH].
  - intros b H. induction H as [b _ IH]. exact IH.
Qed.

(** ** computeColor, the average *)

Section average_props.

Import SDL ZipLib.

Implicit Types (px : list (Z * Z * Z * Z)).

Lemma to_unsigned_small z : 0 <= z < 2 ^ 32 → to_unsigned z = z.
Proof. intros H. unfold to_unsigned. by apply Z.mod_small. Qed.

Lemma to_unsigned_to_int z : to_unsigned (to_int z) = to_unsigned z.
Proof.
  unfold to_unsigned, to_int. rewrite Zminus_mod_idemp_l. f_equal. lia.
Qed.

Lemma visible_cons_opaque p px :
  p.2 ≠ SDL_ALPHA_TRANSPARENT → visible (p :: px) = p :: visible px.
Proof. intros H. unfold visible. by rewrite filter_cons_True. Qed.

Lemma visible_cons_clear p px :
  p.2 = SDL_ALPHA_TRANSPARENT → visible (p :: px) = visible px.
Proof. intros H. unfold visible. rewrite filter_cons_False; [done|]. by intros ?. Qed.

Lemma total_bound (channel : Z * Z * Z * Z → Z) px :
  (∀ p, byte_pixel p → 0 <= channel p < 256) → Forall byte_pixel px →
  0 <= total channel (visible px) <= 255 * Z.of_nat (length px).
Proof.
  intros Hch Hpx. induction Hpx as [|p px Hp Hpx IH]; [simpl; lia|].
  rewrite length_cons, Nat2Z.inj_succ.
  destruct (decide (p.2 = SDL_ALPHA_TRANSPARENT)) as [E|NE].
  - rewrite visible_cons_clear by done. lia.
  - rewrite visible_cons_opaque by done. simpl. pose proof (Hch p Hp). lia.
Qed.

Lemma red_byte p : byte_pixel p → 0 <= red p < 256.
Proof. destruct p as [[[r g] b] a]. unfold byte_pixel, is_byte, red. simpl. lia. Qed.

Lemma green_byte p : byte_pixel p → 0 <= green p < 256.
Proof. destruct p as [[[r g] b] a]. unfold byte_pixel, is_byte, green. simpl. lia. Qed.

Lemma blue_byte p : byte_pixel p → 0 <= blue p < 256.
Proof. destruct p as [[[r g] b] a]. unfold byte_pixel, is_byte, blue. simpl. lia. Qed.

(** While the sums stay below [2^32], the loop adds up the visible pixels. *)
Lemma sum_pixels_buffer px avgR avgG avgB :
  Forall byte_pixel px →
  0 <= avgR → 0 <= avgG → 0 <= avgB →
  avgR + 255 * Z.of_nat (length px) < 2 ^ 32 →
  avgG + 255 * Z.of_nat (length px) < 2 ^ 32 →
  avgB + 255 * Z.of_nat (length px) < 2 ^ 32 →
  AveragePolicy.sum_pixels (buffer px) (avgR, avgG, avgB)
  = Some (avgR + total red (visible px), avgG + total green (visible px),
          avgB + total blue (visible px)).
Proof.
  intros Hpx. revert avgR avgG avgB.
  induction Hpx as [|p px Hp Hpx IH]; intros avgR avgG avgB HR HG HB BR BG BB.
  - simpl. by rewrite !Z.add_0_r.
  - rewrite length_cons, Nat2Z.inj_succ in BR, BG, BB.
    pose proof (red_byte p Hp). pose proof (green_byte p Hp). pose proof (blue_byte p Hp).
    destruct p as [[[r g] b] a]. unfold red, green, blue in *. simpl in *.
    destruct (Z.eqb_spec a SDL_ALPHA_TRANSPARENT) as [E|NE]; cbn [negb].
    + rewrite visible_cons_clear by done. apply IH; lia.
    + rewrite visible_cons_opaque by done.
      rewrite !to_unsigned_small by lia. rewrite IH by lia.
      simpl. by rewrite !Z.add_assoc.
Qed.

End average_props.

(** The average as the code has it.  For a decoded image of at least one
    pixel, [computeColor] of the second revision returns the sums of red,
    green
    and blue over the pixels that are not fully transparent, each divided
    (integer division) by the number of all pixels of the image,
    [width * height], the transparent ones included, with alpha fully
    opaque; when none of its pixels is visible that is opaque black.
    (The sums are [unsigned]: the image is taken small enough for them
    not to wrap.) *)
Theorem average_policy (name : string) (crc w h : Z) (px : list (Z * Z * Z * Z)) :
  Forall byte_pixel px →
  Z.of_nat (length px) = w * h → 0 < w * h → 255 * (w * h) < 2 ^ 32 →
  AveragePolicy.computeColor (ZipLib.mkEntry name crc (ZipLib.mkImage w h (buffer px)))
  = Some (SDL.mkColor (total red (visible px) / (w * h))
                      (total green (visible px) / (w * h))
                      (total blue (visible px) / (w * h))
                      SDL.SDL_ALPHA_OPAQUE)
  ∧ (visible px = [] →
     AveragePolicy.computeColor (ZipLib.mkEntry name crc (ZipLib.mkImage w h (buffer px)))
     = Some (SDL.mkColor 0 0 0 255)).
Proof.
  intros Hpx Hlen Hpos Hsmall.
  cut (AveragePolicy.computeColor
         (ZipLib.mkEntry name crc (ZipLib.mkImage w h (buffer px)))
       = Some (SDL.mkColor (total red (visible px) / (w * h))
                           (total green (visible px) / (w * h))
                           (total blue (visible px) / (w * h))
                           SDL.SDL_ALPHA_OPAQUE)).
  { intros E. split; [exact E|]. intros Hnone. rewrite E, Hnone. simpl.
    by rewrite Z.div_0_l by lia. }
  unfold AveragePolicy.computeColor.
  cbn [ZipLib.decoded ZipLib.pixels ZipLib.width ZipLib.height].
  rewrite sum_pixels_buffer by (done || lia). cbn [mbind option_bind].
  rewrite !Z.add_0_l, (to_unsigned_small (w * h)), to_unsigned_to_int,
    (to_unsigned_small (w * h)) by lia.
  destruct (Z.eqb_spec (w * h) 0) as [?|_]; [lia|].
  pose proof (total_bound red px red_byte Hpx).
  pose proof (total_bound green px green_byte Hpx).
  pose proof (total_bound blue px blue_byte Hpx).
  assert (∀ t, 0 <= t <= 255 * Z.of_nat (length px) → to_Uint8 (t / (w * h)) = t / (w * h)) as Hq.
  { intros t Ht. unfold to_Uint8. apply Z.mod_small. split.
    - apply Z.div_pos; lia.
    - apply Z.div_lt_upper_bound; lia. }
  by rewrite !Hq by done.
Qed.

Lemma average_policy_witness :
  AveragePolicy.computeColor
    (ZipLib.mkEntry "1-0.png" 5 (ZipLib.mkImage 2 1 (buffer grey_and_clear)))
  = Some (SDL.mkColor (total red (visible grey_and_clear) / (2 * 1))
                      (total green (visible grey_and_clear) / (2 * 1))
                      (total blue (visible grey_and_clear) / (2 * 1))
                      SDL.SDL_ALPHA_OPAQUE).
Proof.
  apply (λ H1 H2 H3 H4,
           proj1 (average_policy "1-0.png" 5 2 1 grey_and_clear H1 H2 H3 H4)).
  - unfold grey_and_clear. repeat constructor; by vm_compute.
  - reflexivity.
  - lia.
  - lia.
Defined.

(** C5 at one grey pixel and one transparent pixel.  The specification
    divides the sum over the visible pixels, [100], by their number, [1],
    and returns the grey [100].  The code divides by [width * height],
    which is [2], and returns [50].  Nor is the division guarded: on an
    image without pixels, which is what an entry that does not decode
    leaves, the specification returns the transparent black and the code
    divides by zero. *)
Theorem average_policy_divergence :
  AveragePolicy.computeColor
    (ZipLib.mkEntry "1-0.png" 5 (ZipLib.mkImage 2 1 (buffer grey_and_clear)))
  = Some (SDL.mkColor 50 50 50 255)
  ∧ average_as_specified grey_and_clear = SDL.mkColor 100 100 100 255
  ∧ AveragePolicy.computeColor (ZipLib.mkEntry "1-0.png" 5 (ZipLib.mkImage 0 0 (buffer [])))
    = None
  ∧ average_as_specified [] = SDL.mkColor 0 0 0 0.
Proof. repeat split; by vm_compute. Qed.

(** The division is not guarded: on an image without pixels it divides by
    zero. *)
Lemma average_policy_unguarded name crc :
  AveragePolicy.computeColor (ZipLib.mkEntry name crc (ZipLib.mkImage 0 0 [])) = None.
Proof. reflexivity. Qed.

(** ** computeColor, the most used bucket *)

Section mode_props.

Import SDL ZipLib.

(** The comparison handed to the map holds of every colour and itself,
    as the test of similarity it is; an ordering never does. *)
Lemma SimilarColorCompare_refl x : ModePolicy.SimilarColorCompare x x = true.
Proof.
  unfold ModePolicy.SimilarColorCompare. by rewrite !Z.sub_diag.
Qed.

Lemma within_tolerance_compare x y :
  within_tolerance x y = ModePolicy.SimilarColorCompare x y.
Proof. reflexivity. Qed.

(** The map takes two keys for the same when the comparison puts neither
    before the other: a colour that is not similar to the key of the
    first node is counted on that node. *)
Lemma count_color_dissimilar k' n rest k :
  ModePolicy.SimilarColorCompare k' k = false →
  ModePolicy.SimilarColorCompare k k' = false →
  ModePolicy.count_color ((k', n) :: rest) k = Some ((k', to_unsigned (n + 1)) :: rest).
Proof. intros H1 H2. simpl. by rewrite H1, H2. Qed.

(** A colour similar to the key of the first node is put before it and
    behind it at once: the map is outside of what [std::map] defines. *)
Lemma count_color_similar k' n rest k :
  ModePolicy.SimilarColorCompare k' k = true →
  ModePolicy.SimilarColorCompare k k' = true →
  ModePolicy.count_color ((k', n) :: rest) k = None.
Proof. intros H1 H2. simpl. by rewrite H1, H2. Qed.

(** So a colour that is similar to none of the colours after it collects
    them all: the one node stays the only node. *)
Lemma count_pixels_dissimilar (px : list (Z * Z * Z * Z)) k n :
  Forall (λ p, let '(r, g, b, a) := p in
               a ≠ SDL_ALPHA_TRANSPARENT →
               ModePolicy.SimilarColorCompare k (mkColor r g b a) = false
               ∧ ModePolicy.SimilarColorCompare (mkColor r g b a) k = false) px →
  ModePolicy.count_pixels (buffer px) [(k, to_unsigned n)]
  = Some [(k, to_unsigned (n + Z.of_nat (length (visible px))))].
Proof.
  intros Hpx. revert n. induction Hpx as [|p px Hp Hpx IH]; intros n.
  - simpl. by rewrite Z.add_0_r.
  - destruct p as [[[r g] b] a]. cbn [buffer flat_map app ModePolicy.count_pixels].
    fold (buffer px).
    destruct (Z.eqb_spec a SDL_ALPHA_TRANSPARENT) as [E|NE]; cbn [negb mbind option_bind].
    + rewrite visible_cons_clear by done. apply IH.
    + rewrite visible_cons_opaque by done. destruct (Hp NE) as [H1 H2].
      rewrite count_color_dissimilar by done. cbn [mbind option_bind].
      replace (to_unsigned (to_unsigned n + 1)) with (to_unsigned (n + 1))
        by (unfold to_unsigned; by rewrite Zplus_mod_idemp_l).
      rewrite IH. rewrite length_cons, Nat2Z.inj_succ. do 4 f_equal. lia.
Qed.

End mode_props.

(** C4 at one black pixel followed by two grey pixels.  The specification
    opens a bucket for black and one for grey and returns grey, the
    bucket of two.  The code counts both grey pixels on the node of
    black, the only node, and returns black. *)
Theorem mode_policy_divergence :
  ModePolicy.count_pixels (buffer black_grey_grey) []
  = Some [(SDL.mkColor 0 0 0 255, 3)]
  ∧ ModePolicy.computeColor
      (ZipLib.mkEntry "1-0.png" 5 (ZipLib.mkImage 3 1 (buffer black_grey_grey)))
    = Some (SDL.mkColor 0 0 0 255)
  ∧ buckets_as_specified black_grey_grey
    = [(SDL.mkColor 0 0 0 255, 1); (SDL.mkColor 100 100 100 255, 2)]
  ∧ mode_as_specified black_grey_grey = Some (SDL.mkColor 100 100 100 255).
Proof. repeat split; by vm_compute. Qed.

(** ** Two loads in a row *)

(** C3 at an archive whose only texture is ["404.png"].  The first load
    finds no cache, computes the colour and writes the cache under the
    key ["404-0"], the string form of the [BlockID].  The second load
    reads that file, looks the texture up under ["404"], its name up to
    the dot, finds nothing, computes the colour again and writes the file
    again. *)
Theorem second_load_recomputes :
  ∃ out1 text out2,
    BlockColors.load ModePolicy.computeColor (Some bare_texture) json11.JNull ∅ = Some out1
    ∧ BlockColors.written out1 = Some text
    ∧ json11.parse text
      = json11.JObject
          (<["404-0" := json11.JObject
                          (<["crc" := json11.JNumber 5]>
                             (<["color" := json11.JNumber 1684301055]> ∅))]> ∅)
    ∧ json11.parse text
      = BlockColors.cache_json (BlockColors.blockColors (BlockColors.state out1))
    ∧ BlockColors.cache_key (ZipLib.mkEntry "404.png" 5 grey_pixel) = "404"
    ∧ BlockColors.load ModePolicy.computeColor (Some bare_texture) (json11.parse text) ∅
      = Some out2
    ∧ BlockColors.sources (BlockColors.state out2)
      = [(BlockColors.Computed, SDL.mkColor 100 100 100 255)]
    ∧ BlockColors.hadToRecompute (BlockColors.state out2) = true
    ∧ BlockColors.written out2 = Some text.
Proof.
  eexists _, _, _. split; [by vm_compute|]. split; [by vm_compute|].
  split; [by vm_compute|]. split; [by vm_compute|]. split; [by vm_compute|].
  split; [by vm_compute|]. repeat split; by vm_compute.
Qed.

(** With names of the form ["<id>-<meta>.png"] the cache of the first
    load serves the second: nothing is computed and nothing is written,
    and the map would be written out as the same text. *)
Lemma second_load_reuses :
  ∃ out1 text out2,
    BlockColors.load ModePolicy.computeColor (Some two_textures) json11.JNull ∅ = Some out1
    ∧ BlockColors.written out1 = Some text
    ∧ json11.parse text
      = BlockColors.cache_json (BlockColors.blockColors (BlockColors.state out1))
    ∧ BlockColors.load ModePolicy.computeColor (Some two_textures) (json11.parse text) ∅
      = Some out2
    ∧ BlockColors.sources (BlockColors.state out2)
      = [(BlockColors.FromCache, SDL.mkColor 100 100 100 255);
         (BlockColors.FromCache, SDL.mkColor 100 100 100 255)]
    ∧ BlockColors.hadToRecompute (BlockColors.state out2) = false
    ∧ BlockColors.written out2 = None
    ∧ BlockColors.saveNewJsonCache (BlockColors.blockColors (BlockColors.state out2))
      = text.
Proof.
  eexists _, _, _. split; [by vm_compute|]. split; [by vm_compute|].
  split; [by vm_compute|]. split; [by vm_compute|]. repeat split; by vm_compute.
Qed.

(** * Further properties of the code *)

(** ** BlockID: the order and the string form *)

Section BlockID_more.

Import blocks.

Implicit Types (s t : string) (c : ascii) (n : Z) (x y z : BlockID).

Lemma show_int_neg n : n < 0 → show_int n = String "-" (show_unsigned (- n)).
Proof. intros H. unfold show_int. destruct (Z.ltb_spec n 0); [done|lia]. Qed.

(** Two digit strings in front of the same character that is no digit. *)
Lemma digits_prefix_inj s s' c t t' :
  all_digits s = true → all_digits s' = true → is_digit c = false →
  s +:+ String c t = s' +:+ String c t' → s = s' ∧ t = t'.
Proof.
  intros Hs. revert s'. induction s as [|a s IH]; intros s' Hs' Hc E.
  - destruct s' as [|a' s']; simpl in E.
    + by injection E as ->.
    + injection E as -> _. simpl in Hs'. apply andb_true_iff in Hs' as [Ha _]. congruence.
  - simpl in Hs. apply andb_true_iff in Hs as [Ha Hs].
    destruct s' as [|a' s']; simpl in E.
    + injection E as -> _. congruence.
    + injection E as -> E. simpl in Hs'. apply andb_true_iff in Hs' as [_ Hs'].
      destruct (IH Hs s' Hs' Hc E) as [-> ->]. done.
Qed.

Lemma show_unsigned_inj n m :
  0 <= n → 0 <= m → show_unsigned n = show_unsigned m → n = m.
Proof.
  intros Hn Hm E.
  rewrite <- (proj2 (show_unsigned_numeral n Hn)), <- (proj2 (show_unsigned_numeral m Hm)).
  by rewrite E.
Qed.

(** What is printed of a number: a sign or none, then its digits. *)
Lemma show_int_shape n :
  ∃ sign digits,
    show_int n = sign +:+ digits ∧ numeral digits
    ∧ ((0 <= n ∧ sign = EmptyString ∧ digits = show_unsigned n)
       ∨ (n < 0 ∧ sign = String "-" EmptyString ∧ digits = show_unsigned (- n))).
Proof.
  destruct (Z.lt_ge_cases n 0) as [Hneg|Hpos].
  - exists (String "-" EmptyString), (show_unsigned (- n)).
    split; [by rewrite show_int_neg|]. split; [apply show_unsigned_numeral; lia|].
    right. done.
  - exists EmptyString, (show_unsigned n).
    split; [by rewrite show_int_nonneg|]. split; [by apply show_unsigned_numeral|].
    left. done.
Qed.

(** Printing followed by any character that is no digit tells numbers apart. *)
Lemma show_int_prefix_inj n m c t t' :
  is_digit c = false →
  show_int n +:+ String c t = show_int m +:+ String c t' → n = m ∧ t = t'.
Proof.
  intros Hc E.
  destruct (show_int_shape n) as (sn & dn & En & [Hdn Hne] & Hn).
  destruct (show_int_shape m) as (sm & dm & Em & [Hdm Hme] & Hm).
  rewrite En, Em in E.
  destruct (numeral_cons dn (conj Hdn Hne)) as (a & dn' & Edn & Ha).
  destruct (numeral_cons dm (conj Hdm Hme)) as (b & dm' & Edm & Hb).
  destruct Hn as [(Hn & -> & Hn')|(Hn & -> & Hn')];
    destruct Hm as [(Hm & -> & Hm')|(Hm & -> & Hm')]; simpl in E.
  - destruct (digits_prefix_inj _ _ _ _ _ Hdn Hdm Hc E) as [Ed ->].
    split; [|done]. subst dn dm. by apply show_unsigned_inj.
  - rewrite Edn in E. simpl in E. injection E as -> _. by vm_compute in Ha.
  - rewrite Edm in E. simpl in E. injection E as <- _. by vm_compute in Hb.
  - injection E as E. destruct (digits_prefix_inj _ _ _ _ _ Hdn Hdm Hc E) as [Ed ->].
    split; [|done]. subst dn dm.
    assert (- n = - m) by (apply show_unsigned_inj; [lia|lia|done]). lia.
Qed.

Lemma show_int_inj n m : show_int n = show_int m → n = m.
Proof.
  intros E. apply (show_int_prefix_inj n m "-" EmptyString EmptyString); [done|].
  by rewrite E.
Qed.

End BlockID_more.

(** X1. [operator<] of [BlockID] is a strict total order: nothing is below
    itself, it is transitive, and of two different [BlockID]s one is below
    the other; this is what [std::map] asks of the order of its keys. *)
Theorem BlockID_lt_strict_total :
  (∀ x, blocks.BlockID_lt x x = false)
  ∧ (∀ x y z, blocks.BlockID_lt x y = true → blocks.BlockID_lt y z = true →
              blocks.BlockID_lt x z = true)
  ∧ (∀ x y, blocks.BlockID_lt x y = true → blocks.BlockID_lt y x = false)
  ∧ (∀ x y, blocks.BlockID_lt x y = true ∨ x = y ∨ blocks.BlockID_lt y x = true).
Proof.
  assert (∀ x y, blocks.BlockID_lt x y = true
                 ↔ blocks.id x < blocks.id y
                   ∨ (blocks.id x = blocks.id y ∧ blocks.meta x < blocks.meta y)) as Hlt.
  { intros [i1 m1] [i2 m2]. unfold blocks.BlockID_lt. simpl.
    destruct (Z.ltb_spec i1 i2); [split; [by left|done]|].
    destruct (Z.eqb_spec i1 i2).
    - rewrite Z.ltb_lt. split; [by right|]. intros [?|[_ ?]]; [lia|done].
    - split; [done|]. intros [?|[? _]]; lia. }
  split; [|split; [|split]].
  - intros x. apply not_true_iff_false. rewrite Hlt. lia.
  - intros x y z. rewrite !Hlt. lia.
  - intros x y H. apply not_true_iff_false. rewrite Hlt in *. lia.
  - intros [i1 m1] [i2 m2]. rewrite !Hlt. simpl.
    destruct (Z.lt_trichotomy i1 i2) as [?|[->|?]];
      [left; by left| |right; right; by left].
    destruct (Z.lt_trichotomy m1 m2) as [?|[->|?]].
    + left. by right.
    + right. by left.
    + right. right. by right.
Qed.

(** X2. Different [BlockID]s have different string forms, negative
    numbers included: two nodes of the colour map never share a key of
    the cache file. *)
Theorem BlockID_to_string_inj (x y : blocks.BlockID) :
  blocks.BlockID_to_string x = blocks.BlockID_to_string y → x = y.
Proof.
  destruct x as [i1 m1], y as [i2 m2]. unfold blocks.BlockID_to_string. simpl.
  intros E. apply show_int_prefix_inj in E as [-> E]; [|done].
  apply show_int_inj in E as ->. done.
Qed.

Lemma BlockID_to_string_inj_witness :
  blocks.mkBlockID 35 14 = blocks.mkBlockID 35 14.
Proof. apply BlockID_to_string_inj. reflexivity. Defined.

Section BlockID_parse_more.

Import blocks.

Implicit Types (s t : string) (c : ascii) (n : Z).

Lemma substr_whole s count : size s <= count → substr s 0 count = s.
Proof.
  intros H. rewrite substr_0. rewrite Z.min_r by lia.
  apply take_chars_all. unfold size. lia.
Qed.

Lemma take_chars_size s k : size s <= k → take_chars (Z.to_nat k) s = s.
Proof. intros H. apply take_chars_all. unfold size in H. lia. Qed.

Lemma substr_prefix s t : substr (s +:+ t) 0 (size s) = s.
Proof.
  rewrite substr_0, size_app. rewrite Z.min_l by (pose proof (size_nonneg t); lia).
  rewrite take_chars_app by (unfold size; lia).
  unfold size. rewrite Nat2Z.id, Nat.sub_diag.
  replace (take_chars 0 t) with EmptyString by (by destruct t).
  apply app_nil_r_str.
Qed.

Lemma show_int_size n : - 2 ^ 31 <= n < 2 ^ 31 → 1 <= size (show_int n) <= 34.
Proof.
  intros Hn. destruct (Z.lt_ge_cases n 0).
  - rewrite show_int_neg, size_String by done.
    pose proof (show_unsigned_size (- n) ltac:(lia)). lia.
  - rewrite show_int_nonneg by done.
    pose proof (show_unsigned_size n ltac:(lia)). lia.
Qed.

Lemma show_int_no_dot n : occurs "." (show_int n) = false.
Proof.
  destruct (show_int_shape n) as (sn & dn & -> & [Hd _] & [(_ & -> & _)|(_ & -> & _)]);
    simpl; by rewrite all_digits_occurs.
Qed.

(** [atoi] reads back what was printed of an [int], negative or not. *)
Lemma atoi_show_int n t :
  - 2 ^ 31 <= n < 2 ^ 31 →
  (t = EmptyString ∨ ∃ c t', t = String c t' ∧ is_digit c = false) →
  atoi (show_int n +:+ t) = n.
Proof.
  intros Hn Ht. destruct (Z.lt_ge_cases n 0) as [Hneg|Hpos].
  - rewrite show_int_neg by done. unfold atoi. cbn [String.append skip_space].
    change (is_space "-") with false. cbv iota. change (Ascii.eqb "-" "-") with true.
    cbv iota.
    assert (atoi_digits (show_unsigned (- n) +:+ t) 0 = - n) as ->.
    { unfold show_unsigned. rewrite <- dec_digits_acc.
      rewrite atoi_digits_dec by (split; [lia|apply show_fuel; lia]).
      destruct Ht as [->|(x & t' & -> & Hx)]; simpl; [done|]. by rewrite Hx. }
    rewrite to_int_small; lia.
  - rewrite show_int_nonneg by done. apply atoi_show; [lia|done].
Qed.

(** What [atoi] makes of a text that starts with neither white space, a
    sign nor a digit. *)
Lemma atoi_garbage c s :
  is_space c = false → is_digit c = false →
  Ascii.eqb c "-" = false → Ascii.eqb c "+" = false →
  atoi (String c s) = 0.
Proof.
  intros Hs Hd Hm Hp. unfold atoi. cbn [skip_space]. rewrite Hs, Hm, Hp.
  cbn [atoi_digits]. by rewrite Hd.
Qed.

End BlockID_parse_more.

(** X3. The string form of a [BlockID] whose [id] and [meta] are not
    negative (and fit an [int]) is read back by the string constructor as
    the same [BlockID]. *)
Theorem BlockID_of_to_string (x : blocks.BlockID) :
  0 <= blocks.id x < 2 ^ 31 → 0 <= blocks.meta x < 2 ^ 31 →
  blocks.BlockID_of_string (blocks.BlockID_to_string x) = x.
Proof.
  destruct x as [i m]. simpl. intros Hi Hm. unfold blocks.BlockID_to_string. simpl.
  by apply BlockID_of_string_stem.
Qed.

Lemma BlockID_of_to_string_witness :
  blocks.BlockID_of_string (blocks.BlockID_to_string (blocks.mkBlockID 35 14))
  = blocks.mkBlockID 35 14.
Proof. apply BlockID_of_to_string; simpl; lia. Defined.

(** X4. A negative [id] does not come back: its string form starts with
    the minus sign, which the string constructor takes for the dash, so
    it reads the [id] as [0] and the digits of the [id] as the [meta]. *)
Theorem BlockID_negative_id_lost (i m : Z) :
  - 2 ^ 31 < i < 0 → - 2 ^ 31 <= m < 2 ^ 31 →
  blocks.BlockID_of_string (blocks.BlockID_to_string (blocks.mkBlockID i m))
  = blocks.mkBlockID 0 (- i).
Proof.
  intros Hi Hm. unfold blocks.BlockID_to_string. simpl blocks.id. simpl blocks.meta.
  rewrite (show_int_neg i) by lia.
  set (D := show_unsigned (- i)). set (M := show_int m).
  pose proof (show_unsigned_size (- i) ltac:(lia)) as HsD. fold D in HsD.
  pose proof (show_int_size m Hm) as HsM. fold M in HsM.
  pose proof npos_value as Hnpos.
  destruct (show_unsigned_numeral (- i)) as [[HD HDne] HvD]; [lia|]. fold D in HD, HDne, HvD.
  cbn [String.append]. unfold blocks.BlockID_of_string.
  assert (find (String "-" (D +:+ String "-" M)) "-" 0 = 0) as ->.
  { rewrite find_0. reflexivity. }
  assert (find (String "-" (D +:+ String "-" M)) "." 0 = npos) as ->.
  { rewrite find_0. apply find_at_none. simpl. rewrite occurs_app. simpl.
    rewrite (all_digits_occurs "." D) by done. unfold M. by rewrite show_int_no_dot. }
  change (0 =? npos) with false. cbn [negb]. f_equal.
  change (size_add 0 1) with 1.
  change (String "-" (D +:+ String "-" M))
    with (String "-" EmptyString +:+ (D +:+ String "-" M)).
  rewrite substr_app by done.
  rewrite take_chars_size by (rewrite size_app, size_String; lia).
  rewrite atoi_numeral; [done|done|lia|]. right. by eexists _, _.
Qed.

Lemma BlockID_negative_id_lost_witness :
  blocks.BlockID_of_string (blocks.BlockID_to_string (blocks.mkBlockID (-5) 3))
  = blocks.mkBlockID 0 5.
Proof. apply (BlockID_negative_id_lost (-5) 3); lia. Defined.

(** X5. The string constructor does not look at an extension: a name
    with a dash before its first dot gives the same [BlockID] with the
    extension as without, and so does a name without any dash.  (A dash
    in the extension of a name that has none before the dot is taken for
    the separator.) *)
Theorem BlockID_of_string_extension (stem ext : string) :
  occurs "." stem = false →
  occurs "-" stem = true ∨ occurs "-" ext = false →
  size (stem +:+ String "." ext) < npos →
  blocks.BlockID_of_string (stem +:+ String "." ext) = blocks.BlockID_of_string stem
  ∧ (∀ crc img,
       BlockColors.cache_key (ZipLib.mkEntry (stem +:+ String "." ext) crc img) = stem).
Proof.
  intros Hdot Hdash Hsz. pose proof npos_value as Hnpos.
  rewrite size_app, size_String in Hsz.
  pose proof (size_nonneg stem) as Hs0. pose proof (size_nonneg ext) as He0.
  split.
  2:{ intros crc img. unfold BlockColors.cache_key. cbn [ZipLib.GetName].
      rewrite find_0, find_at_app by done. rewrite Z.add_0_l. apply substr_prefix. }
  unfold blocks.BlockID_of_string.
  assert (find (stem +:+ String "." ext) "." 0 = size stem) as ->
    by (rewrite find_0, find_at_app by done; lia).
  assert (find stem "." 0 = npos) as -> by (rewrite find_0; by apply find_at_none).
  destruct (first_occurrence "-" stem) as [Hno|(pre & M & -> & Hpre)].
  - destruct Hdash as [Hy|Hext]; [congruence|].
    assert (find (stem +:+ String "." ext) "-" 0 = npos) as ->.
    { rewrite find_0. apply find_at_none. rewrite occurs_app. simpl. by rewrite Hno, Hext. }
    assert (find stem "-" 0 = npos) as -> by (rewrite find_0; by apply find_at_none).
    rewrite Z.eqb_refl. cbn [negb]. f_equal.
    rewrite !substr_whole by (rewrite ?size_app, ?size_String; lia).
    apply atoi_dot.
  - rewrite occurs_app in Hdot. apply orb_false_iff in Hdot as [HpreD HMD].
    simpl in HMD. rewrite size_app, size_String in Hsz, Hs0.
    pose proof (size_nonneg pre) as Hp0. pose proof (size_nonneg M) as HM0.
    rewrite app_assoc_str. cbn [String.append].
    assert (find (pre +:+ String "-" (M +:+ String "." ext)) "-" 0 = size pre) as ->
      by (rewrite find_0, find_at_app by done; lia).
    assert (find (pre +:+ String "-" M) "-" 0 = size pre) as ->
      by (rewrite find_0, find_at_app by done; lia).
    destruct (Z.eqb_spec (size pre) npos) as [?|_]; [lia|]. cbn [negb].
    rewrite size_add_small by (unfold size_max; lia).
    rewrite !substr_prefix. f_equal.
    rewrite (app_cons_assoc pre "-" (M +:+ String "." ext)).
    rewrite (app_cons_assoc pre "-" M).
    rewrite !substr_app by (by rewrite size_snoc).
    rewrite (take_chars_size M) by lia.
    destruct (take_chars_past M "." ext
                (Z.to_nat (Z.min (size ((pre +:+ String "-" EmptyString) +:+ M))
                                 (size (M +:+ String "." ext)))))
      as [t' ->]; [|apply atoi_dot].
    rewrite !size_app, !size_String. change (size EmptyString) with 0.
    unfold size in *. lia.
Qed.

Lemma BlockID_of_string_extension_witness :
  blocks.BlockID_of_string "405-3.png" = blocks.BlockID_of_string "405-3".
Proof.
  refine (proj1 (BlockID_of_string_extension "405-3" "png" _ _ _)).
  - reflexivity.
  - left. reflexivity.
  - by vm_compute.
Defined.

(** X6. A string whose first character is neither white space, a sign
    nor a digit gives the [id] [0], without any error. *)
Theorem BlockID_of_string_no_number (c : ascii) (s : string) :
  is_space c = false → is_digit c = false →
  Ascii.eqb c "-" = false → Ascii.eqb c "+" = false →
  size (String c s) < npos →
  blocks.id (blocks.BlockID_of_string (String c s)) = 0.
Proof.
  intros Hs Hd Hm Hp Hsz. pose proof npos_value as Hnpos.
  assert (blocks.id (blocks.BlockID_of_string (String c s))
          = atoi (substr (String c s) 0 (find (String c s) "-" 0))) as ->.
  { unfold blocks.BlockID_of_string. by destruct (negb _). }
  rewrite find_0. cbn [find_at]. rewrite Hm.
  destruct (find_at_bound "-" s (0 + 1)) as [->|Hb].
  - rewrite substr_whole by lia. by apply atoi_garbage.
  - rewrite substr_0. rewrite size_String in Hsz |- *. pose proof (size_nonneg s).
    rewrite Z.min_l by lia.
    destruct (Z.to_nat (find_at "-" s (0 + 1))) as [|k] eqn:E; [lia|].
    cbn [take_chars]. by apply atoi_garbage.
Qed.

Lemma BlockID_of_string_no_number_witness :
  blocks.id (blocks.BlockID_of_string "stone-3.png") = 0.
Proof.
  apply (BlockID_of_string_no_number "s" "tone-3.png"); by vm_compute.
Defined.

(** ** load and the colour map *)

Section load_more.

Import SDL json11 ZipLib BlockColors.

Variable computeColor : ZipArchiveEntry → option SDL_Color.
Variable cacheJson : Json.

Implicit Types (e : ZipArchiveEntry) (entries : list ZipArchiveEntry)
  (m members : gmap BlockID (SDL_Color * Z)).

(** What [load] leaves: the nodes of the entries assigned in order to the
    map it started from, the flag of any miss, the outcomes. *)
Lemma load_shape entries members :
  (∀ e, e ∈ entries → ¬ cache_holds cacheJson e → is_Some (computeColor e)) →
  ∃ outs,
    Forall2 (λ e o, entry_outcome computeColor cacheJson e = Some o) entries outs
    ∧ load computeColor (Some entries) cacheJson members
      = Some (mkLoaded
                (mkLoadState
                   (foldl assign_node members (zip_with entry_node entries outs))
                   (existsb (λ e, negb (cache_hit cacheJson e)) entries)
                   outs)
                (if existsb (λ e, negb (cache_hit cacheJson e)) entries
                 then Some (saveNewJsonCache
                              (foldl assign_node members (zip_with entry_node entries outs)))
                 else None)).
Proof.
  intros Hc.
  destruct (load_entries_outcomes computeColor cacheJson entries
              (mkLoadState members false [])) as (outs & Hall & Hload).
  { intros e He Hmiss. apply Hc; [done|]. by apply cache_holds_miss. }
  exists outs. split; [done|]. unfold load. simpl. by rewrite Hload.
Qed.

Lemma zip_with_entry_node_lookup entries outs k q :
  Forall2 (λ e o, entry_outcome computeColor cacheJson e = Some o) entries outs →
  zip_with entry_node entries outs !! k = Some q →
  ∃ e o, entries !! k = Some e ∧ outs !! k = Some o
         ∧ entry_outcome computeColor cacheJson e = Some o ∧ q = entry_node e o.
Proof.
  intros Hall Hk. apply lookup_zip_with_Some in Hk as (e & o & -> & He & Ho).
  exists e, o. split; [done|]. split; [done|]. split; [|done].
  destruct (Forall2_lookup_l _ _ _ _ _ Hall He) as (o' & Ho' & Hout). congruence.
Qed.

Lemma zip_with_entry_node_at entries outs k e :
  Forall2 (λ e o, entry_outcome computeColor cacheJson e = Some o) entries outs →
  entries !! k = Some e →
  ∃ o, entry_outcome computeColor cacheJson e = Some o
       ∧ zip_with entry_node entries outs !! k = Some (entry_node e o).
Proof.
  intros Hall He. destruct (Forall2_lookup_l _ _ _ _ _ Hall He) as (o & Ho & Hout).
  exists o. split; [done|]. apply lookup_zip_with_Some. by exists e, o.
Qed.

(** The node of an entry that is the last one of its [BlockID]. *)
Lemma load_last_entry entries members i e :
  (∀ e, e ∈ entries → ¬ cache_holds cacheJson e → is_Some (computeColor e)) →
  entries !! i = Some e →
  (∀ k e', (i < k)%nat → entries !! k = Some e' → entry_id e' ≠ entry_id e) →
  ∃ out src color,
    load computeColor (Some entries) cacheJson members = Some out
    ∧ entry_outcome computeColor cacheJson e = Some (src, color)
    ∧ blockColors (state out) !! entry_id e = Some (color, GetCrc32 e).
Proof.
  intros Hc Hi Hlast. destruct (load_shape entries members Hc) as (outs & Hall & ->).
  destruct (zip_with_entry_node_at _ _ _ _ Hall Hi) as ([src color] & Hout & Hni).
  eexists _, src, color. split; [done|]. split; [done|]. simpl.
  destruct (foldl_assign_lookup (zip_with entry_node entries outs) members (entry_id e))
    as [[Hno _]|(j & p & Hj & Hp & Hlater & Hl)].
  { by destruct (Hno i _ Hni). }
  destruct (zip_with_entry_node_lookup _ _ _ _ Hall Hj) as (e' & o' & He' & Ho' & Hout' & ->).
  simpl in Hp. destruct (Nat.lt_trichotomy i j) as [Hlt|[<-|Hgt]].
  - by destruct (Hlast j e' Hlt He').
  - assert (e' = e) as -> by congruence.
    assert (o' = (src, color)) as -> by congruence. done.
  - by destruct (Hlater i _ Hgt Hni).
Qed.

End load_more.

(** X7. [load] only assigns: a node of the colour map whose [BlockID] no
    entry of the archive is filed under is left as it was, and the
    [BlockID]s of the map after the load are those it had before together
    with those of the entries.  Nothing is ever removed. *)
Theorem load_keeps_other_nodes
    (computeColor : ZipLib.ZipArchiveEntry → option SDL.SDL_Color)
    (entries : list ZipLib.ZipArchiveEntry) (cacheJson : json11.Json)
    (members : gmap blocks.BlockID (SDL.SDL_Color * Z)) :
  (∀ e, e ∈ entries → ¬ cache_holds cacheJson e → is_Some (computeColor e)) →
  ∃ out,
    BlockColors.load computeColor (Some entries) cacheJson members = Some out
    ∧ (∀ b, (∀ e, e ∈ entries → entry_id e ≠ b) →
            BlockColors.blockColors (BlockColors.state out) !! b = members !! b)
    ∧ (∀ b, is_Some (BlockColors.blockColors (BlockColors.state out) !! b)
            ↔ is_Some (members !! b) ∨ ∃ e, e ∈ entries ∧ entry_id e = b).
Proof.
  intros Hc. destruct (load_shape computeColor cacheJson entries members Hc)
    as (outs & Hall & ->).
  eexists. split; [done|]. simpl.
  set (nodes := zip_with entry_node entries outs).
  assert (∀ b, (∀ e, e ∈ entries → entry_id e ≠ b) →
               foldl assign_node members nodes !! b = members !! b) as Hkeep.
  { intros b Hb. destruct (foldl_assign_lookup nodes members b)
      as [[_ Hl]|(j & p & Hj & Hp & _ & _)]; [done|].
    destruct (zip_with_entry_node_lookup _ _ _ _ _ _ Hall Hj) as (e & o & He & _ & _ & ->).
    destruct (Hb e); [|done]. by apply list_elem_of_lookup_2 in He. }
  split; [exact Hkeep|]. intros b. split.
  - intros Hsome.
    destruct (foldl_assign_lookup nodes members b)
      as [[_ Hl]|(j & p & Hj & Hp & _ & _)].
    + left. by rewrite <- Hl.
    + right. destruct (zip_with_entry_node_lookup _ _ _ _ _ _ Hall Hj)
        as (e & o & He & _ & _ & ->).
      exists e. split; [|done]. by apply list_elem_of_lookup_2 in He.
  - intros [Hm|(e & He & <-)].
    + destruct (foldl_assign_lookup nodes members b)
        as [[_ Hl]|(j & p & _ & _ & _ & Hl)]; rewrite Hl; [done|by eexists].
    + apply list_elem_of_lookup_1 in He as [i Hi].
      destruct (zip_with_entry_node_at _ _ _ _ _ _ Hall Hi) as (o & _ & Hni).
      destruct (foldl_assign_lookup nodes members (entry_id e))
        as [[Hno _]|(j & p & _ & _ & _ & Hl)]; [|rewrite Hl; by eexists].
      by destruct (Hno i _ Hni).
Qed.

Lemma load_keeps_other_nodes_witness :
  ∃ out,
    BlockColors.load ModePolicy.computeColor (Some two_textures) half_cache
      (<[blocks.mkBlockID 7 0 := (SDL.mkColor 1 2 3 255, 9)]> ∅) = Some out
    ∧ BlockColors.blockColors (BlockColors.state out) !! blocks.mkBlockID 7 0
      = Some (SDL.mkColor 1 2 3 255, 9).
Proof.
  destruct (load_keeps_other_nodes ModePolicy.computeColor two_textures half_cache
              (<[blocks.mkBlockID 7 0 := (SDL.mkColor 1 2 3 255, 9)]> ∅)
              two_textures_computable) as (out & Hload & Hkeep & _).
  exists out. split; [exact Hload|].
  rewrite (Hkeep (blocks.mkBlockID 7 0)); [reflexivity|].
  intros e He. unfold two_textures in He.
  apply elem_of_cons in He as [->|He]; [by vm_compute|].
  apply elem_of_cons in He as [->|He]; [by vm_compute|].
  by apply elem_of_nil in He.
Defined.

(** X8. After [load], [getBlockColor(id, meta)] is the colour of the
    texture ["<id>-<meta>.<ext>"] of the archive (the last one, if several
    entries are filed under that [BlockID]): the colour the cache stores
    for it when the cache holds its checksum, the colour [computeColor]
    gives for it otherwise. *)
Theorem getBlockColor_after_load
    (computeColor : ZipLib.ZipArchiveEntry → option SDL.SDL_Color)
    (entries : list ZipLib.ZipArchiveEntry) (cacheJson : json11.Json)
    (members : gmap blocks.BlockID (SDL.SDL_Color * Z))
    (i : nat) (n m crc : Z) (ext : string) (img : ZipLib.Image) :
  (∀ e, e ∈ entries → ¬ cache_holds cacheJson e → is_Some (computeColor e)) →
  0 <= n < 2 ^ 31 → 0 <= m < 2 ^ 31 →
  let e := ZipLib.mkEntry (show_int n +:+ String "-" (show_int m +:+ String "." ext)) crc img in
  entries !! i = Some e →
  (∀ k e', (i < k)%nat → entries !! k = Some e' → entry_id e' ≠ blocks.mkBlockID n m) →
  ∃ out,
    BlockColors.load computeColor (Some entries) cacheJson members = Some out
    ∧ (cache_holds cacheJson e →
       BlockColors.getBlockColor (BlockColors.blockColors (BlockColors.state out)) n m
       = cached_color cacheJson e)
    ∧ (¬ cache_holds cacheJson e →
       computeColor e
       = Some (BlockColors.getBlockColor
                 (BlockColors.blockColors (BlockColors.state out)) n m)).
Proof.
  intros Hc Hn Hm e Hi Hlast.
  destruct (cache_key_canonical n m ext crc img Hn Hm) as (_ & Hid & _). fold e in Hid.
  rewrite <- Hid in Hlast.
  destruct (load_last_entry computeColor cacheJson entries members i e Hc Hi Hlast)
    as (out & src & color & Hload & Hout & Hnode).
  exists out. split; [done|].
  assert (BlockColors.getBlockColor (BlockColors.blockColors (BlockColors.state out)) n m
          = color) as ->.
  { unfold BlockColors.getBlockColor. rewrite !to_int_small by lia.
    rewrite <- Hid, Hnode. done. }
  unfold entry_outcome in Hout. split.
  - intros Hh. apply cache_holds_hit in Hh. rewrite Hh in Hout. congruence.
  - intros Hmiss. apply cache_holds_miss in Hmiss. rewrite Hmiss in Hout.
    destruct (computeColor e) as [c|]; [|done]. simpl in Hout. congruence.
Qed.

Lemma getBlockColor_after_load_witness :
  ∃ out,
    BlockColors.load ModePolicy.computeColor (Some two_textures) half_cache ∅ = Some out
    ∧ (¬ cache_holds half_cache (ZipLib.mkEntry "35-14.png" 7 grey_pixel) →
       ModePolicy.computeColor (ZipLib.mkEntry "35-14.png" 7 grey_pixel)
       = Some (BlockColors.getBlockColor
                 (BlockColors.blockColors (BlockColors.state out)) 35 14)).
Proof.
  destruct (getBlockColor_after_load ModePolicy.computeColor two_textures half_cache ∅
              1%nat 35 14 7 "png" grey_pixel two_textures_computable
              ltac:(lia) ltac:(lia) eq_refl) as (out & Hload & _ & Hmiss).
  - intros k e' Hk He'. destruct k as [|[|k]]; [lia|lia|]. by vm_compute in He'.
  - exists out. split; [exact Hload|exact Hmiss].
Defined.

(** ** RegionFileWorld: the constructor and the size *)

Section region_more.

Import RegionFileWorld.

Implicit Types (regions : RegionMap) (names : list string) (c : RegionCoord).

Lemma scan_steps rootpath names :
  scan rootpath (Some names) = Some (foldl (scan_step rootpath) ∅ names).
Proof. reflexivity. Qed.

(** The loop binds a coordinate to the file of the last name that parses
    to it, and leaves it alone when no name does. *)
Lemma foldl_scan_step_lookup rootpath names regions c :
  ((∀ j name, names !! j = Some name → parseFilename name ≠ (true, c))
   ∧ foldl (scan_step rootpath) regions names !! c = regions !! c)
  ∨ ∃ j name, names !! j = Some name ∧ parseFilename name = (true, c)
              ∧ (∀ k name', (j < k)%nat → names !! k = Some name' →
                            parseFilename name' ≠ (true, c))
              ∧ foldl (scan_step rootpath) regions names !! c
                = Some (mkRegionFile (rootpath +:+ "/region/" +:+ name)).
Proof.
  revert regions. induction names as [|name names IH]; intros regions.
  - left. split; [|done]. intros j name Hj. by rewrite lookup_nil in Hj.
  - simpl. destruct (IH (scan_step rootpath regions name))
      as [[Hno Hl]|(j & name' & Hj & Hp & Hlast & Hl)].
    + destruct (decide (parseFilename name = (true, c))) as [E|NE].
      * right. exists 0%nat, name. split; [done|]. split; [done|]. split.
        -- intros [|k] q Hk Hq; [lia|]. by apply (Hno k).
        -- rewrite Hl. unfold scan_step. rewrite E. simpl. apply lookup_insert_eq.
      * left. split.
        -- intros [|j] q Hj; simpl in Hj; [by injection Hj as <-|by apply (Hno j)].
        -- rewrite Hl. unfold scan_step.
           destruct (parseFilename name) as [[] c'] eqn:E; simpl; [|done].
           apply lookup_insert_ne. congruence.
    + right. exists (S j), name'. split; [done|]. split; [done|]. split; [|done].
      intros [|k] q Hk Hq; [lia|]. apply (Hlast k); [lia|done].
Qed.

(** The four bounds [getSize] scans for, whatever their size. *)
Lemma getSize_bounds regions :
  ∃ minx minz maxx maxz,
    getSize regions = (to_int (to_int (32 * 16) * to_int (maxx + minx)),
                       to_int (to_int (32 * 16) * to_int (maxz + minz)))
    ∧ (∀ c, is_Some (regions !! c) → minx <= c.1 <= maxx ∧ minz <= c.2 <= maxz)
    ∧ (minx = 0 ∨ ∃ c, is_Some (regions !! c) ∧ c.1 = minx)
    ∧ (minz = 0 ∨ ∃ c, is_Some (regions !! c) ∧ c.2 = minz)
    ∧ (maxx = 0 ∨ ∃ c, is_Some (regions !! c) ∧ c.1 = maxx)
    ∧ (maxz = 0 ∨ ∃ c, is_Some (regions !! c) ∧ c.2 = maxz)
    ∧ minx <= 0 <= maxx ∧ minz <= 0 <= maxz.
Proof.
  unfold getSize. rewrite foldl_bounds_step.
  set (l := regionMap regions).
  assert (∀ p, p ∈ l → is_Some (regions !! p.1)) as Hin.
  { intros [c f] Hp. apply elem_of_regionMap in Hp. by exists f. }
  assert (∀ c, is_Some (regions !! c) → ∃ p, p ∈ l ∧ p.1 = c) as Hout.
  { intros c [f Hf]. exists (c, f). split; [by apply elem_of_regionMap|done]. }
  pose proof (foldl_min_spec ((λ p, p.1.1) <$> l) 0) as (Hx1 & Hx2 & Hx3).
  pose proof (foldl_min_spec ((λ p, p.1.2) <$> l) 0) as (Hz1 & Hz2 & Hz3).
  pose proof (foldl_max_spec ((λ p, p.1.1) <$> l) 0) as (HX1 & HX2 & HX3).
  pose proof (foldl_max_spec ((λ p, p.1.2) <$> l) 0) as (HZ1 & HZ2 & HZ3).
  set (minx := foldl Z.min 0 ((λ p, p.1.1) <$> l)) in *.
  set (minz := foldl Z.min 0 ((λ p, p.1.2) <$> l)) in *.
  set (maxx := foldl Z.max 0 ((λ p, p.1.1) <$> l)) in *.
  set (maxz := foldl Z.max 0 ((λ p, p.1.2) <$> l)) in *.
  assert (∀ (sel : (Z * Z) * RegionFile → Z) p, p ∈ l → sel p ∈ sel <$> l)
    as Hmap by (intros sel p Hp; apply list_elem_of_fmap; by exists p).
  assert (∀ (sel : (Z * Z) * RegionFile → Z) (proj : Z * Z → Z) m,
            (∀ p, sel p = proj p.1) → (m = 0 ∨ m ∈ sel <$> l) →
            m = 0 ∨ ∃ c, is_Some (regions !! c) ∧ proj c = m) as Hdom.
  { intros sel proj m Hproj [?|Hm]; [by left|right].
    apply list_elem_of_fmap in Hm as (p & -> & Hp).
    exists p.1. split; [by apply Hin|by rewrite Hproj]. }
  exists minx, minz, maxx, maxz. split; [done|]. split.
  { intros c Hc. destruct (Hout c Hc) as (p & Hp & <-).
    pose proof (Hx2 _ (Hmap (λ p, p.1.1) p Hp)). pose proof (Hz2 _ (Hmap (λ p, p.1.2) p Hp)).
    pose proof (HX2 _ (Hmap (λ p, p.1.1) p Hp)). pose proof (HZ2 _ (Hmap (λ p, p.1.2) p Hp)).
    simpl in *. lia. }
  split; [by apply (Hdom (λ p, p.1.1) fst)|].
  split; [by apply (Hdom (λ p, p.1.2) snd)|].
  split; [by apply (Hdom (λ p, p.1.1) fst)|].
  split; [by apply (Hdom (λ p, p.1.2) snd)|].
  lia.
Qed.

End region_more.

(** X9. The constructor files every directory entry whose name parses
    under its coordinates, the last name winning when several parse to
    the same coordinates, and skips every other entry: after the scan a
    coordinate is bound exactly when some name parses to it, and then to
    the path of the last such name. *)
Theorem scan_regions (rootpath : string) (names : list string) :
  ∃ regions,
    RegionFileWorld.scan rootpath (Some names) = Some regions
    ∧ (∀ c f, regions !! c = Some f ↔
         ∃ j name, names !! j = Some name
                   ∧ RegionFileWorld.parseFilename name = (true, c)
                   ∧ (∀ k name', (j < k)%nat → names !! k = Some name' →
                                 RegionFileWorld.parseFilename name' ≠ (true, c))
                   ∧ f = RegionFileWorld.mkRegionFile (rootpath +:+ "/region/" +:+ name))
    ∧ (∀ name, (RegionFileWorld.parseFilename name).1 = false →
         RegionFileWorld.scan rootpath (Some (names ++ [name])) = Some regions).
Proof.
  exists (foldl (scan_step rootpath) ∅ names). split; [apply scan_steps|]. split.
  - intros c f. destruct (foldl_scan_step_lookup rootpath names ∅ c)
      as [[Hno Hl]|(j & name & Hj & Hp & Hlast & Hl)]; rewrite Hl.
    + rewrite lookup_empty. split; [done|]. intros (j & name & Hj & Hp & _). by destruct (Hno j name).
    + split.
      * intros [= <-]. by exists j, name.
      * intros (j' & name' & Hj' & Hp' & Hlast' & ->).
        destruct (Nat.lt_trichotomy j j') as [Hlt|[<-|Hgt]].
        -- by destruct (Hlast j' name' Hlt Hj').
        -- congruence.
        -- by destruct (Hlast' j name Hgt Hj).
  - intros name Hbad. rewrite scan_steps, foldl_app. simpl. unfold scan_step at 1.
    by rewrite Hbad.
Qed.

(** X10. A file name [<prefix>.<x>.<z>.<suffix>], with [x] and [z]
    printed in decimal, negative or not, parses to the coordinates
    [(x, z)]: what the game names a region file is read back. *)
Theorem parseFilename_decimal (pre rest : string) (x z : Z) :
  occurs "." pre = false →
  - 2 ^ 31 <= x < 2 ^ 31 → - 2 ^ 31 <= z < 2 ^ 31 →
  size (pre +:+ String "." (show_int x +:+ String "." (show_int z +:+ String "." rest))) < npos →
  RegionFileWorld.parseFilename
    (pre +:+ String "." (show_int x +:+ String "." (show_int z +:+ String "." rest)))
  = (true, (x, z)).
Proof.
  intros Hpre Hx Hz Hsz.
  rewrite parseFilename_three_dots by (done || apply show_int_no_dot).
  rewrite <- (app_nil_r_str (show_int x)), <- (app_nil_r_str (show_int z)).
  by rewrite !atoi_show_int by (done || by left).
Qed.

Lemma parseFilename_decimal_witness :
  RegionFileWorld.parseFilename "r.-12.7.mca" = (true, (-12, 7)).
Proof.
  apply (parseFilename_decimal "r" "mca" (-12) 7); [reflexivity|lia|lia|by vm_compute].
Defined.

(** X11. [getSize] measures from the origin: when no loaded region has a
    negative coordinate the size is [32*16] times the largest [x] and the
    largest [z], wherever the smallest lie, and loading the region
    [(0,0)] in addition never changes the size. *)
Theorem getSize_from_origin
    (regions : gmap (Z * Z) RegionFileWorld.RegionFile) (f : RegionFileWorld.RegionFile) :
  (∀ c, is_Some (regions !! c) → 0 <= c.1 <= 2 ^ 20 ∧ 0 <= c.2 <= 2 ^ 20) →
  (∃ maxx maxz,
     RegionFileWorld.getSize regions = (32 * 16 * maxx, 32 * 16 * maxz)
     ∧ (∀ c, is_Some (regions !! c) → c.1 <= maxx ∧ c.2 <= maxz)
     ∧ (maxx = 0 ∨ ∃ c, is_Some (regions !! c) ∧ c.1 = maxx)
     ∧ (maxz = 0 ∨ ∃ c, is_Some (regions !! c) ∧ c.2 = maxz))
  ∧ RegionFileWorld.getSize (<[(0, 0) := f]> regions) = RegionFileWorld.getSize regions.
Proof.
  intros Hrange.
  assert (∀ rs : gmap (Z * Z) RegionFileWorld.RegionFile,
            (∀ c, is_Some (rs !! c) → 0 <= c.1 <= 2 ^ 20 ∧ 0 <= c.2 <= 2 ^ 20) →
            ∃ maxx maxz,
              RegionFileWorld.getSize rs = (32 * 16 * maxx, 32 * 16 * maxz)
              ∧ (∀ c, is_Some (rs !! c) → c.1 <= maxx ∧ c.2 <= maxz)
              ∧ (maxx = 0 ∨ ∃ c, is_Some (rs !! c) ∧ c.1 = maxx)
              ∧ (maxz = 0 ∨ ∃ c, is_Some (rs !! c) ∧ c.2 = maxz)
              ∧ 0 <= maxx ∧ 0 <= maxz) as Hquad.
  { intros rs Hrs.
    destruct (getSize_bounds rs)
      as (minx & minz & maxx & maxz & -> & Hb & Hmx & Hmz & HMx & HMz & B).
    assert (minx = 0) as ->.
    { destruct Hmx as [?|(c & Hc & <-)]; [done|]. pose proof (Hrs c Hc). lia. }
    assert (minz = 0) as ->.
    { destruct Hmz as [?|(c & Hc & <-)]; [done|]. pose proof (Hrs c Hc). lia. }
    assert (maxx <= 2 ^ 20).
    { destruct HMx as [->|(c & Hc & <-)]; [lia|]. pose proof (Hrs c Hc). lia. }
    assert (maxz <= 2 ^ 20).
    { destruct HMz as [->|(c & Hc & <-)]; [lia|]. pose proof (Hrs c Hc). lia. }
    exists maxx, maxz. split.
    { rewrite to_int_512, !Z.add_0_r. rewrite (to_int_small maxx), (to_int_small maxz) by lia.
      rewrite !to_int_small by lia. done. }
    split; [intros c Hc; pose proof (Hb c Hc); lia|]. split; [done|]. split; [done|]. lia. }
  split.
  { destruct (Hquad regions Hrange) as (maxx & maxz & E & Hb & HMx & HMz & _).
    by exists maxx, maxz. }
  assert (∀ c, is_Some ((<[(0, 0) := f]> regions) !! c) ↔ c = (0, 0) ∨ is_Some (regions !! c))
    as Hdom.
  { intros c. rewrite lookup_insert_is_Some. split.
    - intros [<-|[_ ?]]; [by left|by right].
    - intros [->|?]; [by left|]. destruct (decide ((0, 0) = c)); [by left|by right]. }
  assert (∀ c, is_Some ((<[(0, 0) := f]> regions) !! c) →
               0 <= c.1 <= 2 ^ 20 ∧ 0 <= c.2 <= 2 ^ 20) as Hrange'.
  { intros c Hc. apply Hdom in Hc as [->|Hc]; [simpl; lia|by apply Hrange]. }
  destruct (Hquad regions Hrange) as (maxx & maxz & -> & Hb & HMx & HMz & Hx0 & Hz0).
  destruct (Hquad _ Hrange') as (maxx' & maxz' & -> & Hb' & HMx' & HMz' & Hx0' & Hz0').
  assert (maxx' = maxx) as ->.
  { apply Z.le_antisymm.
    - destruct HMx' as [->|(c & Hc & <-)]; [done|].
      apply Hdom in Hc as [->|Hc]; [done|]. by apply Hb.
    - destruct HMx as [->|(c & Hc & <-)]; [done|].
      apply (Hb' c), Hdom. by right. }
  assert (maxz' = maxz) as ->; [|done].
  apply Z.le_antisymm.
  - destruct HMz' as [->|(c & Hc & <-)]; [done|].
    apply Hdom in Hc as [->|Hc]; [done|]. by apply Hb.
  - destruct HMz as [->|(c & Hc & <-)]; [done|].
    apply (Hb' c), Hdom. by right.
Qed.

Lemma getSize_from_origin_witness :
  RegionFileWorld.getSize
    (<[(0, 0) := RegionFileWorld.mkRegionFile "r.0.0.mca"]>
       (<[(2, 3) := RegionFileWorld.mkRegionFile "r.2.3.mca"]> ∅))
  = RegionFileWorld.getSize (<[(2, 3) := RegionFileWorld.mkRegionFile "r.2.3.mca"]> ∅).
Proof.
  refine (proj2 (getSize_from_origin
                   (<[(2, 3) := RegionFileWorld.mkRegionFile "r.2.3.mca"]> ∅)
                   (RegionFileWorld.mkRegionFile "r.0.0.mca") _)).
  intros c [g Hc]. apply lookup_insert_Some in Hc as [[<- _]|[_ Hc]]; [simpl; lia|].
  by rewrite lookup_empty in Hc.
Defined.

(** ** computeColor, the most used bucket: what it returns *)

Section mode_more.

Import SDL ZipLib ModePolicy.

Implicit Types (px : list (Z * Z * Z * Z)) (m : list (SDL_Color * Z)) (k : SDL_Color).

Lemma count_pixels_cons p px m :
  count_pixels (buffer (p :: px)) m
  = m' ← (if negb (p.2 =? SDL_ALPHA_TRANSPARENT)
          then count_color m (pixel_color p) else Some m);
    count_pixels (buffer px) m'.
Proof. by destruct p as [[[r g] b] a]. Qed.

(** The loop does not touch the map at a transparent pixel. *)
Lemma count_pixels_visible px m :
  count_pixels (buffer px) m = count_pixels (buffer (visible px)) m.
Proof.
  revert m. induction px as [|p px IH]; intros m; [done|].
  destruct (Z.eq_dec p.2 SDL_ALPHA_TRANSPARENT) as [E|NE].
  - rewrite visible_cons_clear, count_pixels_cons by done.
    rewrite (proj2 (Z.eqb_eq _ _) E). cbn [negb mbind option_bind]. apply IH.
  - rewrite visible_cons_opaque, !count_pixels_cons by done.
    destruct (count_color m (pixel_color p)) as [m'|], (negb (p.2 =? SDL_ALPHA_TRANSPARENT));
      cbn [mbind option_bind]; (done || apply IH).
Qed.

Lemma SimilarColorCompare_sym (x y : SDL_Color) :
  SimilarColorCompare x y = SimilarColorCompare y x.
Proof.
  unfold SimilarColorCompare.
  by rewrite <- (Z.abs_opp (r x - r y)), <- (Z.abs_opp (g x - g y)),
             <- (Z.abs_opp (b x - b y)), !Z.opp_sub_distr, !Z.add_opp_l.
Qed.

End mode_more.

(** X12. The first revision of [computeColor] looks only at the pixels
    that are not fully transparent, in their order: the transparent
    pixels, and the width and the height of the image, do not enter the
    result.  On an image without a visible pixel the map of counts stays
    empty and the iterator that [max_element] returns is its end, which
    is dereferenced. *)
Theorem mode_ignores_transparent (name name' : string) (crc crc' w h w' h' : Z)
    (px : list (Z * Z * Z * Z)) :
  ModePolicy.computeColor (ZipLib.mkEntry name crc (ZipLib.mkImage w h (buffer px)))
  = ModePolicy.computeColor
      (ZipLib.mkEntry name' crc' (ZipLib.mkImage w' h' (buffer (visible px))))
  ∧ (visible px = [] →
     ModePolicy.computeColor (ZipLib.mkEntry name crc (ZipLib.mkImage w h (buffer px)))
     = None).
Proof.
  unfold ModePolicy.computeColor. cbn [ZipLib.decoded ZipLib.pixels].
  rewrite count_pixels_visible. split; [done|]. by intros ->.
Qed.

(** X14. When the first pixel is visible and no later visible pixel is
    similar to it, all visible pixels are counted on the node of the
    first, whatever they look like, and the first revision of
    [computeColor] returns the colour of the first pixel. *)
Theorem mode_first_collects (name : string) (crc w h : Z)
    (p0 : Z * Z * Z * Z) (px : list (Z * Z * Z * Z)) :
  p0.2 ≠ SDL.SDL_ALPHA_TRANSPARENT →
  (∀ p, p ∈ visible px →
        ModePolicy.SimilarColorCompare (pixel_color p0) (pixel_color p) = false) →
  ModePolicy.count_pixels (buffer (p0 :: px)) []
  = Some [(pixel_color p0, Cxx.to_unsigned (1 + Z.of_nat (length (visible px))))]
  ∧ ModePolicy.computeColor
      (ZipLib.mkEntry name crc (ZipLib.mkImage w h (buffer (p0 :: px))))
    = Some (pixel_color p0).
Proof.
  intros Hp0 Hdis.
  assert (ModePolicy.count_pixels (buffer (p0 :: px)) []
          = Some [(pixel_color p0, Cxx.to_unsigned (1 + Z.of_nat (length (visible px))))])
    as Hcount.
  { rewrite count_pixels_cons.
    destruct (Z.eqb_spec p0.2 SDL.SDL_ALPHA_TRANSPARENT) as [?|_]; [done|]. cbn [negb].
    change (ModePolicy.count_color [] (pixel_color p0))
      with (Some [(pixel_color p0, Cxx.to_unsigned 1)]).
    cbn [mbind option_bind]. apply count_pixels_dissimilar. apply Forall_forall.
    intros [[[r g] b] a] Hp Ha.
    assert (ModePolicy.SimilarColorCompare (pixel_color p0) (SDL.mkColor r g b a) = false)
      as Hd.
    { apply (Hdis (r, g, b, a)). unfold visible. by apply list_elem_of_filter. }
    split; [done|]. by rewrite SimilarColorCompare_sym. }
  split; [done|].
  unfold ModePolicy.computeColor. cbn [ZipLib.decoded ZipLib.pixels]. by rewrite Hcount.
Qed.

Lemma mode_first_collects_witness :
  ModePolicy.computeColor
    (ZipLib.mkEntry "1-0.png" 5 (ZipLib.mkImage 3 1 (buffer black_grey_grey)))
  = Some (SDL.mkColor 0 0 0 255).
Proof.
  refine (proj2 (mode_first_collects "1-0.png" 5 3 1 (0, 0, 0, 255)
                   [(100, 100, 100, 255); (100, 100, 100, 255)] _ _)).
  - by vm_compute.
  - intros p Hp. change (visible _) with [(100, 100, 100, 255); (100, 100, 100, 255)] in Hp.
    apply elem_of_cons in Hp as [->|Hp]; [reflexivity|].
    apply list_elem_of_singleton in Hp as ->. reflexivity.
Defined.

(** ** The cache file: what is written is read back *)

Section json_more.

Import SDL json11 ZipLib BlockColors.

Implicit Types (s t k tail : string) (c d : ascii) (n : Z)
  (it : BlockID * (SDL_Color * Z)) (its rest : list (BlockID * (SDL_Color * Z))).

Lemma parse_string_plain k t :
  occurs json11.dquote k = false → occurs backslash k = false →
  parse_string (k +:+ String json11.dquote t) = Some (k, t).
Proof.
  induction k as [|c k IH]; simpl; intros Hq Hb; [done|].
  apply orb_false_iff in Hq as [Hq1 Hq2]. apply orb_false_iff in Hb as [Hb1 Hb2].
  by rewrite Hq1, Hb1, IH.
Qed.

Lemma parse_digits_stop s c t acc :
  all_digits s = true → is_digit c = false →
  parse_digits (s +:+ String c t) acc = (atoi_digits s acc, String c t).
Proof.
  revert acc. induction s as [|x s IH]; intros acc Hs Hc; simpl.
  - by rewrite Hc.
  - simpl in Hs. apply andb_true_iff in Hs as [Hx Hs]. rewrite Hx. by apply IH.
Qed.

(** The first digit that [operator<<] prints for a positive number is
    not a zero. *)
Lemma dec_digits_leading fuel n acc :
  0 < n < 10 ^ Z.of_nat fuel →
  ∃ c s, dec_digits fuel n acc = String c s ∧ is_digit c = true
         ∧ Ascii.eqb c "0" = false.
Proof.
  revert n acc. induction fuel as [|f IH]; intros n acc Hn.
  - simpl in Hn. lia.
  - cbn [dec_digits]. destruct (Z.ltb_spec n 10) as [Hlt|Hge].
    + eexists _, _. split; [done|].
      rewrite Z.mod_small by lia.
      destruct (digit_char_spec n) as [Hd Hv]; [lia|]. split; [done|].
      destruct (Ascii.eqb_spec (digit_char n) "0") as [E|]; [|done].
      rewrite E in Hv. vm_compute in Hv. lia.
    + apply IH. rewrite Nat2Z.inj_succ, Z.pow_succ_r in Hn by lia. split.
      * apply Z.div_str_pos. lia.
      * apply Z.div_lt_upper_bound; lia.
Qed.

Lemma parse_unsigned_show n c t :
  0 <= n → is_digit c = false → ends_integer (String c t) = true →
  parse_unsigned (show_unsigned n +:+ String c t) = Some (n, String c t).
Proof.
  intros Hn Hc He. destruct (Z.eq_dec n 0) as [->|Hpos].
  - change (show_unsigned 0) with "0"%string. cbn [String.append parse_unsigned].
    change (Ascii.eqb "0" "0") with true. cbn iota. by rewrite Hc, He.
  - destruct (dec_digits_leading (S (Z.to_nat (Z.log2 n))) n EmptyString)
      as (d & s & E & Hd & Hz); [split; [lia|by apply show_fuel]|].
    fold (show_unsigned n) in E.
    pose proof (parse_digits_stop (show_unsigned n) c t 0
                  (show_unsigned_digits n Hn) Hc) as Hp.
    destruct (show_unsigned_numeral n Hn) as [_ Hv]. unfold numeral_value in Hv.
    rewrite Hv in Hp. rewrite E in Hp |- *. cbn [String.append] in Hp |- *.
    unfold parse_unsigned. rewrite Hz, Hd, Hp. by rewrite He.
Qed.

Lemma parse_number_show n c t :
  is_digit c = false → ends_integer (String c t) = true →
  parse_number (show_int n +:+ String c t) = Some (JNumber n, String c t).
Proof.
  intros Hc He. destruct (Z.lt_ge_cases n 0) as [Hneg|Hpos].
  - rewrite show_int_neg by done. cbn [String.append parse_number].
    change (Ascii.eqb "-" "-") with true. cbn iota.
    rewrite parse_unsigned_show by (done || lia). cbn [mbind option_bind].
    by rewrite Z.opp_involutive.
  - rewrite show_int_nonneg by done.
    pose proof (parse_unsigned_show n c t Hpos Hc He) as Hp.
    destruct (show_unsigned_cons n Hpos) as (d & s & E & Hd).
    rewrite E in Hp |- *. cbn [String.append] in Hp |- *. unfold parse_number.
    rewrite (is_digit_neq d "-") by done. by rewrite Hp.
Qed.

Lemma is_digit_not_ws c : is_digit c = true → is_ws c = false.
Proof.
  unfold is_digit, is_ws. intros H. apply andb_true_iff in H as [H1 H2].
  apply Z.leb_le in H1. apply Z.leb_le in H2.
  repeat (apply orb_false_iff; split); apply Z.eqb_neq; lia.
Qed.

(** A number at the place of a value. *)
Lemma parse_json_show fuel n c t :
  is_digit c = false → ends_integer (String c t) = true →
  parse_json (S fuel) (show_int n +:+ String c t) = Some (JNumber n, String c t).
Proof.
  intros Hc He. rewrite <- (parse_number_show n c t Hc He).
  destruct (show_int_shape n) as (sign & digits & E & Hnum & Hcase).
  destruct (numeral_cons digits Hnum) as (d & s & -> & Hd).
  destruct Hcase as [(_ & -> & _)|(_ & -> & _)]; rewrite E; cbn [String.append parse_json].
  - cbn [skip_ws]. rewrite (is_digit_not_ws d Hd).
    rewrite (is_digit_neq d "{"), (is_digit_neq d "["), (is_digit_neq d json11.dquote)
      by done.
    by rewrite Hd, orb_true_r.
  - done.
Qed.

(** One member of an object: a key without escapes, the colon, a value. *)
Lemma parse_members_step (value : string → option (Json * string)) (fuel : nat)
    s k s3 (data : gmap string Json) :
  skip_ws s = String json11.dquote (k +:+ String json11.dquote (String ":" s3)) →
  occurs json11.dquote k = false → occurs backslash k = false →
  parse_members value (S fuel) s data
  = '(v, s4) ← value s3;
    match skip_ws s4 with
    | String c4 s5 =>
        if Ascii.eqb c4 "}" then Some (JObject (<[k := v]> data), s5)
        else if Ascii.eqb c4 "," then parse_members value fuel s5 (<[k := v]> data)
        else None
    | EmptyString => None
    end.
Proof.
  intros Hs Hq Hb. cbn [parse_members]. rewrite Hs.
  change (Ascii.eqb json11.dquote json11.dquote) with true. cbn [negb].
  rewrite parse_string_plain by done. cbn [mbind option_bind].
  change (skip_ws (String ":" s3)) with (String ":" s3).
  change (Ascii.eqb ":" ":") with true. cbn [negb].
  destruct (value s3) as [[v s4]|]; done.
Qed.

Lemma parse_json_object fuel s1 s2 :
  skip_ws s1 = String json11.dquote s2 →
  parse_json (S fuel) (String "{" s1)
  = parse_members (parse_json fuel) (String.length s1) s1 ∅.
Proof.
  intros Hs. cbn [parse_json]. change (skip_ws (String "{" s1)) with (String "{" s1).
  change (Ascii.eqb "{" "{") with true. cbn iota. by rewrite Hs.
Qed.

Lemma parse_json_node fuel it tail :
  parse_json (S (S fuel)) (node_text it tail) = Some (node_json it, tail).
Proof.
  unfold node_text. erewrite parse_json_object by reflexivity.
  cbn [String.length String.append].
  erewrite (parse_members_step _ _ _ "crc"); [|reflexivity|reflexivity|reflexivity].
  rewrite parse_json_show by reflexivity. cbn [mbind option_bind].
  change (skip_ws (String "," ?x)) with (String "," x).
  change (Ascii.eqb "," "}") with false. change (Ascii.eqb "," ",") with true. cbn iota.
  erewrite (parse_members_step _ _ _ "color"); [|reflexivity|reflexivity|reflexivity].
  rewrite parse_json_show by reflexivity. cbn [mbind option_bind].
  reflexivity.
Qed.

Lemma cache_line_app it last tail :
  cache_line it last +:+ tail
  = String tab (String json11.dquote
      (BlockID_to_string it.1 +:+ String json11.dquote (String ":"
         (node_text it ((if last then EmptyString else ",") +:+ String newline tail))))).
Proof.
  unfold cache_line, cat, node_text. cbn [foldr String.append].
  rewrite !app_assoc_str. cbn [String.append]. rewrite !app_assoc_str.
  cbn [String.append]. rewrite !app_assoc_str. by destruct last.
Qed.

Lemma occurs_show_int c n :
  is_digit c = false → Ascii.eqb "-" c = false → occurs c (show_int n) = false.
Proof.
  intros Hc Hm. destruct (show_int_shape n) as (sign & digits & -> & [Hd _] & Hcase).
  rewrite occurs_app, (all_digits_occurs c digits) by done.
  destruct Hcase as [(_ & -> & _)|(_ & -> & _)]; cbn [occurs]; [done|].
  by rewrite Hm.
Qed.

Lemma occurs_BlockID_to_string c x :
  is_digit c = false → Ascii.eqb "-" c = false → occurs c (BlockID_to_string x) = false.
Proof.
  intros Hc Hm. unfold BlockID_to_string. rewrite occurs_app. cbn [occurs].
  by rewrite !occurs_show_int, Hm.
Qed.

Lemma cache_lines_cons it rest tail :
  cache_lines (it :: rest) +:+ tail
  = cache_line it (bool_decide (rest = []))
    +:+ (if bool_decide (rest = []) then tail else cache_lines rest +:+ tail).
Proof.
  destruct rest as [|it' rest]; [done|].
  rewrite bool_decide_eq_false_2 by done.
  change (cache_lines (it :: it' :: rest))
    with (cache_line it false +:+ cache_lines (it' :: rest)).
  by rewrite app_assoc_str.
Qed.

(** The members of the outer object, one line each. *)
Lemma parse_members_lines fuel (its : list (BlockID * (SDL_Color * Z))) :
  ∀ (n : nat) (data : gmap string Json),
    its ≠ [] → (length its ≤ n)%nat →
    parse_members (parse_json (S (S fuel))) n
      (String newline (cache_lines its +:+ "}")) data
    = Some (JObject (foldl (λ acc it, <[BlockID_to_string it.1 := node_json it]> acc) data its),
            EmptyString).
Proof.
  induction its as [|it rest IH]; intros n data Hne Hlen; [done|].
  destruct n as [|n]; [simpl in Hlen; lia|].
  rewrite cache_lines_cons, cache_line_app.
  erewrite (parse_members_step _ _ _ (BlockID_to_string it.1));
    [|reflexivity|by apply occurs_BlockID_to_string..].
  rewrite parse_json_node. cbn [mbind option_bind foldl].
  destruct rest as [|it' rest].
  - reflexivity.
  - rewrite bool_decide_eq_false_2 by done. cbn [String.append].
    change (skip_ws (String "," ?x)) with (String "," x).
    change (Ascii.eqb "," "}") with false. change (Ascii.eqb "," ",") with true.
    cbn iota. apply IH; [done|]. simpl in Hlen |- *. lia.
Qed.

Lemma size_cache_line it last : 1 <= size (cache_line it last).
Proof.
  rewrite <- (app_nil_r_str (cache_line it last)), cache_line_app, size_String.
  match goal with |- 1 <= 1 + size ?x => pose proof (size_nonneg x) end. lia.
Qed.

Lemma length_cache_lines its : Z.of_nat (length its) <= size (cache_lines its).
Proof.
  induction its as [|it rest IH]; [done|].
  pose proof (size_cache_line it true). pose proof (size_cache_line it false).
  destruct rest as [|it' rest]; [simpl length; simpl cache_lines; lia|].
  change (cache_lines (it :: it' :: rest))
    with (cache_line it false +:+ cache_lines (it' :: rest)).
  rewrite size_app, length_cons, Nat2Z.inj_succ. lia.
Qed.

(** What [Json::parse] makes of the text of [saveNewJsonCache]: the
    members in the order of the lines. *)
Lemma parse_cache_text (its : list (BlockID * (SDL_Color * Z))) :
  parse (cat [String "{" (String newline EmptyString); cache_lines its; "}"])
  = JObject (foldl (λ acc it, <[BlockID_to_string it.1 := node_json it]> acc) ∅ its).
Proof.
  destruct its as [|it rest]; [done|].
  unfold parse, cat. cbn [foldr String.append].
  set (its := it :: rest).
  assert (skip_ws (String newline (cache_lines its +:+ "}"))
          = String json11.dquote
              (BlockID_to_string it.1 +:+ String json11.dquote (String ":"
                 (node_text it ((if bool_decide (rest = []) then EmptyString else ",")
                                +:+ String newline
                                      (if bool_decide (rest = []) then "}"
                                       else cache_lines rest +:+ "}")))))) as Hs.
  { unfold its. by rewrite cache_lines_cons, cache_line_app. }
  erewrite parse_json_object by exact Hs.
  change max_depth with (S (S 198)).
  rewrite parse_members_lines; [done|done|].
  pose proof (length_cache_lines its) as Hl.
  change (String.length (String newline (cache_lines its +:+ "}")))
    with (S (String.length (cache_lines its +:+ "}"))).
  pose proof (size_app (cache_lines its) "}") as Ha. unfold size in Ha, Hl. lia.
Qed.

Lemma BlockID_to_string_injective : Inj (=) (=) BlockID_to_string.
Proof.
  intros [i1 m1] [i2 m2] E. unfold BlockID_to_string in E. simpl in E.
  apply show_int_prefix_inj in E as [-> E]; [|done].
  by apply show_int_inj in E as ->.
Qed.

Lemma iterate_Permutation (m : gmap BlockID (SDL_Color * Z)) :
  iterate m ≡ₚ map_to_list m.
Proof. apply merge_sort_Permutation. Qed.

Lemma NoDup_cache_keys (m : gmap BlockID (SDL_Color * Z)) :
  NoDup ((λ it, BlockID_to_string it.1) <$> iterate m).
Proof.
  change (NoDup ((BlockID_to_string ∘ fst) <$> iterate m)).
  rewrite (list_fmap_compose fst BlockID_to_string).
  apply (NoDup_fmap_2 _ (Inj0 := BlockID_to_string_injective)).
  rewrite iterate_Permutation. apply NoDup_fst_map_to_list.
Qed.

Lemma node_json_member it : cache_member it = (BlockID_to_string it.1, node_json it).
Proof.
  unfold cache_member, node_json. by f_equal.
Qed.

Lemma foldl_node_json its (data : gmap string Json) :
  NoDup ((λ it, BlockID_to_string it.1) <$> its) →
  foldl (λ acc it, <[BlockID_to_string it.1 := node_json it]> acc) data its
  = list_to_map (cache_member <$> its) ∪ data.
Proof.
  revert data. induction its as [|it rest IH]; intros data Hnd.
  - simpl. by rewrite (left_id_L ∅ (∪)).
  - rewrite fmap_cons in Hnd. apply NoDup_cons in Hnd as [Hnew Hnd].
    cbn [foldl]. rewrite IH by done. rewrite fmap_cons, node_json_member.
    cbn [list_to_map foldr uncurry]. simpl.
    rewrite <- insert_union_l. rewrite insert_union_r; [done|].
    apply not_elem_of_list_to_map_1. rewrite <- list_fmap_compose.
    intros Hin. apply Hnew. apply list_elem_of_fmap in Hin as (it' & E & Hin).
    apply list_elem_of_fmap. exists it'. split; [|done].
    by rewrite E.
Qed.

Lemma parse_saveNewJsonCache_value (m : gmap BlockID (SDL_Color * Z)) :
  parse (saveNewJsonCache m) = cache_json m.
Proof.
  unfold saveNewJsonCache, cache_json. rewrite parse_cache_text.
  rewrite foldl_node_json by apply NoDup_cache_keys. by rewrite (right_id_L ∅ (∪)).
Qed.

(** What [load] finds in the value of a written cache under the string
    form of a [BlockID]. *)
Lemma cache_json_index (m : gmap BlockID (SDL_Color * Z)) (x : BlockID) :
  index (cache_json m) (BlockID_to_string x)
  = match m !! x with
    | Some v => (cache_member (x, v)).2
    | None => JNull
    end.
Proof.
  unfold cache_json, index.
  assert (NoDup (cache_member <$> iterate m).*1) as Hnd.
  { rewrite <- list_fmap_compose. apply NoDup_cache_keys. }
  destruct (m !! x) as [v|] eqn:E.
  - erewrite (elem_of_list_to_map_1 _ (BlockID_to_string x)); [done|done|].
    apply list_elem_of_fmap. exists (x, v). split; [done|].
    rewrite iterate_Permutation. by apply elem_of_map_to_list.
  - rewrite not_elem_of_list_to_map_1; [done|].
    rewrite <- list_fmap_compose. intros Hin.
    apply list_elem_of_fmap in Hin as ([y v] & Hk & Hin). simpl in Hk.
    apply BlockID_to_string_injective in Hk as ->.
    rewrite iterate_Permutation in Hin. apply elem_of_map_to_list in Hin. congruence.
Qed.

Lemma cache_json_index_other (m : gmap BlockID (SDL_Color * Z)) (key : string) :
  (∀ x, is_Some (m !! x) → BlockID_to_string x ≠ key) →
  index (cache_json m) key = JNull.
Proof.
  intros Hkey. unfold cache_json, index.
  rewrite not_elem_of_list_to_map_1; [done|].
  rewrite <- list_fmap_compose. intros Hin.
  apply list_elem_of_fmap in Hin as ([y v] & Hk & Hin). simpl in Hk.
  rewrite iterate_Permutation in Hin. apply elem_of_map_to_list in Hin.
  by apply (Hkey y); [eexists|].
Qed.

End json_more.

Section sdl_more.

Import SDL.

Lemma land_shiftl_low (hi lo k : Z) :
  0 <= k → 0 <= lo < 2 ^ k → Z.land (Z.shiftl hi k) lo = 0.
Proof.
  intros Hk Hlo. apply Z.bits_inj'. intros i Hi.
  rewrite Z.land_spec, Z.bits_0. destruct (Z.lt_ge_cases i k) as [Hlt|Hge].
  - by rewrite Z.shiftl_spec_low.
  - rewrite andb_false_iff. right. destruct (Z.eq_dec lo 0) as [->|Hne].
    + apply Z.bits_0.
    + apply Z.bits_above_log2; [lia|]. apply Z.log2_lt_pow2; [lia|].
      apply Z.lt_le_trans with (2 ^ k); [lia|]. apply Z.pow_le_mono_r; lia.
Qed.

Lemma lor_shiftl_low (hi lo k : Z) :
  0 <= k → 0 <= lo < 2 ^ k → Z.lor (Z.shiftl hi k) lo = hi * 2 ^ k + lo.
Proof.
  intros Hk Hlo. pose proof (Z.add_lor_land (Z.shiftl hi k) lo) as H.
  rewrite land_shiftl_low in H by done. rewrite Z.shiftl_mul_pow2 in H |- * by done. lia.
Qed.

(** The packed pixel of a colour of four bytes. *)
Lemma SDL_MapRGBA_bytes (c : SDL_Color) :
  byte_color c →
  SDL_MapRGBA c = r c * 2 ^ 24 + g c * 2 ^ 16 + b c * 2 ^ 8 + a c.
Proof.
  intros (Hr & Hg & Hb & Ha). unfold is_byte in *. unfold SDL_MapRGBA, to_Uint8.
  rewrite !Z.mod_small by lia.
  assert (2 ^ 8 = 256 ∧ 2 ^ 16 = 65536 ∧ 2 ^ 24 = 16777216) as (E8 & E16 & E24) by done.
  rewrite (lor_shiftl_low (b c) (a c) 8) by lia.
  rewrite (Z.shiftl_mul_pow2 (g c) 16) by lia.
  rewrite (lor_shiftl_low (r c) (g c * 2 ^ 16) 24) by (rewrite ?E16, ?E24; lia).
  assert (r c * 2 ^ 24 + g c * 2 ^ 16 = Z.shiftl (r c * 2 ^ 8 + g c) 16) as ->.
  { rewrite Z.shiftl_mul_pow2 by lia. rewrite E8, E16, E24. ring. }
  rewrite lor_shiftl_low by (rewrite ?E8, ?E16; lia).
  rewrite Z.shiftl_mul_pow2 by lia. ring.
Qed.

Lemma SDL_GetRGBA_MapRGBA (c : SDL_Color) :
  byte_color c → SDL_GetRGBA (to_unsigned (SDL_MapRGBA c)) = c.
Proof.
  intros Hc. rewrite SDL_MapRGBA_bytes by done.
  destruct Hc as (Hr & Hg & Hb & Ha). unfold is_byte in *.
  destruct c as [cr cg cb ca]. simpl in *. unfold SDL_GetRGBA, to_unsigned.
  rewrite Z.mod_small by lia.
  change 255 with (Z.ones 8). rewrite !Z.land_ones, !Z.shiftr_div_pow2 by lia.
  change (2 ^ 24) with 16777216. change (2 ^ 16) with 65536.
  change (2 ^ 8) with 256.
  f_equal; Z.div_mod_to_equations; lia.
Qed.

Lemma SDL_GetRGBA_byte_color (pixel : Z) : byte_color (SDL_GetRGBA pixel).
Proof.
  unfold byte_color, is_byte, SDL_GetRGBA. simpl.
  change 255 with (Z.ones 8). rewrite !Z.land_ones by lia.
  change (2 ^ 8) with 256. repeat split; Z.div_mod_to_equations; lia.
Qed.

End sdl_more.

(** ** A cache that [saveNewJsonCache] wrote, at the next [load] *)

Section reload.

Import SDL json11 ZipLib BlockColors.

Implicit Types (e : ZipArchiveEntry) (entries : list ZipArchiveEntry)
  (m members : gmap BlockID (SDL_Color * Z)) (x : BlockID).

(** The test of [load] against a written cache, for an entry whose key
    is the string form of its [BlockID]. *)
Lemma cache_hit_written m e :
  BlockID_to_string (entry_id e) = cache_key e →
  cache_hit (parse (saveNewJsonCache m)) e
  = match m !! entry_id e with
    | Some v => v.2 =? GetCrc32 e
    | None => false
    end.
Proof.
  intros Hkey. unfold cache_hit.
  rewrite parse_saveNewJsonCache_value, <- Hkey, cache_json_index.
  by destruct (m !! entry_id e) as [[c crc]|].
Qed.

Lemma cached_color_written m e c crc :
  BlockID_to_string (entry_id e) = cache_key e →
  m !! entry_id e = Some (c, crc) → byte_color c →
  cached_color (parse (saveNewJsonCache m)) e = c.
Proof.
  intros Hkey Hm Hc. unfold cached_color.
  rewrite parse_saveNewJsonCache_value, <- Hkey, cache_json_index, Hm.
  by apply SDL_GetRGBA_MapRGBA.
Qed.

Lemma entry_outcome_byte_color computeColor cacheJson e o :
  (∀ c, computeColor e = Some c → byte_color c) →
  entry_outcome computeColor cacheJson e = Some o → byte_color o.2.
Proof.
  intros Hb. unfold entry_outcome. destruct (cache_hit cacheJson e).
  - intros [= <-]. apply SDL_GetRGBA_byte_color.
  - destruct (computeColor e) as [c|] eqn:E; [|done]. intros [= <-]. by apply Hb.
Qed.

(** The node that a load leaves for the [BlockID] of one of its entries,
    when the entries of one [BlockID] agree on the checksum. *)
Lemma load_node_of_entry computeColor cacheJson entries outs members e :
  (∀ e c, e ∈ entries → computeColor e = Some c → byte_color c) →
  (∀ e e', e ∈ entries → e' ∈ entries → entry_id e = entry_id e' →
           GetCrc32 e = GetCrc32 e') →
  Forall2 (λ e o, entry_outcome computeColor cacheJson e = Some o) entries outs →
  e ∈ entries →
  ∃ c, foldl assign_node members (zip_with entry_node entries outs) !! entry_id e
       = Some (c, GetCrc32 e)
       ∧ byte_color c.
Proof.
  intros Hb Hcrc Hall He. apply list_elem_of_lookup_1 in He as [i Hi].
  destruct (zip_with_entry_node_at _ _ _ _ _ _ Hall Hi) as (o & Ho & Hni).
  destruct (foldl_assign_lookup (zip_with entry_node entries outs) members (entry_id e))
    as [[Hno _]|(j & p & Hj & Hp & _ & Hl)].
  { by destruct (Hno i _ Hni). }
  destruct (zip_with_entry_node_lookup _ _ _ _ _ _ Hall Hj) as (e' & o' & He' & _ & Ho' & ->).
  simpl in Hp. exists o'.2. rewrite Hl. unfold entry_node. simpl. split.
  - do 2 f_equal. apply Hcrc; [by eapply list_elem_of_lookup_2..|done].
  - eapply entry_outcome_byte_color; [|done].
    intros c. apply Hb. by eapply list_elem_of_lookup_2.
Qed.

End reload.

(** X15. The text [saveNewJsonCache] writes is a JSON object that holds,
    under the string form of the [BlockID] of every node of the colour
    map, an object with the checksum of the node as ["crc"] and its
    packed colour as ["color"], and that holds nothing under any other
    key. *)
Theorem saved_cache_lookup (m : gmap blocks.BlockID (SDL.SDL_Color * Z)) :
  (∀ x c crc, m !! x = Some (c, crc) →
     json11.index (json11.parse (BlockColors.saveNewJsonCache m))
                  (blocks.BlockID_to_string x)
     = json11.JObject (<["crc" := json11.JNumber crc]>
                         (<["color" := json11.JNumber (SDL.SDL_MapRGBA c)]> ∅)))
  ∧ (∀ key, (∀ x, is_Some (m !! x) → blocks.BlockID_to_string x ≠ key) →
       json11.index (json11.parse (BlockColors.saveNewJsonCache m)) key = json11.JNull).
Proof.
  rewrite parse_saveNewJsonCache_value. split.
  - intros x c crc Hx. by rewrite cache_json_index, Hx.
  - apply cache_json_index_other.
Qed.

(** X16. Against a cache that [saveNewJsonCache] wrote, an entry whose
    name up to the dot is the string form of its [BlockID] is served from
    the cache exactly when the map that was written had a node for that
    [BlockID] with the checksum the entry has now; the colour recalled is
    then the colour of that node. *)
Theorem written_cache_hit (m : gmap blocks.BlockID (SDL.SDL_Color * Z))
    (e : ZipLib.ZipArchiveEntry) :
  blocks.BlockID_to_string (entry_id e) = BlockColors.cache_key e →
  (cache_holds (json11.parse (BlockColors.saveNewJsonCache m)) e
   ↔ ∃ c, m !! entry_id e = Some (c, ZipLib.GetCrc32 e))
  ∧ (∀ c, m !! entry_id e = Some (c, ZipLib.GetCrc32 e) → byte_color c →
          cached_color (json11.parse (BlockColors.saveNewJsonCache m)) e = c).
Proof.
  intros Hkey. split.
  - rewrite cache_holds_hit, cache_hit_written by done.
    destruct (m !! entry_id e) as [[c crc]|]; simpl.
    + rewrite Z.eqb_eq. split; [intros ->; by eexists|]. by intros (c' & [= _ ->]).
    + split; [done|]. by intros (c' & ?).
  - intros c Hm Hc. by eapply cached_color_written.
Qed.

Lemma written_cache_hit_witness :
  cache_holds
    (json11.parse
       (BlockColors.saveNewJsonCache
          (<[blocks.mkBlockID 35 14 := (SDL.mkColor 1 2 3 255, 7)]> ∅)))
    (ZipLib.mkEntry "35-14.png" 7 grey_pixel)
  ↔ ∃ c, (<[blocks.mkBlockID 35 14 := (SDL.mkColor 1 2 3 255, 7)]> ∅ : gmap _ _)
         !! entry_id (ZipLib.mkEntry "35-14.png" 7 grey_pixel) = Some (c, 7).
Proof.
  exact (proj1 (written_cache_hit
                  (<[blocks.mkBlockID 35 14 := (SDL.mkColor 1 2 3 255, 7)]> ∅)
                  (ZipLib.mkEntry "35-14.png" 7 grey_pixel) eq_refl)).
Defined.

(** X17. The cache serves the next load.  When every entry of the
    archive is named by the string form of its [BlockID] before the dot,
    entries of one [BlockID] have the same checksum, and the colours
    computed are made of bytes, a load of the same archive with the cache
    value that the first load's map is written out as computes nothing
    and writes nothing, and gives every entry the node it had after the
    first load, whatever the map held before. *)
Theorem load_again_reuses
    (computeColor computeColor' : ZipLib.ZipArchiveEntry → option SDL.SDL_Color)
    (entries : list ZipLib.ZipArchiveEntry) (cacheJson : json11.Json)
    (members members' : gmap blocks.BlockID (SDL.SDL_Color * Z)) :
  (∀ e, e ∈ entries → ¬ cache_holds cacheJson e → is_Some (computeColor e)) →
  (∀ e, e ∈ entries → blocks.BlockID_to_string (entry_id e) = BlockColors.cache_key e) →
  (∀ e e', e ∈ entries → e' ∈ entries → entry_id e = entry_id e' →
           ZipLib.GetCrc32 e = ZipLib.GetCrc32 e') →
  (∀ e c, e ∈ entries → computeColor e = Some c → byte_color c) →
  ∃ out1 out2,
    BlockColors.load computeColor (Some entries) cacheJson members = Some out1
    ∧ (∀ text, BlockColors.written out1 = Some text →
               text = BlockColors.saveNewJsonCache
                        (BlockColors.blockColors (BlockColors.state out1)))
    ∧ BlockColors.load computeColor' (Some entries)
        (json11.parse (BlockColors.saveNewJsonCache
                         (BlockColors.blockColors (BlockColors.state out1))))
        members'
      = Some out2
    ∧ BlockColors.hadToRecompute (BlockColors.state out2) = false
    ∧ BlockColors.written out2 = None
    ∧ (∀ o, o ∈ BlockColors.sources (BlockColors.state out2) → o.1 = BlockColors.FromCache)
    ∧ (∀ e, e ∈ entries →
            BlockColors.blockColors (BlockColors.state out2) !! entry_id e
            = BlockColors.blockColors (BlockColors.state out1) !! entry_id e).
Proof.
  intros Hc Hkey Hcrc Hb.
  destruct (load_shape computeColor cacheJson entries members Hc) as (outs & Hall & Hload).
  set (M1 := foldl assign_node members (zip_with entry_node entries outs)) in *.
  assert (∀ e, e ∈ entries → ∃ c, M1 !! entry_id e = Some (c, ZipLib.GetCrc32 e)
                                  ∧ byte_color c) as Hnode.
  { intros e He. by eapply load_node_of_entry. }
  set (cache1 := json11.parse (BlockColors.saveNewJsonCache M1)).
  assert (∀ e, e ∈ entries → cache_hit cache1 e = true) as Hhit.
  { intros e He. destruct (Hnode e He) as (c & Hm & _). unfold cache1.
    rewrite cache_hit_written, Hm by auto. simpl. apply Z.eqb_refl. }
  assert (existsb (λ e, negb (cache_hit cache1 e)) entries = false) as Hflag.
  { destruct (existsb (λ e, negb (cache_hit cache1 e)) entries) eqn:E; [|done].
    apply existsb_exists in E as (e & He & Hneg). apply list_elem_of_In in He.
    by rewrite (Hhit e He) in Hneg. }
  destruct (load_shape computeColor' cache1 entries members') as (outs2 & Hall2 & Hload2).
  { intros e He Hmiss. destruct Hmiss. apply cache_holds_hit. by apply Hhit. }
  rewrite Hflag in Hload2.
  eexists _, _. split; [exact Hload|]. cbn [BlockColors.state BlockColors.blockColors].
  split.
  { cbn [BlockColors.written]. intros text.
    destruct (existsb (λ e, negb (cache_hit cacheJson e)) entries); [by intros [= <-]|done]. }
  split; [exact Hload2|]. cbn [BlockColors.state BlockColors.blockColors
    BlockColors.hadToRecompute BlockColors.written BlockColors.sources].
  split; [done|]. split; [done|]. split.
  - intros o Ho. apply list_elem_of_lookup_1 in Ho as [i Hi].
    destruct (Forall2_lookup_r _ _ _ _ _ Hall2 Hi) as (e & He & Hout).
    unfold entry_outcome in Hout. rewrite Hhit in Hout by (by eapply list_elem_of_lookup_2).
    by injection Hout as <-.
  - intros e He. pose proof He as He0. apply list_elem_of_lookup_1 in He as [i Hi].
    destruct (zip_with_entry_node_at _ _ _ _ _ _ Hall2 Hi) as (o & Ho & Hni).
    destruct (foldl_assign_lookup (zip_with entry_node entries outs2) members' (entry_id e))
      as [[Hno _]|(j & p & Hj & Hp & _ & Hl)].
    { by destruct (Hno i _ Hni). }
    destruct (zip_with_entry_node_lookup _ _ _ _ _ _ Hall2 Hj)
      as (e' & o' & He' & _ & Ho' & ->).
    simpl in Hp. rewrite Hl. symmetry.
    assert (e' ∈ entries) as Hin' by (by eapply list_elem_of_lookup_2).
    destruct (Hnode e' Hin') as (c & Hm & Hbc). rewrite <- Hp, Hm.
    unfold entry_outcome in Ho'. rewrite (Hhit e' Hin') in Ho'. injection Ho' as <-.
    unfold entry_node. simpl. do 2 f_equal. symmetry. unfold cache1.
    by eapply cached_color_written; [apply Hkey| |].
Qed.

Lemma load_again_reuses_witness :
  ∃ out1 out2,
    BlockColors.load ModePolicy.computeColor (Some two_textures) half_cache ∅ = Some out1
    ∧ BlockColors.load AveragePolicy.computeColor (Some two_textures)
        (json11.parse (BlockColors.saveNewJsonCache
                         (BlockColors.blockColors (BlockColors.state out1))))
        ∅
      = Some out2
    ∧ BlockColors.written out2 = None.
Proof.
  destruct (load_again_reuses ModePolicy.computeColor AveragePolicy.computeColor
              two_textures half_cache ∅ ∅ two_textures_computable)
    as (out1 & out2 & H1 & _ & H2 & _ & Hw & _).
  - intros e He. unfold two_textures in He.
    apply elem_of_cons in He as [->|He]; [reflexivity|].
    apply elem_of_cons in He as [->|He]; [reflexivity|].
    by apply elem_of_nil in He.
  - intros e e' He He' E. unfold two_textures in He, He'.
    apply elem_of_cons in He as [->|He];
      [|apply elem_of_cons in He as [->|He]; [|by apply elem_of_nil in He]];
      (apply elem_of_cons in He' as [->|He'];
       [|apply elem_of_cons in He' as [->|He']; [|by apply elem_of_nil in He']]);
      first [reflexivity | vm_compute in E; discriminate E].
  - intros e c He Hcol. unfold two_textures in He.
    apply elem_of_cons in He as [->|He];
      [|apply elem_of_cons in He as [->|He]; [|by apply elem_of_nil in He]];
      vm_compute in Hcol; injection Hcol as <-; unfold byte_color, is_byte; simpl; lia.
  - exists out1, out2. split; [exact H1|]. split; [exact H2|exact Hw].
Defined.

(** ** computeColor, the average: where the result lies *)

Section average_more.

Import SDL ZipLib.

Implicit Types (px : list (Z * Z * Z * Z)) (channel : Z * Z * Z * Z → Z).

Lemma total_between channel px lo hi :
  (∀ p, p ∈ px → lo <= channel p <= hi) →
  lo * Z.of_nat (length px) <= total channel px <= hi * Z.of_nat (length px).
Proof.
  induction px as [|p px IH]; intros H; [simpl; lia|].
  assert (lo <= channel p <= hi) by (apply H; by left).
  assert (lo * Z.of_nat (length px) <= total channel px <= hi * Z.of_nat (length px))
    by (apply IH; intros q Hq; apply H; by right).
  unfold total in *. cbn [foldr]. rewrite length_cons, Nat2Z.inj_succ. lia.
Qed.

Lemma length_visible px : (length (visible px) ≤ length px)%nat.
Proof. apply length_filter. Qed.

(** The value of the average. *)
Lemma average_value name crc w h px :
  Forall byte_pixel px →
  Z.of_nat (length px) = w * h → 0 < w * h → 255 * (w * h) < 2 ^ 32 →
  AveragePolicy.computeColor (mkEntry name crc (mkImage w h (buffer px)))
  = Some (mkColor (total red (visible px) / (w * h))
                  (total green (visible px) / (w * h))
                  (total blue (visible px) / (w * h))
                  SDL_ALPHA_OPAQUE).
Proof.
  intros Hpx Hlen Hpos Hsmall. unfold AveragePolicy.computeColor.
  cbn [decoded pixels width height].
  rewrite sum_pixels_buffer by (done || lia). cbn [mbind option_bind].
  rewrite !Z.add_0_l, (to_unsigned_small (w * h)), to_unsigned_to_int,
    (to_unsigned_small (w * h)) by lia.
  destruct (Z.eqb_spec (w * h) 0) as [?|_]; [lia|].
  pose proof (total_bound red px red_byte Hpx).
  pose proof (total_bound green px green_byte Hpx).
  pose proof (total_bound blue px blue_byte Hpx).
  assert (∀ t, 0 <= t <= 255 * Z.of_nat (length px) →
               to_Uint8 (t / (w * h)) = t / (w * h)) as Hq.
  { intros t Ht. unfold to_Uint8. apply Z.mod_small. split.
    - apply Z.div_pos; lia.
    - apply Z.div_lt_upper_bound; lia. }
  by rewrite !Hq by done.
Qed.

Lemma quotient_between t n k lo hi :
  0 < n → 0 <= k <= n → 0 <= hi →
  lo * k <= t <= hi * k → (k = n → lo <= t / n) ∧ t / n <= hi.
Proof.
  intros Hn Hk Hhi Ht. split.
  - intros ->. apply Z.div_le_lower_bound; lia.
  - apply Z.div_le_upper_bound; [lia|]. nia.
Qed.

End average_more.

(** X18. The average stays within the image: the second revision of
    [computeColor] returns, on each of red, green and blue, a value that
    is no larger than the largest value of that channel among the visible
    pixels, and when no pixel of the image is transparent also no smaller
    than the smallest.  A plain opaque image gets its own colour.  (With
    transparent pixels the result can be darker than every pixel, since
    they count in the divisor.) *)
Theorem average_within_image (name : string) (crc w h : Z) (px : list (Z * Z * Z * Z))
    (lo hi : SDL.SDL_Color) :
  Forall byte_pixel px →
  Z.of_nat (length px) = w * h → 0 < w * h → 255 * (w * h) < 2 ^ 32 →
  0 <= SDL.r hi → 0 <= SDL.g hi → 0 <= SDL.b hi →
  (∀ p, p ∈ visible px →
        SDL.r lo <= red p <= SDL.r hi ∧ SDL.g lo <= green p <= SDL.g hi
        ∧ SDL.b lo <= blue p <= SDL.b hi) →
  ∃ c, AveragePolicy.computeColor
         (ZipLib.mkEntry name crc (ZipLib.mkImage w h (buffer px))) = Some c
       ∧ SDL.a c = SDL.SDL_ALPHA_OPAQUE
       ∧ SDL.r c <= SDL.r hi ∧ SDL.g c <= SDL.g hi ∧ SDL.b c <= SDL.b hi
       ∧ (visible px = px →
          SDL.r lo <= SDL.r c ∧ SDL.g lo <= SDL.g c ∧ SDL.b lo <= SDL.b c).
Proof.
  intros Hpx Hlen Hpos Hsmall Hr Hg Hb Hbound.
  eexists. split; [by apply average_value|]. cbn [SDL.r SDL.g SDL.b SDL.a].
  pose proof (length_visible px) as Hk.
  destruct (quotient_between (total red (visible px)) (w * h)
              (Z.of_nat (length (visible px))) (SDL.r lo) (SDL.r hi)) as [Hr1 Hr2];
    [lia|lia|done|apply total_between; intros p Hp; by destruct (Hbound p Hp) as (?&?&?)|].
  destruct (quotient_between (total green (visible px)) (w * h)
              (Z.of_nat (length (visible px))) (SDL.g lo) (SDL.g hi)) as [Hg1 Hg2];
    [lia|lia|done|apply total_between; intros p Hp; by destruct (Hbound p Hp) as (?&?&?)|].
  destruct (quotient_between (total blue (visible px)) (w * h)
              (Z.of_nat (length (visible px))) (SDL.b lo) (SDL.b hi)) as [Hb1 Hb2];
    [lia|lia|done|apply total_between; intros p Hp; by destruct (Hbound p Hp) as (?&?&?)|].
  split; [done|]. split; [done|]. split; [done|]. split; [done|].
  intros Hall.
  assert (Z.of_nat (length (visible px)) = w * h) as Hn by (by rewrite Hall).
  split; [|split]; auto.
Qed.

Lemma average_within_image_witness :
  ∃ c, AveragePolicy.computeColor
         (ZipLib.mkEntry "1-0.png" 5
            (ZipLib.mkImage 2 1 (buffer [(100, 100, 100, 255); (110, 95, 100, 255)])))
       = Some c
       ∧ 100 <= SDL.r c <= 110 ∧ 95 <= SDL.g c <= 100 ∧ SDL.b c = 100.
Proof.
  destruct (average_within_image "1-0.png" 5 2 1
              [(100, 100, 100, 255); (110, 95, 100, 255)]
              (SDL.mkColor 100 95 100 255) (SDL.mkColor 110 100 100 255))
    as (c & Hc & _ & Hr & Hg & Hb & Hlo).
  - repeat constructor; unfold is_byte; lia.
  - reflexivity.
  - lia.
  - lia.
  - simpl; lia.
  - simpl; lia.
  - simpl; lia.
  - intros p Hp. change (visible _) with [(100, 100, 100, 255); (110, 95, 100, 255)] in Hp.
    apply elem_of_cons in Hp as [->|Hp]; [|apply list_elem_of_singleton in Hp as ->];
      unfold red, green, blue; simpl; lia.
  - destruct (Hlo eq_refl) as (Hr' & Hg' & Hb'). simpl in *.
    exists c. split; [exact Hc|]. lia.
Defined.

(** ** rgb2hsv *)

Section rgb2hsv_props.

Import SDL.

Implicit Types (x y u delta mode : Z) (c : SDL_Color).

Lemma all_from_spec n z0 f z :
  all_from n z0 f = true → z0 <= z < z0 + Z.of_nat n → f z = true.
Proof.
  revert z0. induction n as [|n IH]; intros z0 H Hz; [lia|].
  simpl in H. apply andb_true_iff in H as [H1 H2].
  destruct (Z.eq_dec z z0) as [->|Hne]; [done|]. apply (IH (Z.succ z0)); [done|lia].
Qed.

Lemma all_below_spec n f z :
  all_from n 0 f = true → 0 <= z < Z.of_nat n → f z = true.
Proof. intros H Hz. apply (all_from_spec n 0); [done|lia]. Qed.

Lemma is_Uint8_spec (x : PrimFloat.float) (expected : option Z) :
  is_Uint8 x expected = true → Double.to_Uint8 x = expected.
Proof.
  unfold is_Uint8, Double.to_Uint8.
  destruct (Double.trunc x) as [i|], expected as [e|]; try done.
  intros H. apply andb_true_iff in H as [H He]. apply andb_true_iff in H as [H0 H1].
  apply Z.leb_le in H0. apply Z.ltb_lt in H1. apply Uint63.eqb_spec in He as ->.
  simpl. f_equal. rewrite Uint63.of_Z_spec. apply Z.mod_small.
  split; [done|]. apply Z.lt_trans with 256; [done|]. done.
Qed.

(** The comparisons and the subtraction of [double] on the integers of
    the range of a [Uint8] are those of the integers: by evaluation of
    all pairs. *)
Lemma ltb_of_int x y :
  0 <= x < 256 → 0 <= y < 256 →
  PrimFloat.ltb (Double.of_int x) (Double.of_int y) = (x <? y).
Proof.
  intros Hx Hy.
  assert (all_from 256 0 (λ x, all_from 256 0 (λ y,
            Bool.eqb (PrimFloat.ltb (Double.of_int x) (Double.of_int y)) (x <? y))) = true)
    as H by (vm_cast_no_check (eq_refl true)).
  apply (all_below_spec _ _ x) in H; [|lia]. apply (all_below_spec _ _ y) in H; [|lia].
  by apply Bool.eqb_prop in H.
Qed.

Lemma eqb_of_int x y :
  0 <= x < 256 → 0 <= y < 256 →
  PrimFloat.eqb (Double.of_int x) (Double.of_int y) = (x =? y).
Proof.
  intros Hx Hy.
  assert (all_from 256 0 (λ x, all_from 256 0 (λ y,
            Bool.eqb (PrimFloat.eqb (Double.of_int x) (Double.of_int y)) (x =? y))) = true)
    as H by (vm_cast_no_check (eq_refl true)).
  apply (all_below_spec _ _ x) in H; [|lia]. apply (all_below_spec _ _ y) in H; [|lia].
  by apply Bool.eqb_prop in H.
Qed.

Lemma sub_of_int x y :
  0 <= y <= x → x < 256 →
  PrimFloat.sub (Double.of_int x) (Double.of_int y) = Double.of_int (x - y).
Proof.
  intros Hy Hx.
  assert (all_from 256 0 (λ x, all_from 256 0 (λ y,
            (x <? y) || PrimFloat.Leibniz.eqb
                          (PrimFloat.sub (Double.of_int x) (Double.of_int y))
                          (Double.of_int (x - y)))) = true)
    as H by (vm_cast_no_check (eq_refl true)).
  apply (all_below_spec _ _ x) in H; [|lia]. apply (all_below_spec _ _ y) in H; [|lia].
  apply orb_true_iff in H as [H|H]; [apply Z.ltb_lt in H; lia|].
  by apply FloatAxioms.Leibniz.eqb_spec in H.
Qed.

Lemma max_of_int x y :
  0 <= x < 256 → 0 <= y < 256 →
  (if PrimFloat.ltb (Double.of_int x) (Double.of_int y)
   then Double.of_int y else Double.of_int x)
  = Double.of_int (Z.max x y).
Proof.
  intros Hx Hy. rewrite ltb_of_int by done.
  destruct (Z.ltb_spec x y); f_equal; lia.
Qed.

Lemma min_of_int x y :
  0 <= x < 256 → 0 <= y < 256 →
  (if PrimFloat.ltb (Double.of_int y) (Double.of_int x)
   then Double.of_int y else Double.of_int x)
  = Double.of_int (Z.min x y).
Proof.
  intros Hx Hy. rewrite ltb_of_int by done.
  destruct (Z.ltb_spec y x); f_equal; lia.
Qed.

(** [Uint8(V)] is [V]. *)
Lemma to_Uint8_of_int x : 0 <= x < 256 → Double.to_Uint8 (Double.of_int x) = Some x.
Proof.
  intros Hx.
  assert (all_from 256 0 (λ x, is_Uint8 (Double.of_int x) (Some x)) = true)
    as H by (vm_cast_no_check (eq_refl true)).
  apply (all_below_spec _ _ x) in H; [|lia]. by apply is_Uint8_spec.
Qed.

(** [Uint8(S)]: the quotient is [1] when [delta] is [maxC] and below [1]
    otherwise. *)
Lemma to_Uint8_saturation delta x :
  0 < delta <= x → x < 256 →
  Double.to_Uint8 (PrimFloat.div (Double.of_int delta) (Double.of_int x))
  = Some (if delta =? x then 1 else 0).
Proof.
  intros Hd Hx.
  assert (all_from 256 0 (λ x, all_from 256 0 (λ delta,
            (delta =? 0) || (x <? delta)
            || is_Uint8 (PrimFloat.div (Double.of_int delta) (Double.of_int x))
                        (Some (if delta =? x then 1 else 0)))) = true)
    as H by (vm_cast_no_check (eq_refl true)).
  apply (all_below_spec _ _ x) in H; [|lia]. apply (all_below_spec _ _ delta) in H; [|lia].
  apply orb_true_iff in H as [H|H]; [|by apply is_Uint8_spec].
  apply orb_true_iff in H as [H|H]; [apply Z.eqb_eq in H|apply Z.ltb_lt in H]; lia.
Qed.

(** [Uint8(H)]: the hue in whole degrees, when one of the two channels
    that enter it is the smallest of the colour. *)
Lemma to_Uint8_hue mode delta u :
  0 <= mode < 3 → 0 < delta < 256 → 0 <= u <= delta →
  Double.to_Uint8 (wrap_hue (hue_term mode delta delta u))
  = degrees_byte (120 * mode) (60 * (delta - u)) delta
  ∧ Double.to_Uint8 (wrap_hue (hue_term mode delta u delta))
    = degrees_byte (120 * mode) (60 * (u - delta)) delta.
Proof.
  intros Hm Hd Hu.
  assert (all_from 3 0 (λ mode, all_from 256 0 (λ delta, all_from 256 0 (λ u,
            (delta =? 0) || (delta <? u)
            || (check_hue mode delta delta u && check_hue mode delta u delta)))) = true)
    as H by (vm_cast_no_check (eq_refl true)).
  apply (all_below_spec _ _ mode) in H; [|lia].
  apply (all_below_spec _ _ delta) in H; [|lia]. apply (all_below_spec _ _ u) in H; [|lia].
  apply orb_true_iff in H as [H|H].
  { apply orb_true_iff in H as [H|H]; [apply Z.eqb_eq in H|apply Z.ltb_lt in H]; lia. }
  apply andb_true_iff in H as [H1 H2]. unfold check_hue in H1, H2.
  split; by apply is_Uint8_spec.
Qed.

Lemma largest_smallest c :
  byte_color c →
  0 <= smallest c <= largest c ∧ largest c < 256
  ∧ smallest c <= r c <= largest c ∧ smallest c <= g c <= largest c
  ∧ smallest c <= b c <= largest c.
Proof. intros (Hr & Hg & Hb & _). unfold is_byte, largest, smallest in *. lia. Qed.

(** The terms of [rgb2hsv], over the integers. *)
Lemma rgb2hsv_terms c :
  byte_color c →
  Hsv.rgb2hsv c
  = let mx := largest c in
    let delta := largest c - smallest c in
    if delta =? 0 then hsv_of_terms (Double.of_int 0) (Double.of_int 0) (Double.of_int mx)
    else hsv_of_terms
           (if r c =? mx then hue_term 0 delta (mx - b c) (mx - g c)
            else if g c =? mx then hue_term 1 delta (mx - r c) (mx - b c)
                 else hue_term 2 delta (mx - g c) (mx - r c))
           (PrimFloat.div (Double.of_int delta) (Double.of_int mx))
           (Double.of_int mx).
Proof.
  intros Hc. pose proof (largest_smallest c Hc) as (H1 & H2 & H3 & H4 & H5).
  destruct Hc as (Hr & Hg & Hb & _). unfold is_byte in *.
  unfold Hsv.rgb2hsv. cbv zeta.
  rewrite (max_of_int (b c) (g c)), (max_of_int (Z.max (b c) (g c)) (r c)),
    (min_of_int (b c) (g c)), (min_of_int (Z.min (b c) (g c)) (r c)) by lia.
  fold (largest c). fold (smallest c).
  rewrite (sub_of_int (largest c) (smallest c)), (sub_of_int (largest c) (r c)),
    (sub_of_int (largest c) (g c)), (sub_of_int (largest c) (b c)) by lia.
  rewrite (eqb_of_int (largest c - smallest c) 0), (eqb_of_int (r c) (largest c)),
    (eqb_of_int (g c) (largest c)) by lia.
  destruct (largest c - smallest c =? 0); [reflexivity|].
  destruct (r c =? largest c); [reflexivity|].
  destruct (g c =? largest c); reflexivity.
Qed.

Lemma to_Uint8_grey_hue : Double.to_Uint8 (wrap_hue (Double.of_int 0)) = Some 0.
Proof. apply is_Uint8_spec. vm_cast_no_check (eq_refl true). Qed.

(** The hue byte of a colour that is not grey. *)
Lemma to_Uint8_hue_of c :
  byte_color c → largest c - smallest c ≠ 0 →
  Double.to_Uint8
    (wrap_hue
       (if r c =? largest c
        then hue_term 0 (largest c - smallest c) (largest c - b c) (largest c - g c)
        else if g c =? largest c
             then hue_term 1 (largest c - smallest c) (largest c - r c) (largest c - b c)
             else hue_term 2 (largest c - smallest c) (largest c - g c) (largest c - r c)))
  = if hue_degrees c <? 256 then Some (hue_degrees c) else None.
Proof.
  intros Hc Hd. pose proof (largest_smallest c Hc) as (H1 & H2 & H3 & H4 & H5).
  unfold hue_degrees. cbv zeta.
  destruct (Z.eqb_spec (largest c - smallest c) 0) as [?|_]; [done|].
  set (delta := largest c - smallest c) in *.
  assert (smallest c = r c ∨ smallest c = g c ∨ smallest c = b c) as Hmin
    by (unfold smallest; lia).
  destruct (Z.eqb_spec (r c) (largest c)) as [Er|Nr];
    [|destruct (Z.eqb_spec (g c) (largest c)) as [Eg|Ng]].
  - destruct (Z.eq_dec (smallest c) (b c)) as [Eb|Nb].
    + replace (largest c - b c) with delta by (unfold delta; lia).
      rewrite (proj1 (to_Uint8_hue 0 delta (largest c - g c) ltac:(lia) ltac:(lia)
                        ltac:(unfold delta; lia))).
      replace (60 * (delta - (largest c - g c))) with (60 * (g c - b c))
        by (unfold delta; lia).
      done.
    + replace (largest c - g c) with delta by (unfold delta; lia).
      rewrite (proj2 (to_Uint8_hue 0 delta (largest c - b c) ltac:(lia) ltac:(lia)
                        ltac:(unfold delta; lia))).
      replace (60 * (largest c - b c - delta)) with (60 * (g c - b c))
        by (unfold delta; lia).
      done.
  - destruct (Z.eq_dec (smallest c) (r c)) as [Eb|Nb].
    + replace (largest c - r c) with delta by (unfold delta; lia).
      rewrite (proj1 (to_Uint8_hue 1 delta (largest c - b c) ltac:(lia) ltac:(lia)
                        ltac:(unfold delta; lia))).
      replace (60 * (delta - (largest c - b c))) with (60 * (b c - r c))
        by (unfold delta; lia).
      done.
    + replace (largest c - b c) with delta by (unfold delta; lia).
      rewrite (proj2 (to_Uint8_hue 1 delta (largest c - r c) ltac:(lia) ltac:(lia)
                        ltac:(unfold delta; lia))).
      replace (60 * (largest c - r c - delta)) with (60 * (b c - r c))
        by (unfold delta; lia).
      done.
  - assert (b c = largest c) as Eb by (unfold largest in *; lia).
    destruct (Z.eq_dec (smallest c) (g c)) as [Eg|Ng'].
    + replace (largest c - g c) with delta by (unfold delta; lia).
      rewrite (proj1 (to_Uint8_hue 2 delta (largest c - r c) ltac:(lia) ltac:(lia)
                        ltac:(unfold delta; lia))).
      replace (60 * (delta - (largest c - r c))) with (60 * (r c - g c))
        by (unfold delta; lia).
      done.
    + replace (largest c - r c) with delta by (unfold delta; lia).
      rewrite (proj2 (to_Uint8_hue 2 delta (largest c - g c) ltac:(lia) ltac:(lia)
                        ltac:(unfold delta; lia))).
      replace (60 * (largest c - g c - delta)) with (60 * (r c - g c))
        by (unfold delta; lia).
      done.
Qed.

End rgb2hsv_props.

(** X19. [rgb2hsv], in integers.  On a colour of bytes the value byte is
    the largest of red, green and blue; the saturation byte is [1] when
    the colour has a channel that is [0] and one that is not, and [0] for
    every other colour, since the quotient [delta / maxC] is at most [1]
    and is truncated, not scaled; and the hue byte is the hue in whole
    degrees (rounded down).  A hue of [256] degrees or more (the
    violets, magenta, and the reds with more blue than green) is outside
    of [Uint8]: the conversion has no defined result.  ([double] is taken
    as IEEE 754 binary64 with rounding to nearest.) *)
Theorem rgb2hsv_integers (c : SDL.SDL_Color) :
  byte_color c →
  Hsv.rgb2hsv c
  = if hue_degrees c <? 256
    then Some (SDL.mkColor (hue_degrees c)
                           (if (smallest c =? 0) && (0 <? largest c) then 1 else 0)
                           (largest c) SDL.SDL_ALPHA_OPAQUE)
    else None.
Proof.
  intros Hc. pose proof (largest_smallest c Hc) as (H1 & H2 & _).
  rewrite rgb2hsv_terms by done. cbv zeta. unfold hsv_of_terms.
  destruct (Z.eqb_spec (largest c - smallest c) 0) as [E|NE].
  - rewrite to_Uint8_grey_hue, (to_Uint8_of_int 0), (to_Uint8_of_int (largest c)) by lia.
    unfold hue_degrees. cbv zeta. rewrite (proj2 (Z.eqb_eq _ _) E).
    cbn [mbind option_bind]. change (0 <? 256) with true. cbv iota.
    destruct (Z.eqb_spec (smallest c) 0), (Z.ltb_spec 0 (largest c)); simpl; (done || lia).
  - rewrite to_Uint8_hue_of, to_Uint8_saturation, to_Uint8_of_int by (done || lia).
    destruct (hue_degrees c <? 256); [|done]. cbn [mbind option_bind].
    destruct (Z.eqb_spec (largest c - smallest c) (largest c)),
      (Z.eqb_spec (smallest c) 0), (Z.ltb_spec 0 (largest c)); simpl; (done || lia).
Qed.

Lemma rgb2hsv_integers_witness :
  Hsv.rgb2hsv (SDL.mkColor 200 100 0 255) = Some (SDL.mkColor 30 1 200 255)
  ∧ Hsv.rgb2hsv (SDL.mkColor 255 0 255 255) = None.
Proof.
  split.
  - refine (rgb2hsv_integers (SDL.mkColor 200 100 0 255) _).
    unfold byte_color, is_byte. simpl. lia.
  - refine (rgb2hsv_integers (SDL.mkColor 255 0 255 255) _).
    unfold byte_color, is_byte. simpl. lia.
Defined.

(** ** load, called again on the same object *)

Section load_twice.

Import SDL json11 ZipLib BlockColors.

Implicit Types (nodes : list (BlockID * (SDL_Color * Z)))
  (m : gmap BlockID (SDL_Color * Z)).

(** Assigning the same nodes a second time changes nothing. *)
Lemma foldl_assign_twice nodes m :
  foldl assign_node (foldl assign_node m nodes) nodes = foldl assign_node m nodes.
Proof.
  apply map_eq. intros b.
  destruct (foldl_assign_lookup nodes (foldl assign_node m nodes) b)
    as [[_ ->]|(j & p & Hj & Hp & Hlast & ->)]; [done|].
  destruct (foldl_assign_lookup nodes m b) as [[Hno _]|(j' & p' & Hj' & Hp' & Hlast' & ->)].
  { by destruct (Hno j p Hj). }
  destruct (Nat.lt_trichotomy j j') as [Hlt|[<-|Hgt]].
  - by destruct (Hlast j' p' Hlt Hj').
  - congruence.
  - by destruct (Hlast' j p Hgt Hj).
Qed.

Lemma outcomes_functional (computeColor : ZipArchiveEntry → option SDL_Color)
    (cacheJson : Json) (entries : list ZipArchiveEntry) (outs outs' : list (Source * SDL_Color)) :
  Forall2 (λ e o, entry_outcome computeColor cacheJson e = Some o) entries outs →
  Forall2 (λ e o, entry_outcome computeColor cacheJson e = Some o) entries outs' →
  outs = outs'.
Proof.
  intros H. revert outs'. induction H as [|e o entries outs He _ IH]; intros outs' H'.
  - by apply Forall2_nil_inv_l in H'.
  - apply Forall2_cons_inv_l in H' as (o' & outs'' & He' & H' & ->).
    f_equal; [congruence|by apply IH].
Qed.

End load_twice.

(** X20. [load] is idempotent on the object: called a second time with
    the same archive and the same cache value, on the map the first call
    left, it takes the same branch for every entry and leaves the same
    map, flag and cache text. *)
Theorem load_idempotent
    (computeColor : ZipLib.ZipArchiveEntry → option SDL.SDL_Color)
    (entries : list ZipLib.ZipArchiveEntry) (cacheJson : json11.Json)
    (members : gmap blocks.BlockID (SDL.SDL_Color * Z)) :
  (∀ e, e ∈ entries → ¬ cache_holds cacheJson e → is_Some (computeColor e)) →
  ∃ out,
    BlockColors.load computeColor (Some entries) cacheJson members = Some out
    ∧ BlockColors.load computeColor (Some entries) cacheJson
        (BlockColors.blockColors (BlockColors.state out))
      = Some out.
Proof.
  intros Hc.
  destruct (load_shape computeColor cacheJson entries members Hc) as (outs & Hall & Hload).
  destruct (load_shape computeColor cacheJson entries
              (foldl assign_node members (zip_with entry_node entries outs)) Hc)
    as (outs' & Hall' & Hload').
  rewrite <- (outcomes_functional _ _ _ _ _ Hall Hall') in Hload'.
  rewrite foldl_assign_twice in Hload'.
  eexists. split; [exact Hload|]. exact Hload'.
Qed.

Lemma load_idempotent_witness :
  ∃ out,
    BlockColors.load ModePolicy.computeColor (Some two_textures) half_cache ∅ = Some out
    ∧ BlockColors.load ModePolicy.computeColor (Some two_textures) half_cache
        (BlockColors.blockColors (BlockColors.state out))
      = Some out.
Proof.
  exact (load_idempotent ModePolicy.computeColor two_textures half_cache ∅
           two_textures_computable).
Defined.
